(** * LQL query engine: a shallow embedding of [libre/apps/data_drivers/query.py]

    The development follows the Python module top to bottom:
    - [PyStr]: the [str] methods the parser relies on;
    - [PyVal]: row payloads, exceptions, Python 2 ordering of dictionary keys;
    - [PySet]: the built-in [set] with an explicit iteration order;
    - [LQL]: [parse_parameters], [get_filter_functions_map] and the methods
      of class [Query];
    - [Demo]: concrete collaborators and the three-record dataset of the
      specification's scenarios;
    - the theorems, one block per claim. *)

From Stdlib Require Import List String Ascii Bool Arith ZArith Lia Permutation Sorted.
Import ListNotations.
Local Open Scope string_scope.

Set Implicit Arguments.
Set Warnings "-register-all".

(* ------------------------------------------------------------------ *)
(** ** Python [str] methods *)

Module PyStr.

(** [s.startswith(p)] *)
Definition startswith (s p : string) : bool := String.prefix p s.

(** [sub in s], for a non-empty [sub]. *)
Fixpoint contains (sub s : string) : bool :=
  String.prefix sub s
  || match s with
     | EmptyString => false
     | String _ s' => contains sub s'
     end.

(** [s.split(sep)] for a non-empty separator: the string is cut at the
    non-overlapping occurrences of [sep], scanned left to right; [n]
    occurrences give [n + 1] pieces, empty pieces included.  [skip] counts
    the characters of a matched separator still to be passed over and [cur]
    holds the piece being read, last character first. *)
Fixpoint split_go (sep s : string) (skip : nat) (cur : list ascii) : list string :=
  match s with
  | EmptyString => [string_of_list_ascii (rev cur)]
  | String c s' =>
      match skip with
      | S k => split_go sep s' k cur
      | O =>
          if String.prefix sep s
          then string_of_list_ascii (rev cur) :: split_go sep s' (String.length sep - 1) []
          else split_go sep s' 0 (c :: cur)
      end
  end.

Definition split (s sep : string) : list string := split_go sep s 0 [].

(** [sep.join(pieces)] *)
Definition join (sep : string) (pieces : list string) : string :=
  String.concat sep pieces.

(** [s.replace(old, new)] for a non-empty [old]. *)
Definition replace (s old new : string) : string := join new (split s old).

(** The characters [str.strip()] removes: space, tab, line feed, vertical
    tab, form feed, carriage return. *)
Definition is_space (c : ascii) : bool :=
  let n := nat_of_ascii c in
  ((n =? 32) || ((9 <=? n) && (n <=? 13)))%nat.

Fixpoint lstrip (s : string) : string :=
  match s with
  | EmptyString => EmptyString
  | String c s' => if is_space c then lstrip s' else s
  end.

Fixpoint rstrip (s : string) : string :=
  match s with
  | EmptyString => EmptyString
  | String c s' =>
      match rstrip s' with
      | EmptyString => if is_space c then EmptyString else String c EmptyString
      | r => String c r
      end
  end.

Definition strip (s : string) : string := rstrip (lstrip s).

(** The slice [s[1:-1]]: the string without its first and last character,
    empty when [s] has fewer than two characters. *)
Definition slice_1_m1 (s : string) : string :=
  String.substring 1 (String.length s - 2) s.

Definition upper_ascii (c : ascii) : ascii :=
  let n := nat_of_ascii c in
  if ((97 <=? n) && (n <=? 122))%nat then ascii_of_nat (n - 32) else c.

(** [s.upper()] *)
Fixpoint upper (s : string) : string :=
  match s with
  | EmptyString => EmptyString
  | String c s' => String (upper_ascii c) (upper s')
  end.

End PyStr.

(* ------------------------------------------------------------------ *)
(** ** Python values, exceptions and dictionaries *)

Module PyVal.

(** Floating point numbers by their value: not-a-number, the two
    infinities and the finite ones.  A finite double is an integer or an
    odd multiple of a negative power of two; [FDyadic k e] is
    [(2k+1) / 2^e], so that every number is written in one way only.
    Every such number is admitted, also those too long for a double,
    which changes nothing in how numbers compare. *)
Inductive pyfloat : Type :=
| FNaN
| FInf (negative : bool)
| FIntegral (n : Z)
| FDyadic (k : Z) (e : positive).

(** Row payloads are JSON-like values. *)
Inductive value : Type :=
| VNone
| VBool (b : bool)
| VInt (n : Z)
| VStr (s : string)
| VList (items : list value)
| VDict (entries : list (string * value))
| VFloat (f : pyfloat).

(** The exception classes the module raises, catches or lets through. *)
Inductive exn : Type :=
| Http400 (message : string)
| KeyError (key : string)
| IndexError
| AttributeError
| TypeError
| ValueError (message : string).

(** A call either returns or raises. *)
Inductive result (A : Type) : Type :=
| Ok (a : A)
| Raise (e : exn).
Arguments Ok {A} a.
Arguments Raise {A} e.

Definition bind {A B : Type} (r : result A) (k : A -> result B) : result B :=
  match r with
  | Ok a => k a
  | Raise e => Raise e
  end.

(** Only [Http400] carries the bad-request classification; every other
    exception leaving [execute] is an internal fault for the caller. *)
Definition is_bad_request (e : exn) : bool :=
  match e with
  | Http400 _ => true
  | _ => false
  end.

(** Association-list dictionaries: [d.get(k)], [d[k] = v] (the binding is
    replaced where the key is bound, added otherwise) and
    [d.setdefault(k, v)]. *)
Section Dict.
Variables K V : Type.
Variable eqb : K -> K -> bool.

Fixpoint dict_get (k : K) (d : list (K * V)) : option V :=
  match d with
  | [] => None
  | (k', v) :: d' => if eqb k k' then Some v else dict_get k d'
  end.

Fixpoint dict_set (k : K) (v : V) (d : list (K * V)) : list (K * V) :=
  match d with
  | [] => [(k, v)]
  | (k', v') :: d' => if eqb k k' then (k', v) :: d' else (k', v') :: dict_set k v d'
  end.

Definition dict_setdefault (k : K) (v : V) (d : list (K * V)) : list (K * V) :=
  match dict_get k d with
  | Some _ => d
  | None => dict_set k v d
  end.
End Dict.

(** [value[part]] for a string [part]: a dictionary answers or raises
    [KeyError]; lists, strings, numbers and [None] raise [TypeError]. *)
Definition getitem (v : value) (part : string) : result value :=
  match v with
  | VDict entries =>
      match dict_get String.eqb part entries with
      | Some x => Ok x
      | None => Raise (KeyError part)
      end
  | _ => Raise TypeError
  end.

(** Dictionary keys in the form in which Python 2 hashes and compares
    them: [True] is the number 1 and [False] the number 0, and a float
    with an integral value is that integer ([1.0 == 1], with the same
    hash).  [KDyadic k e] is the number [(2k+1) / 2^e]. *)
Inductive key : Type :=
| KNone
| KNum (n : Z)
| KStr (s : string)
| KDyadic (k : Z) (e : positive)
| KInf (negative : bool)
| KNaN.

(** Lists and dictionaries are unhashable. *)
Definition hash_key (v : value) : option key :=
  match v with
  | VNone => Some KNone
  | VBool b => Some (KNum (Z.b2z b))
  | VInt n => Some (KNum n)
  | VStr s => Some (KStr s)
  | VList _ | VDict _ => None
  | VFloat FNaN => Some KNaN
  | VFloat (FInf negative) => Some (KInf negative)
  | VFloat (FIntegral n) => Some (KNum n)
  | VFloat (FDyadic k e) => Some (KDyadic k e)
  end.

(** [a == b] on keys.  NaN equals nothing, itself included.  Python
    makes one exception, for the very same object met twice; the values
    of different rows are taken to be objects of their own, so that it
    does not arise. *)
Definition key_eqb (a b : key) : bool :=
  match a, b with
  | KNone, KNone => true
  | KNum m, KNum n => Z.eqb m n
  | KStr s, KStr t => String.eqb s t
  | KDyadic k e, KDyadic k' e' => Z.eqb k k' && Pos.eqb e e'
  | KInf m, KInf n => Bool.eqb m n
  | _, _ => false
  end.

(** The denominator [2^e] of a dyadic key. *)
Definition key_den (e : positive) : Z := Z.pos (2 ^ e).
Arguments key_den : simpl never.

(** [not (b < a)] in Python 2, which is what a sort that only asks [<]
    sees: [None] before every number, numbers before every string,
    numbers by value, strings byte-wise.  NaN is a number for the first
    two rules, and no number is smaller than NaN nor NaN smaller than
    any number. *)
Definition key_leb (a b : key) : bool :=
  match a, b with
  | KNone, _ => true
  | _, KNone => false
  | KStr s, KStr t => String.leb s t
  | KStr _, _ => false
  | _, KStr _ => true
  | KNaN, _ | _, KNaN => true
  | KInf true, _ => true
  | _, KInf true => false
  | _, KInf false => true
  | KInf false, _ => false
  | KNum m, KNum n => Z.leb m n
  | KNum m, KDyadic k e => Z.leb (m * key_den e) (2 * k + 1)
  | KDyadic k e, KNum n => Z.leb (2 * k + 1) (n * key_den e)
  | KDyadic k e, KDyadic k' e' =>
      Z.leb ((2 * k + 1) * key_den e') ((2 * k' + 1) * key_den e)
  end.

(** [a == b] on values that may sit in a key position. *)
Definition value_eqb (a b : value) : bool :=
  match hash_key a, hash_key b with
  | Some x, Some y => key_eqb x y
  | _, _ => false
  end.

End PyVal.
Export PyVal.

Notation "x <- r ;; k" := (bind r (fun x => k))
  (at level 61, r at next level, right associativity).

(* ------------------------------------------------------------------ *)
(** ** The built-in [set] of row positions *)

Module PySet.

(** A set is kept as the list of its members in the order in which it
    iterates.  That order is the interpreter's, not the program's:
    [set_order] stands for the hash table layout and is only known to
    rearrange the members. *)
Definition pyset := list nat.

Definition mem (x : nat) (s : pyset) : bool := existsb (Nat.eqb x) s.

Section Ops.
Variable set_order : list nat -> list nat.

(** [set(l)] *)
Definition of_list (l : list nat) : pyset :=
  set_order (nodup Nat.eq_dec l).

(** [a &= b] *)
Definition inter (a b : pyset) : pyset :=
  set_order (filter (fun x => mem x b) a).

(** [a |= b] *)
Definition union (a b : pyset) : pyset :=
  set_order (nodup Nat.eq_dec (a ++ b)).
End Ops.

(** An iteration order is lawful when it only rearranges. *)
Definition lawful (set_order : list nat -> list nat) : Prop :=
  forall l, Permutation (set_order l) l.

(** Ascending order, in which the specification wants positions listed. *)
Fixpoint insert_asc (x : nat) (l : list nat) : list nat :=
  match l with
  | [] => [x]
  | y :: l' => if (x <=? y)%nat then x :: l else y :: insert_asc x l'
  end.

Definition ascending (l : list nat) : list nat := fold_right insert_asc [] l.

(** The order of a CPython hash table of eight slots holding small
    integers that do not collide: an integer hashes to itself and sits in
    slot [n mod 8]; iteration walks the slots. *)
Fixpoint insert_slot (x : nat) (l : list nat) : list nat :=
  match l with
  | [] => [x]
  | y :: l' => if (x mod 8 <=? y mod 8)%nat then x :: l else y :: insert_slot x l'
  end.

Definition slot_order (l : list nat) : list nat := fold_right insert_slot [] l.

End PySet.

(* ------------------------------------------------------------------ *)
(** ** The query engine *)

Module LQL.
Import PyStr PySet.

(** Modelled from the spec: the constants of [literals.py], which is not
    among the sources.  The parameter grammar of the specification gives
    the directive delimiter ([_join], [_fields]) and the operator
    separator ([field__op]). *)
Definition LQL_DELIMITER : string := "_".
Definition DOUBLE_DELIMITER : string := "__".

Inductive JoinType : Type :=
| JOIN_TYPE_AND
| JOIN_TYPE_OR.

(** The dictionaries [{'field': .., 'filter_name': .., 'value': ..}]. *)
Record filter_spec : Type := {
  field : string;
  filter_name : string;
  filter_value : value
}.

(** An instance of a filter class: the class identifier found in
    [FILTER_NAMES] and the constructor arguments. *)
Record operation : Type := {
  op_class : nat;
  op_field : string;
  op_value : value
}.

(** A filter dictionary after [get_filter_functions_map] added its
    ['operation'] entry. *)
Record post_filter : Type := {
  spec : filter_spec;
  operation_of : operation
}.

Inductive aggregate_function : Type :=
| Count (args : list string)
| Sum (args : list string).

(** The dictionaries [{'name': .., 'function': ..}]. *)
Record aggregate : Type := {
  name : string;
  function : aggregate_function
}.

(** What [execute] hands back: the retrieved rows, the grouping
    [result[group][key]], the flat aggregate mapping or the aggregates per
    group and key. *)
Inductive QueryResult : Type :=
| Rows (rows : list value)
| Groups (by_field : list (string * list (key * list value)))
| Aggregates (by_alias : list (string * value))
| GroupAggregates (by_field : list (string * list (key * list (string * value)))).

(** The items of the parameter dictionary, in the order in which
    [parameters.items()] hands them out; the names are pairwise distinct. *)
Definition ParameterMap : Type := list (string * string).

(** A sibling dataset and the model class that finds it by slug;
    [get_subclass] answers [None] where the manager raises [DoesNotExist]. *)
Record Source : Type := {
  get_all : ParameterMap -> result QueryResult
}.

Record Klass : Type := {
  get_subclass : string -> option Source
}.

Record item : Type := {
  row : value
}.

(** The attributes of a [Query] instance.  [__init__] sets [data], [limit]
    and [klass]; [slug] is read by [execute] but set nowhere in the module,
    so it is an attribute the instance may lack.  [limit] is a row count,
    for which the slice [[0:limit]] is [firstn limit]. *)
Record Query : Type := {
  data : list item;
  limit : nat;
  klass : Klass;
  slug : option string
}.

(** [Query(data, limit, klass)]: the instance [__init__] leaves behind.
    It has the three attributes it was given and no [slug]. *)
Definition Query_init (data : list item) (limit : nat) (klass : Klass) : Query :=
  {| data := data; limit := limit; klass := klass; slug := None |}.

(** The collaborators imported from modules outside the sources. *)
Record Collaborators : Type := {
  (** [utils.parse_value] *)
  parse_value : string -> result value;
  (** [filters.FILTER_NAMES] *)
  FILTER_NAMES : string -> option nat;
  (** [operation.evaluate(value)] of the class with that identifier *)
  evaluate : operation -> value -> result bool;
  (** [geometry.shape(value).length], [.area] and [.geom_type] *)
  shape_length : value -> result value;
  shape_area : value -> result value;
  shape_geom_type : value -> result value;
  (** [Sum(args).execute(rows)] *)
  sum_execute : list string -> list value -> result value;
  (** [JSONq(data).query(field_query, do_filter=True)] *)
  jsonq_query : list string -> QueryResult -> result QueryResult;
  (** iteration order of the interpreter's sets *)
  set_order : list nat -> list nat
}.

(** The five values [parse_parameters] returns. *)
Record directives : Type := {
  filters : list filter_spec;
  field_query : option (list string);
  join_type : JoinType;
  aggregates : list aggregate;
  groups : list string
}.

Definition no_directives : directives :=
  {| filters := []; field_query := None; join_type := JOIN_TYPE_AND;
     aggregates := []; groups := [] |}.

(** [filters.append(f)] and the assignments to the other four variables. *)
Definition append_filter (st : directives) (f : filter_spec) : directives :=
  {| filters := filters st ++ [f]; field_query := field_query st; join_type := join_type st;
     aggregates := aggregates st; groups := groups st |}.

Definition set_join_type (st : directives) (j : JoinType) : directives :=
  {| filters := filters st; field_query := field_query st; join_type := j;
     aggregates := aggregates st; groups := groups st |}.

Definition set_field_query (st : directives) (fq : list string) : directives :=
  {| filters := filters st; field_query := Some fq; join_type := join_type st;
     aggregates := aggregates st; groups := groups st |}.

Definition set_groups (st : directives) (g : list string) : directives :=
  {| filters := filters st; field_query := field_query st; join_type := join_type st;
     aggregates := aggregates st; groups := g |}.

Definition set_aggregates (st : directives) (a : list aggregate) : directives :=
  {| filters := filters st; field_query := field_query st; join_type := join_type st;
     aggregates := a; groups := groups st |}.

(** The loop of [execute] either goes on with a value, leaves [execute]
    through [return source.get_all(..)], or raises. *)
Inductive outcome (A : Type) : Type :=
| Val (a : A)
| Return (d : QueryResult)
| Throw (e : exn).
Arguments Val {A} a.
Arguments Return {A} d.
Arguments Throw {A} e.

Section Engine.
Variable E : Collaborators.

(** *** [parse_parameters] *)

(** One element of the [_aggregate] list. *)
Definition parse_aggregate (element : string) : result (option aggregate) :=
  match split element ":" with
  | [name; aggregate_string] =>
      if startswith aggregate_string "Count(" then
        Ok (Some {| name := slice_1_m1 (strip name);
                    function := Count (split (replace (replace aggregate_string "Count(" EmptyString) ")" EmptyString) ",") |})
      else if startswith aggregate_string "Sum(" then
        Ok (Some {| name := slice_1_m1 (strip name);
                    function := Sum (split (replace (replace aggregate_string "Sum(" EmptyString) ")" EmptyString) ",") |})
      else Ok None
  | _ => Raise (Http400 "Specify an alias for the aggregate")
  end.

Fixpoint parse_aggregates (elements : list string) (aggregates : list aggregate)
  : result (list aggregate) :=
  match elements with
  | [] => Ok aggregates
  | element :: rest =>
      a <- parse_aggregate element ;;
      parse_aggregates rest
        match a with
        | Some a => aggregates ++ [a]
        | None => aggregates
        end
  end.

(** The body of the loop over [parameters.items()]. *)
Definition parse_parameter (st : directives) (parameter value : string) : result directives :=
  if negb (startswith parameter LQL_DELIMITER) then
    value <- match parse_value E value with
             | Raise IndexError => Raise (Http400 "Malformed query")
             | r => r
             end ;;
    if negb (contains DOUBLE_DELIMITER parameter) then
      Ok (append_filter st {| field := parameter; filter_name := "equals"; filter_value := value |})
    else
      match split parameter DOUBLE_DELIMITER with
      | [field; filter_name] =>
          Ok (append_filter st {| field := field; filter_name := filter_name; filter_value := value |})
      | _ => Raise (Http400 "Only one filter per field is supported")
      end
  else if parameter =? LQL_DELIMITER ++ "join" then
    if upper value =? "OR" then Ok (set_join_type st JOIN_TYPE_OR) else Ok st
  else if parameter =? LQL_DELIMITER ++ "fields" then
    Ok (set_field_query st (split value ","))
  else if parameter =? LQL_DELIMITER ++ "group_by" then
    Ok (set_groups st (split value ","))
  else if parameter =? LQL_DELIMITER ++ "aggregate" then
    aggregates <- parse_aggregates (split (slice_1_m1 (strip value)) ",") (aggregates st) ;;
    Ok (set_aggregates st aggregates)
  else Ok st.

Fixpoint parse_loop (st : directives) (items : ParameterMap) : result directives :=
  match items with
  | [] => Ok st
  | (parameter, value) :: rest =>
      st' <- parse_parameter st parameter value ;;
      parse_loop st' rest
  end.

Definition parse_parameters (parameters : ParameterMap) : result directives :=
  parse_loop no_directives parameters.

(** *** [get_filter_functions_map] *)

Fixpoint get_filter_functions_map (filter_names : list filter_spec) : result (list post_filter) :=
  match filter_names with
  | [] => Ok []
  | f :: rest =>
      match FILTER_NAMES E (filter_name f) with
      | None => Raise (Http400 ("Unknown filter: " ++ filter_name f))
      | Some filter_identifier =>
          rest' <- get_filter_functions_map rest ;;
          Ok ({| spec := f;
                 operation_of := {| op_class := filter_identifier;
                                    op_field := field f;
                                    op_value := filter_value f |} |} :: rest')
      end
  end.

(** *** The filter loop of [Query.execute] *)

Section Execute.
Variable self : Query.
Variable parameters : ParameterMap.

(** The handler of [KeyError] around [value = value[part]].  Reading
    [self.slug] on an instance without that attribute raises
    [AttributeError]; where the part is the instance's own slug the
    handler falls through and [value] (here [val]) stays as it was. *)
Definition on_key_error (field : string) (index : nat) (part : string) (val : value)
  : outcome value :=
  if (index =? 0)%nat then
    match slug self with
    | None => Throw AttributeError
    | Some own =>
        if negb (part =? own) then
          match get_subclass (klass self) part with
          | None => Throw (Http400 ("Unknown source: " ++ part))
          | Some source =>
              match get_all source parameters with
              | Ok d => Return d
              | Raise e => Throw e
              end
          end
        else Val val
    end
  else Throw (Http400 ("Invalid element: " ++ field)).

Definition lift {A : Type} (r : result A) : outcome A :=
  match r with
  | Ok a => Val a
  | Raise e => Throw e
  end.

(** One turn of [for index, part in enumerate(field.split('.'))]. *)
Definition resolve_part (field : string) (index : nat) (part : string) (val : value)
  : outcome value :=
  if part =? "_length" then lift (shape_length E val)
  else if part =? "_area" then lift (shape_area E val)
  else if part =? "_type" then lift (shape_geom_type E val)
  else
    match getitem val part with
    | Ok v => Val v
    | Raise (KeyError _) => on_key_error field index part val
    | Raise e => Throw e
    end.

Fixpoint resolve_parts (field : string) (index : nat) (parts : list string) (val : value)
  : outcome value :=
  match parts with
  | [] => Val val
  | part :: rest =>
      match resolve_part field index part val with
      | Val v => resolve_parts field (S index) rest v
      | Return d => Return d
      | Throw e => Throw e
      end
  end.

(** [except (AttributeError, TypeError)] around the whole resolution. *)
Definition invalid_element (field : string) (o : outcome value) : outcome value :=
  match o with
  | Throw AttributeError | Throw TypeError => Throw (Http400 ("Invalid element: " ++ field))
  | _ => o
  end.

(** The [try] block for one row: from [item.row] along the dotted path. *)
Definition resolve_field (post_filter : post_filter) (item : item) : outcome value :=
  let field := field (spec post_filter) in
  invalid_element field (resolve_parts field 0 (split field ".") (row item)).

(** [for row_id, item in enumerate(self.data)] for one filter. *)
Fixpoint scan_rows (post_filter : post_filter) (row_id : nat) (items : list item)
         (filter_results : list nat) : outcome (list nat) :=
  match items with
  | [] => Val filter_results
  | item :: rest =>
      match resolve_field post_filter item with
      | Val value =>
          match evaluate E (operation_of post_filter) value with
          | Ok true => scan_rows post_filter (S row_id) rest (filter_results ++ [row_id])
          | Ok false => scan_rows post_filter (S row_id) rest filter_results
          | Raise e => Throw e
          end
      | Return d => Return d
      | Throw e => Throw e
      end
  end.

(** The match-set of one filter, computed over the whole dataset. *)
Definition filter_matches (post_filter : post_filter) : outcome (list nat) :=
  scan_rows post_filter 0 (data self) [].

(** The combining step at the end of each turn of the filter loop. *)
Definition combine (join_type : JoinType) (query_results : pyset) (filter_results : list nat)
  : pyset :=
  match query_results with
  | _ :: _ =>
      match join_type with
      | JOIN_TYPE_AND => inter (set_order E) query_results (of_list (set_order E) filter_results)
      | JOIN_TYPE_OR => union (set_order E) query_results (of_list (set_order E) filter_results)
      end
  | [] => of_list (set_order E) filter_results
  end.

(** [for post_filter in filters_function_map], from a given
    [query_results]. *)
Fixpoint run_filters (join_type : JoinType) (filters_function_map : list post_filter)
         (query_results : pyset) : outcome pyset :=
  match filters_function_map with
  | [] => Val query_results
  | post_filter :: rest =>
      match filter_matches post_filter with
      | Val filter_results =>
          run_filters join_type rest (combine join_type query_results filter_results)
      | Return d => Return d
      | Throw e => Throw e
      end
  end.

(** *** [Query.get_data] *)

(** [itemgetter] over the unpacked list of positions, applied to
    [queryset]: the items at those positions, in the order given. *)
Fixpoint itemgetter_all (positions : list nat) (queryset : list item) : result (list item) :=
  match positions with
  | [] => Ok []
  | p :: rest =>
      match nth_error queryset p with
      | None => Raise IndexError
      | Some item =>
          items <- itemgetter_all rest queryset ;;
          Ok (item :: items)
      end
  end.

Definition get_data (queryset : list item) (filters : list filter_spec) (query_results : pyset)
  : result (list value) :=
  match filters with
  | _ :: _ =>
      match query_results with
      | [_] =>
          items <- itemgetter_all query_results queryset ;;
          Ok (map row items)
      | [] => Ok []
      | _ =>
          items <- itemgetter_all query_results queryset ;;
          Ok (map row (firstn (limit self) items))
      end
  | [] => Ok (map row (firstn (limit self) queryset))
  end.

End Execute.

(** *** [Query.process_groups] *)

(** [sorted] first computes [itemgetter(group)(row)] for every row. *)
Fixpoint decorate (group : string) (rows : list value) : result (list (value * value)) :=
  match rows with
  | [] => Ok []
  | r :: rest =>
      k <- getitem r group ;;
      rest' <- decorate group rest ;;
      Ok ((k, r) :: rest')
  end.

(** Comparing keys never raises in Python 2, but the assignment
    [result[group][key] = ..] raises [TypeError] on a list or a
    dictionary, and each key is, or equals, the key of some run: the
    grouping exists exactly when every key is hashable. *)
Fixpoint hash_keys (l : list (value * value)) : result (list (key * value)) :=
  match l with
  | [] => Ok []
  | (k, r) :: rest =>
      match hash_key k with
      | None => Raise TypeError
      | Some k' =>
          rest' <- hash_keys rest ;;
          Ok ((k', r) :: rest')
      end
  end.

(** [sorted(.., key=..)] asks only [<] and is stable: a row goes in front
    of the first row whose key is not smaller.  On keys that [<] orders
    totally every stable sort leaves the rows in this one order.  NaN keys
    are not so ordered; with them, a sequence in which no key is smaller
    than the key before it is one ascending run, which Python leaves as
    it is and so does this definition (lemma [sorted_ascending_run]).
    Other sequences with NaN keys leave Python's sort in an order that
    depends on how it finds and merges its runs; whatever is proved of
    the sorted order excludes NaN keys or is about one ascending run. *)
Fixpoint insert_by_key (x : key * value) (l : list (key * value)) : list (key * value) :=
  match l with
  | [] => [x]
  | y :: l' => if key_leb (fst x) (fst y) then x :: l else y :: insert_by_key x l'
  end.

Definition sorted (l : list (key * value)) : list (key * value) :=
  fold_right insert_by_key [] l.

(** [itertools.groupby]: a run lasts while the key of the next row equals
    the key [tgtkey] of the row that opened it; [run] is the run so far,
    last row first. *)
Fixpoint groupby_from (tgtkey : key) (run : list value) (l : list (key * value))
  : list (key * list value) :=
  match l with
  | [] => [(tgtkey, rev run)]
  | (k, r) :: rest =>
      if key_eqb k tgtkey then groupby_from tgtkey (r :: run) rest
      else (tgtkey, rev run) :: groupby_from k [r] rest
  end.

Definition groupby (l : list (key * value)) : list (key * list value) :=
  match l with
  | [] => []
  | (k, r) :: rest => groupby_from k [r] rest
  end.

(** [result[group][key] = list(group_data)] for every run in turn. *)
Definition assign_runs (runs : list (key * list value)) : list (key * list value) :=
  fold_left (fun d run => dict_set key_eqb (fst run) (snd run) d) runs [].

(** The body of [for group in groups]: the grouping for one field. *)
Definition group_rows (group : string) (rows : list value) : result (list (key * list value)) :=
  decorated <- decorate group rows ;;
  keyed <- hash_keys decorated ;;
  Ok (assign_runs (groupby (sorted keyed))).

Fixpoint group_loop (rows : list value) (groups : list string)
         (result : list (string * list (key * list value)))
  : PyVal.result (list (string * list (key * list value))) :=
  match groups with
  | [] => Ok result
  | group :: rest =>
      grouping <- group_rows group rows ;;
      group_loop rows rest (dict_set String.eqb group grouping result)
  end.

Definition process_groups (rows : list value) (groups : list string) : result QueryResult :=
  match groups with
  | _ :: _ =>
      result <- group_loop rows groups [] ;;
      Ok (Groups result)
  | [] => Ok (Rows rows)
  end.

(** *** [Query.process_aggregates] *)

(** Modelled from the spec: [aggregates.py] is not among the sources.
    [Count] ignores its operand list and returns the number of rows of
    the subset; what [Sum] returns is left to the collaborator. *)
Definition aggregate_execute (f : aggregate_function) (rows : list value) : result value :=
  match f with
  | Count _ => Ok (VInt (Z.of_nat (List.length rows)))
  | Sum args => sum_execute E args rows
  end.

Fixpoint aggregate_flat (aggregates : list aggregate) (rows : list value)
         (new_result : list (string * value)) : result (list (string * value)) :=
  match aggregates with
  | [] => Ok new_result
  | aggregate :: rest =>
      v <- aggregate_execute (function aggregate) rows ;;
      aggregate_flat rest rows (dict_set String.eqb (name aggregate) v new_result)
  end.

(** [for aggregate in aggregates] for one key of one group;
    [per_key] is [new_result[group]]. *)
Fixpoint aggregate_key (aggregates : list aggregate) (group_result : key) (rows : list value)
         (per_key : list (key * list (string * value)))
  : result (list (key * list (string * value))) :=
  match aggregates with
  | [] => Ok per_key
  | aggregate :: rest =>
      let per_key := dict_setdefault key_eqb group_result [] per_key in
      v <- aggregate_execute (function aggregate) rows ;;
      let cell := match dict_get key_eqb group_result per_key with
                  | Some c => c
                  | None => []
                  end in
      aggregate_key rest group_result rows
        (dict_set key_eqb group_result (dict_set String.eqb (name aggregate) v cell) per_key)
  end.

(** [for group_result in data[group]] *)
Fixpoint aggregate_keys (aggregates : list aggregate) (grouping : list (key * list value))
         (per_key : list (key * list (string * value)))
  : result (list (key * list (string * value))) :=
  match grouping with
  | [] => Ok per_key
  | (group_result, rows) :: rest =>
      per_key' <- aggregate_key aggregates group_result rows per_key ;;
      aggregate_keys aggregates rest per_key'
  end.

(** [for group in groups] *)
Fixpoint aggregate_groups (aggregates : list aggregate) (groups : list string)
         (grouped : list (string * list (key * list value)))
         (new_result : list (string * list (key * list (string * value))))
  : result (list (string * list (key * list (string * value)))) :=
  match groups with
  | [] => Ok new_result
  | group :: rest =>
      let new_result := dict_setdefault String.eqb group [] new_result in
      match dict_get String.eqb group grouped with
      | None => Raise (KeyError group)
      | Some grouping =>
          let per_key := match dict_get String.eqb group new_result with
                         | Some c => c
                         | None => []
                         end in
          per_key' <- aggregate_keys aggregates grouping per_key ;;
          aggregate_groups aggregates rest grouped (dict_set String.eqb group per_key' new_result)
      end
  end.

(** Without groups [d] is the row sequence, with groups the grouping
    [process_groups] built; no other shape reaches this method. *)
Definition process_aggregates (d : QueryResult) (groups : list string)
           (aggregates : list aggregate) : result QueryResult :=
  match aggregates with
  | _ :: _ =>
      match groups with
      | [] =>
          match d with
          | Rows rows =>
              new_result <- aggregate_flat aggregates rows [] ;;
              Ok (Aggregates new_result)
          | _ => Raise TypeError
          end
      | _ :: _ =>
          match d with
          | Groups grouped =>
              new_result <- aggregate_groups aggregates groups grouped [] ;;
              Ok (GroupAggregates new_result)
          | _ => Raise TypeError
          end
      end
  | [] => Ok d
  end.

(** *** [Query.process_field_filtering] *)

Definition process_field_filtering (d : QueryResult) (field_query : option (list string))
  : result QueryResult :=
  match field_query with
  | None | Some [] => Ok d
  | Some fq =>
      match jsonq_query E fq d with
      | Raise (ValueError exception) => Raise (Http400 ("Filter query error; " ++ exception))
      | r => r
      end
  end.

(** *** [Query.execute] *)

(** The set [query_results] at the end of the filter loop. *)
Definition surviving (self : Query) (parameters : ParameterMap) : result (outcome pyset) :=
  d <- parse_parameters parameters ;;
  filters_function_map <- get_filter_functions_map (filters d) ;;
  Ok (run_filters self parameters (join_type d) filters_function_map []).

Definition execute (self : Query) (parameters : ParameterMap) : result QueryResult :=
  d <- parse_parameters parameters ;;
  filters_function_map <- get_filter_functions_map (filters d) ;;
  match run_filters self parameters (join_type d) filters_function_map [] with
  | Throw e => Raise e
  | Return r => Ok r
  | Val query_results =>
      rows <- get_data self (data self) (filters d) query_results ;;
      grouped <- process_groups rows (groups d) ;;
      aggregated <- process_aggregates grouped (groups d) (aggregates d) ;;
      process_field_filtering aggregated (field_query d)
  end.

End Engine.
End LQL.

(* ------------------------------------------------------------------ *)
(** ** Concrete collaborators and the dataset of the scenarios *)

Module Demo.
Import LQL.

Fixpoint digits (s : string) (acc : Z) : option Z :=
  match s with
  | EmptyString => Some acc
  | String c s' =>
      let n := nat_of_ascii c in
      if ((48 <=? n) && (n <=? 57))%nat
      then digits s' (10 * acc + Z.of_nat (n - 48))
      else None
  end.

(** Modelled from the spec: [utils.parse_value] is not among the sources.
    The raw value is coerced to a typed scalar: a run of digits is a
    number, any other text a string.  Coercion starts by indexing the first
    character, which is the [IndexError] the parser catches. *)
Definition parse_value (s : string) : result value :=
  match s with
  | EmptyString => Raise IndexError
  | _ =>
      match digits s 0 with
      | Some n => Ok (VInt n)
      | None => Ok (VStr s)
      end
  end.

(** Modelled from the spec: [filters.py] is not among the sources.  The
    registry knows the [equals] operator, which holds of a resolved value
    equal to the comparison value. *)
Definition FILTER_NAMES (filter_name : string) : option nat :=
  if filter_name =? "equals" then Some 0%nat else None.

Definition evaluate (op : operation) (v : value) : result bool :=
  Ok (value_eqb v (op_value op)).

Definition no_geometry (v : value) : result value :=
  Raise (ValueError "Unknown geometry type").

(** Modelled from the spec: [Sum] adds the first operand field over the
    rows of the subset. *)
Fixpoint sum_execute (args : list string) (rows : list value) : result value :=
  match rows with
  | [] => Ok (VInt 0)
  | r :: rest =>
      x <- getitem r (hd EmptyString args) ;;
      total <- sum_execute args rest ;;
      match x, total with
      | VInt a, VInt b => Ok (VInt (a + b))
      | _, _ => Raise TypeError
      end
  end.

Definition collaborators : Collaborators :=
  {| LQL.parse_value := parse_value;
     LQL.FILTER_NAMES := FILTER_NAMES;
     LQL.evaluate := evaluate;
     shape_length := no_geometry;
     shape_area := no_geometry;
     shape_geom_type := no_geometry;
     LQL.sum_execute := sum_execute;
     jsonq_query := fun _ d => Ok d;
     set_order := PySet.slot_order |}.

(** The same collaborators on an interpreter whose sets iterate in
    ascending order. *)
Definition collaborators_asc : Collaborators :=
  {| LQL.parse_value := parse_value;
     LQL.FILTER_NAMES := FILTER_NAMES;
     LQL.evaluate := evaluate;
     shape_length := no_geometry;
     shape_area := no_geometry;
     shape_geom_type := no_geometry;
     LQL.sum_execute := sum_execute;
     jsonq_query := fun _ d => Ok d;
     set_order := PySet.ascending |}.

Definition record (id v : Z) : value :=
  VDict [("id", VInt id); ("v", VInt v)].

(** The dataset [{id:1,v:5}, {id:2,v:7}, {id:3,v:5}]. *)
Definition dataset : list item :=
  [ {| row := record 1 5 |}; {| row := record 2 7 |}; {| row := record 3 5 |} ].

Definition no_sibling : Klass := {| get_subclass := fun _ => None |}.

Definition query (limit : nat) : Query :=
  {| data := dataset; limit := limit; klass := no_sibling; slug := Some "records" |}.

(** What [get_filter_functions_map] makes of the plain filter
    [field=value]. *)
Definition equals_filter (field : string) (v : value) : post_filter :=
  {| spec := {| LQL.field := field; filter_name := "equals"; filter_value := v |};
     operation_of := {| op_class := 0; op_field := field; op_value := v |} |}.

(** A registry with one sibling dataset, under the slug [other]. *)
Definition sibling : Source :=
  {| get_all := fun _ => Ok (Rows [VStr "row of the sibling"]) |}.

Definition one_sibling : Klass :=
  {| get_subclass := fun s => if s =? "other" then Some sibling else None |}.

Definition federated_query (limit : nat) : Query :=
  {| data := dataset; limit := limit; klass := one_sibling; slug := Some "records" |}.

(** Nine records, of which those at positions 1 and 8 have [v = 5]. *)
Definition wide_dataset : list item :=
  map (fun i => {| row := record (Z.of_nat i) (if ((i =? 1) || (i =? 8))%nat then 5 else 7) |})
      (seq 0 9).

(** Three filters whose match-sets on [dataset] are [{0}], [{1}] and [{2}],
    and the six orders in which a dictionary may hand them out. *)
Definition by_id_1 : string * string := ("id", "1").
Definition by_v_7 : string * string := ("v", "7").
Definition by_id_3 : string * string := ("id__equals", "3").

Definition disjoint_filters : list ParameterMap :=
  [ [by_id_1; by_v_7; by_id_3]; [by_id_1; by_id_3; by_v_7];
    [by_v_7; by_id_1; by_id_3]; [by_v_7; by_id_3; by_id_1];
    [by_id_3; by_id_1; by_v_7]; [by_id_3; by_v_7; by_id_1] ].

Definition wide_query (limit : nat) : Query :=
  {| data := wide_dataset; limit := limit; klass := no_sibling; slug := Some "records" |}.

(** Collaborators without geometry support whose [Sum] counts nothing:
    every failure of theirs is one the engine classifies. *)
Definition plain_collaborators : Collaborators :=
  {| LQL.parse_value := parse_value;
     LQL.FILTER_NAMES := FILTER_NAMES;
     LQL.evaluate := evaluate;
     shape_length := fun _ => Raise AttributeError;
     shape_area := fun _ => Raise AttributeError;
     shape_geom_type := fun _ => Raise AttributeError;
     LQL.sum_execute := fun _ _ => Ok (VInt 0);
     jsonq_query := fun _ d => Ok d;
     set_order := PySet.slot_order |}.

(** A predicate that refuses to compare a list or a dictionary. *)
Definition strict_evaluate (op : operation) (v : value) : result bool :=
  match hash_key v with
  | Some _ => Ok (value_eqb v (op_value op))
  | None => Raise TypeError
  end.

Definition strict_collaborators : Collaborators :=
  {| LQL.parse_value := parse_value;
     LQL.FILTER_NAMES := FILTER_NAMES;
     LQL.evaluate := strict_evaluate;
     shape_length := no_geometry;
     shape_area := no_geometry;
     shape_geom_type := no_geometry;
     LQL.sum_execute := sum_execute;
     jsonq_query := fun _ d => Ok d;
     set_order := PySet.slot_order |}.

(** Records whose [v] is a float, and three of them, the second with NaN
    between two that hold [1.0]. *)
Definition float_record (id : Z) (f : pyfloat) : value :=
  VDict [("id", VInt id); ("v", VFloat f)].

Definition nan_rows : list value :=
  [float_record 1 (FIntegral 1); float_record 2 FNaN; float_record 3 (FIntegral 1)].

(** Records whose [v] is itself a record. *)
Definition nested_dataset : list item :=
  [ {| row := VDict [("id", VInt 1); ("v", VDict [("w", VInt 5)])] |} ].

Definition nested_query : Query :=
  {| data := nested_dataset; limit := 10; klass := no_sibling; slug := Some "records" |}.

End Demo.

(* ------------------------------------------------------------------ *)
(** ** The specification's reading of the combine and retrieval steps *)

Module Spec.
Import LQL.

(** Specification 4.4: the first match-set seeds the overall set and each
    later one is intersected into it (AND) or united with it (OR). *)
Definition inter_all (match_sets : list (list nat)) : list nat :=
  match match_sets with
  | [] => []
  | first :: later => fold_left (fun acc m => filter (fun x => PySet.mem x m) acc) later first
  end.

Definition union_all (match_sets : list (list nat)) : list nat :=
  fold_left (fun acc m => nodup Nat.eq_dec (acc ++ m)) match_sets [].

(** No intersection on the way to the last filter is empty. *)
Fixpoint never_empty (acc : list nat) (later : list (list nat)) : Prop :=
  match later with
  | [] => True
  | m :: rest => acc <> [] /\ never_empty (filter (fun x => PySet.mem x m) acc) rest
  end.

(** Two collections of positions with the same members. *)
Definition same_members (a b : list nat) : Prop :=
  forall p, In p a <-> In p b.

(** The match-sets of all filters, each computed on its own over the whole
    dataset; [None] when some scan does not run to its end. *)
Fixpoint match_sets (E : Collaborators) (self : Query) (parameters : ParameterMap)
         (fs : list post_filter) : option (list (list nat)) :=
  match fs with
  | [] => Some []
  | f :: rest =>
      match filter_matches E self parameters f, match_sets E self parameters rest with
      | Val m, Some ms => Some (m :: ms)
      | _, _ => None
      end
  end.

(** A run of the filter loop under AND that ends with survivors although
    the intersection of the match-sets is empty. *)
Definition survivors_outside_intersection (E : Collaborators) (self : Query)
           (parameters : ParameterMap) : Prop :=
  exists d fs ms survivors,
    parse_parameters E parameters = Ok d /\
    join_type d = JOIN_TYPE_AND /\
    get_filter_functions_map E (filters d) = Ok fs /\
    match_sets E self parameters fs = Some ms /\
    inter_all ms = [] /\
    surviving E self parameters = Ok (Val survivors) /\
    survivors <> [].

(** A path segment that is looked up on the value, not one of the
    geometry accessors. *)
Definition looked_up (part : string) : Prop :=
  part <> "_length" /\ part <> "_area" /\ part <> "_type".

(** Specification 4.5: the payloads at the given positions, in the order
    given. *)
Definition rows_at (queryset : list item) (positions : list nat) : list value :=
  map (fun p => row (nth p queryset {| row := VNone |})) positions.

(** The surviving records in ascending position order. *)
Definition rows_in_dataset_order (queryset : list item) (positions : list nat) : list value :=
  rows_at queryset (PySet.ascending positions).

(** The rows filed under key [k] in a keyed row sequence, in order. *)
Definition members_with_key (k : key) (l : list (key * value)) : list value :=
  map snd (filter (fun x => key_eqb (fst x) k) l).

(** Keyed rows in ascending key order, and runs whose keys strictly
    ascend. *)
Definition key_le (x y : key * value) : Prop := key_leb (fst x) (fst y) = true.

Definition key_lt (g h : key * list value) : Prop := key_leb (fst h) (fst g) = false.

(** No key is smaller than the key before it. *)
Fixpoint ascending_run (l : list (key * value)) : bool :=
  match l with
  | x :: (y :: _) as rest => key_leb (fst x) (fst y) && ascending_run rest
  | _ => true
  end.

(** A row carries the group field. *)
Definition carries (group : string) (r : value) : Prop :=
  exists v, getitem r group = Ok v.

(** A row carries the group field with a value that can be a dictionary
    key. *)
Definition carries_key (group : string) (r : value) : Prop :=
  exists v k, getitem r group = Ok v /\ hash_key v = Some k.

(** A row carries the group field with a value that can be a dictionary
    key and that the comparison operators order: any such value but
    NaN. *)
Definition carries_ordered_key (group : string) (r : value) : Prop :=
  exists v k, getitem r group = Ok v /\ hash_key v = Some k /\ k <> KNaN.

(** The members of one group's class in a row sequence, in input order. *)
Definition rows_with_key (group : string) (k : key) (rows : list value) : list value :=
  filter (fun r => match getitem r group with
                   | Ok v => match hash_key v with
                             | Some k' => key_eqb k' k
                             | None => false
                             end
                   | Raise _ => false
                   end) rows.

(** A plain-filter parameter: its name does not start with the directive
    delimiter. *)
Definition plain (p : string * string) : bool :=
  negb (PyStr.startswith (fst p) LQL_DELIMITER).

(** An element of the [_aggregate] list that unpacks into alias and
    function. *)
Definition has_alias (element : string) : bool :=
  (List.length (PyStr.split element ":") =? 2)%nat.

(** An element whose function is one of the two the parser knows. *)
Definition recognised (element : string) : bool :=
  match PyStr.split element ":" with
  | [_; aggregate_string] =>
      PyStr.startswith aggregate_string "Count(" || PyStr.startswith aggregate_string "Sum("
  | _ => false
  end.

(** The row satisfies the filter: its field resolves to a value of which
    the predicate holds. *)
Definition satisfies (E : Collaborators) (self : Query) (parameters : ParameterMap)
           (pf : post_filter) (it : item) : bool :=
  match resolve_field E self parameters pf it with
  | Val v =>
      match evaluate E (operation_of pf) v with
      | Ok true => true
      | _ => false
      end
  | _ => false
  end.

(** The row neither raises nor redirects under the filter. *)
Definition scans (E : Collaborators) (self : Query) (parameters : ParameterMap)
           (pf : post_filter) (it : item) : Prop :=
  exists v b, resolve_field E self parameters pf it = Val v
              /\ evaluate E (operation_of pf) v = Ok b.

(** An exception the handler around the field resolution turns into a bad
    request, or one that already is a bad request. *)
Definition classified (e : exn) : Prop :=
  is_bad_request e = true \/ e = AttributeError \/ e = TypeError.

(** Collaborators whose failures the engine classifies: the coercion
    raises [IndexError] or a bad request, predicates do not raise, geometry
    and sibling datasets raise what the resolution handler catches, [Sum]
    and the projection raise bad requests (the projection also
    [ValueError]). *)
Record well_behaved (E : Collaborators) (self : Query) (parameters : ParameterMap) : Prop := {
  wb_parse_value : forall v e,
      parse_value E v = Raise e -> e = IndexError \/ is_bad_request e = true;
  wb_evaluate : forall op v e,
      evaluate E op v = Raise e -> is_bad_request e = true;
  wb_length : forall v e, shape_length E v = Raise e -> classified e;
  wb_area : forall v e, shape_area E v = Raise e -> classified e;
  wb_geom_type : forall v e, shape_geom_type E v = Raise e -> classified e;
  wb_sibling : forall seg source e,
      get_subclass (klass self) seg = Some source ->
      get_all source parameters = Raise e -> classified e;
  wb_sum : forall args rows e,
      sum_execute E args rows = Raise e -> is_bad_request e = true;
  wb_jsonq : forall fq d e,
      jsonq_query E fq d = Raise e ->
      is_bad_request e = true \/ exists m, e = ValueError m;
  wb_set_order : PySet.lawful (set_order E)
}.

(** The last aggregate of a list that carries the alias [n]. *)
Definition last_with_alias (n : string) (aggregates : list aggregate) : option aggregate :=
  find (fun a => name a =? n) (rev aggregates).

(** The operand list an aggregate function was built with. *)
Definition operands (f : aggregate_function) : list string :=
  match f with
  | Count args => args
  | Sum args => args
  end.

(** The character does not occur in the string. *)
Definition lacks (c : ascii) (s : string) : Prop :=
  ~ In c (list_ascii_of_string s).

(** What a call returned, if it returned. *)
Definition returned {A : Type} (r : result A) : option A :=
  match r with
  | Ok a => Some a
  | Raise _ => None
  end.

(** [per_key[k][n]] in the aggregates of one group. *)
Definition per_key_cell (per_key : list (key * list (string * value)))
           (k : key) (n : string) : option value :=
  match dict_get key_eqb k per_key with
  | Some cell => dict_get String.eqb n cell
  | None => None
  end.

(** [ga[group][k][n]] in the mapping of aggregates per group and key. *)
Definition aggregate_cell (ga : list (string * list (key * list (string * value))))
           (group : string) (k : key) (n : string) : option value :=
  match dict_get String.eqb group ga with
  | Some per_key => per_key_cell per_key k n
  | None => None
  end.

(** What the last aggregate under alias [n] returns on the rows filed
    under [group] and [k] in a grouping; [base] where there is no such
    aggregate or no such rows. *)
Definition expected_cell (E : Collaborators) (aggregates : list aggregate)
           (grouped : list (string * list (key * list value)))
           (group : string) (k : key) (n : string) (base : option value) : option value :=
  match dict_get String.eqb group grouped with
  | Some grouping =>
      match dict_get key_eqb k grouping with
      | Some rows =>
          match last_with_alias n aggregates with
          | Some a => returned (aggregate_execute E (function a) rows)
          | None => base
          end
      | None => base
      end
  | None => base
  end.

End Spec.

(* ------------------------------------------------------------------ *)
(** * Properties *)

Import LQL.
Unset Implicit Arguments.

(** ** Evaluations of the string methods *)

Example split_two : PyStr.split "age__lt" "__" = ["age"; "lt"].
Proof. reflexivity. Qed.
Example split_three : PyStr.split "a__b__c" "__" = ["a"; "b"; "c"].
Proof. reflexivity. Qed.
Example split_odd : PyStr.split "a___b" "__" = ["a"; "_b"].
Proof. reflexivity. Qed.
Example split_tail : PyStr.split "a__" "__" = ["a"; EmptyString].
Proof. reflexivity. Qed.
Example split_none : PyStr.split EmptyString "." = [EmptyString].
Proof. reflexivity. Qed.
Example strip_both : PyStr.strip "  a b " = "a b".
Proof. reflexivity. Qed.
Example slice_quoted : PyStr.slice_1_m1 "'t'" = "t".
Proof. reflexivity. Qed.
Example slice_short : PyStr.slice_1_m1 "t" = EmptyString.
Proof. reflexivity. Qed.
Example replace_count : PyStr.replace (PyStr.replace "Count(*)" "Count(" EmptyString) ")" EmptyString = "*".
Proof. reflexivity. Qed.
Example upper_or : PyStr.upper "oR" = "OR".
Proof. reflexivity. Qed.

(** ** Combining the match-sets *)

(** C1: under AND the surviving positions are the intersection of the
    filters' match-sets.  The code takes an empty [query_results] for "no
    filter seen yet" and seeds it again: with three filters matching rows
    0, 1 and 2 of the scenario dataset, in whichever order the parameter
    dictionary hands them out, a row survives although no row satisfies
    all three. *)
Theorem and_join_reseeds_after_empty :
  Forall (Spec.survivors_outside_intersection Demo.collaborators (Demo.query 10))
         Demo.disjoint_filters.
Proof.
  unfold Demo.disjoint_filters.
  repeat (apply Forall_cons;
    [ eexists; eexists; eexists; eexists;
      (split; [vm_compute; reflexivity|]); (split; [reflexivity|]);
      (split; [vm_compute; reflexivity|]); (split; [vm_compute; reflexivity|]);
      (split; [reflexivity|]); (split; [vm_compute; reflexivity|]); discriminate
    | ]).
  apply Forall_nil.
Qed.

(** With the third filter first the survivors are exactly its row. *)
Example and_join_two_filters :
  surviving Demo.collaborators (Demo.query 10) [("id", "9"); ("v", "5")] = Ok (Val [0; 2]).
Proof. reflexivity. Qed.

(** ** Retrieval: the row limit *)

(** C3: no more than [limit] rows are retrieved.  The branch for exactly
    one surviving position leaves the slice out: with [limit = 0] and the
    filter [v=7], which matches position 1 only, one row comes back. *)
Theorem single_survivor_ignores_limit :
  execute Demo.collaborators (Demo.query 0) [("v", "7")] = Ok (Rows [Demo.record 2 7])
  /\ get_data (Demo.query 0) Demo.dataset
       [{| field := "v"; filter_name := "equals"; filter_value := VInt 7 |}] [1]
     = Ok [Demo.record 2 7].
Proof. split; reflexivity. Qed.

(** The same for any dataset and any limit: one surviving position gives
    one row. *)
Lemma get_data_single (self : Query) (f : filter_spec) (fs : list filter_spec)
      (p : nat) (it : item) :
  nth_error (data self) p = Some it ->
  get_data self (data self) (f :: fs) [p] = Ok [row it].
Proof.
  intros H. unfold get_data. simpl. rewrite H. reflexivity.
Qed.

(** Every other branch does slice. *)
Lemma get_data_limited_unless_single (self : Query) (queryset : list item)
      (filters : list filter_spec) (query_results : PySet.pyset) (rows : list value) :
  List.length query_results <> 1 ->
  get_data self queryset filters query_results = Ok rows ->
  List.length rows <= limit self.
Proof.
  intros Hlen H. unfold get_data in H.
  destruct filters as [|f fs].
  - injection H as <-. rewrite length_map. apply firstn_le_length.
  - destruct query_results as [|p [|q l]].
    + injection H as <-. simpl. lia.
    + contradiction Hlen. reflexivity.
    + destruct (itemgetter_all (p :: q :: l) queryset) as [items|e]; [|discriminate H].
      injection H as <-. rewrite length_map. apply firstn_le_length.
Qed.

(** ** Aggregates and their aliases *)

(** C4, as the code has it: the alias loses its first and last character
    ([name.strip()[1:-1]]), so [t] written bare keys the result by the empty
    string, and written between quotes by [t]. *)
Theorem aggregate_alias_loses_both_ends (E : Collaborators) (limit : nat) (klass : Klass)
        (slug : option string) (Hlimit : 3 <= limit) :
  let self := {| data := Demo.dataset; limit := limit; klass := klass; slug := slug |} in
  execute E self [("_aggregate", "(t:Count(*))")]
  = Ok (Aggregates [(EmptyString, VInt 3)])
  /\ execute E self [("_aggregate", "('t':Count(*))")]
     = Ok (Aggregates [("t", VInt 3)])
  /\ execute E self [("_aggregate", "(t:Count(*))"); ("_group_by", "v")]
     = Ok (GroupAggregates [("v", [(KNum 5, [(EmptyString, VInt 2)]); (KNum 7, [(EmptyString, VInt 1)])])])
  /\ execute E self [("_group_by", "v"); ("_aggregate", "(t:Count(*))")]
     = Ok (GroupAggregates [("v", [(KNum 5, [(EmptyString, VInt 2)]); (KNum 7, [(EmptyString, VInt 1)])])]).
Proof.
  do 3 (destruct limit as [|limit]; [lia|]).
  destruct limit; repeat split; reflexivity.
Qed.

Lemma aggregate_alias_loses_both_ends_witness :
  execute Demo.collaborators (Demo.query 10) [("_aggregate", "(t:Count(*))")]
  = Ok (Aggregates [(EmptyString, VInt 3)]).
Proof.
  apply (aggregate_alias_loses_both_ends Demo.collaborators 10 Demo.no_sibling (Some "records")).
  lia.
Defined.

(** C4 as the specification words it fails: the result is not keyed by
    [t]. *)
Lemma bare_alias_is_not_the_key :
  ~ (forall E : Collaborators,
        execute E (Demo.query 10) [("_aggregate", "(t:Count(*))")] = Ok (Aggregates [("t", VInt 3)])
        /\ execute E (Demo.query 10) [("_aggregate", "(t:Count(*))"); ("_group_by", "v")]
           = Ok (GroupAggregates [("v", [(KNum 5, [("t", VInt 2)]); (KNum 7, [("t", VInt 1)])])])).
Proof.
  intros H. destruct (H Demo.collaborators) as [H1 _].
  vm_compute in H1. discriminate H1.
Qed.

(** ** Faults that are not bad requests *)

(** C6: every failure of [execute] is a bad request.  [process_groups]
    reads the group field with [itemgetter] outside any handler: grouping
    the scenario dataset by a field no row carries lets [KeyError]
    through. *)
Theorem group_by_absent_field_key_error (E : Collaborators) :
  execute E (Demo.query 10) [("_group_by", "w")] = Raise (KeyError "w")
  /\ is_bad_request (KeyError "w") = false.
Proof. split; reflexivity. Qed.

Lemma parse_single_plain (E : Collaborators) (p v : string) :
  PyStr.startswith p LQL_DELIMITER = false ->
  parse_parameters E [(p, v)] = parse_parameter E no_directives p v.
Proof.
  intros _. unfold parse_parameters. simpl.
  destruct (parse_parameter E no_directives p v); reflexivity.
Qed.

(** [parse_parameters] catches [IndexError] only, so any other exception
    of the value coercion leaves [execute] as it is. *)
Lemma coercion_fault_propagates (E : Collaborators) (self : Query) (p v : string) (e : exn) :
  PyStr.startswith p LQL_DELIMITER = false ->
  parse_value E v = Raise e ->
  e <> IndexError ->
  execute E self [(p, v)] = Raise e.
Proof.
  intros Hp Hv He. unfold execute.
  rewrite (parse_single_plain E p v Hp).
  unfold parse_parameter. rewrite Hp, Hv. simpl.
  destruct e; try reflexivity. contradiction.
Qed.

(** ** Parsing plain filters *)

Lemma split_go_without_separator (sep s : string) (cur : list ascii) :
  PyStr.contains sep s = false ->
  List.length (PyStr.split_go sep s 0 cur) = 1.
Proof.
  revert cur. induction s as [|c s IH]; intros cur H.
  - reflexivity.
  - cbn [PyStr.contains] in H. apply orb_false_iff in H. destruct H as [Hp Hc].
    cbn [PyStr.split_go]. rewrite Hp. apply IH. exact Hc.
Qed.

Lemma split_pieces_contains (s sep : string) :
  1 < List.length (PyStr.split s sep) -> PyStr.contains sep s = true.
Proof.
  intros H. destruct (PyStr.contains sep s) eqn:Hc; [reflexivity|].
  unfold PyStr.split in H.
  rewrite (split_go_without_separator sep s [] Hc) in H. lia.
Qed.

(** Whether a plain parameter is accepted depends on its own name only.
    A name with one operator separator adds its filter spec to whatever
    filters were collected before, the same field included; a name with
    more than one separator is what is rejected. *)
Theorem one_operator_per_parameter_name (E : Collaborators) (st : directives)
        (p v : string) (x : value)
        (Hplain : PyStr.startswith p LQL_DELIMITER = false)
        (Hvalue : parse_value E v = Ok x) :
  (forall f o, PyStr.split p DOUBLE_DELIMITER = [f; o] ->
     parse_parameter E st p v
     = Ok (append_filter st {| field := f; filter_name := o; filter_value := x |}))
  /\ (2 < List.length (PyStr.split p DOUBLE_DELIMITER) ->
      parse_parameter E st p v = Raise (Http400 "Only one filter per field is supported")).
Proof.
  split.
  - intros f o Hs. unfold parse_parameter. rewrite Hplain, Hvalue. simpl.
    rewrite split_pieces_contains by (rewrite Hs; simpl; lia).
    simpl. rewrite Hs. reflexivity.
  - intros Hlen. unfold parse_parameter. rewrite Hplain, Hvalue. simpl.
    rewrite split_pieces_contains by lia. simpl.
    destruct (PyStr.split p DOUBLE_DELIMITER) as [|a [|b [|c l]]]; simpl in Hlen; try lia.
    reflexivity.
Qed.

Lemma one_operator_per_parameter_name_witness :
  parse_parameter Demo.collaborators
    (append_filter no_directives {| field := "age"; filter_name := "gt"; filter_value := VInt 2 |})
    "age__lt" "1"
  = Ok (append_filter
          (append_filter no_directives {| field := "age"; filter_name := "gt"; filter_value := VInt 2 |})
          {| field := "age"; filter_name := "lt"; filter_value := VInt 1 |}).
Proof.
  apply (proj1 (@one_operator_per_parameter_name Demo.collaborators
                  (append_filter no_directives
                     {| field := "age"; filter_name := "gt"; filter_value := VInt 2 |})
                  "age__lt" "1" (VInt 1) eq_refl eq_refl)).
  reflexivity.
Defined.

(** Two parameters on one field are not rejected for their operators
    being different. *)
Lemma same_field_two_operators_accepted :
  ~ (forall (E : Collaborators) (f o1 o2 v1 v2 : string),
        o1 <> o2 ->
        exists e, parse_parameters E [(f ++ "__" ++ o1, v1); (f ++ "__" ++ o2, v2)] = Raise e).
Proof.
  intros H.
  destruct (H Demo.collaborators "age" "lt" "gt" "1" "2") as [e He]; [discriminate|].
  vm_compute in He. discriminate He.
Qed.

(** C5: the parameters [age__lt=1] and [age__gt=2] are not rejected.  In
    whichever order the parameter map hands them out, parsing returns a
    filter list that holds two filter specs for the field [age], one per
    operator. *)
Theorem two_operators_on_one_field_parsed :
  parse_parameters Demo.collaborators [("age__lt", "1"); ("age__gt", "2")]
  = Ok (append_filter
          (append_filter no_directives {| field := "age"; filter_name := "lt"; filter_value := VInt 1 |})
          {| field := "age"; filter_name := "gt"; filter_value := VInt 2 |})
  /\ parse_parameters Demo.collaborators [("age__gt", "2"); ("age__lt", "1")]
     = Ok (append_filter
             (append_filter no_directives {| field := "age"; filter_name := "gt"; filter_value := VInt 2 |})
             {| field := "age"; filter_name := "lt"; filter_value := VInt 1 |}).
Proof. split; reflexivity. Qed.

(** ** The join directive *)

Lemma upper_ascii_O (c : ascii) :
  PyStr.upper_ascii c = "O"%char -> c = "O"%char \/ c = "o"%char.
Proof.
  destruct c as [[] [] [] [] [] [] [] []]; vm_compute; intros H;
    try discriminate H; auto.
Qed.

Lemma upper_ascii_R (c : ascii) :
  PyStr.upper_ascii c = "R"%char -> c = "R"%char \/ c = "r"%char.
Proof.
  destruct c as [[] [] [] [] [] [] [] []]; vm_compute; intros H;
    try discriminate H; auto.
Qed.

(** "Case-insensitively equal to OR" spelled out. *)
Lemma upper_is_OR (v : string) :
  PyStr.upper v = "OR" <-> v = "OR" \/ v = "Or" \/ v = "oR" \/ v = "or".
Proof.
  split.
  - destruct v as [|c1 [|c2 [|c3 v]]]; simpl; intros H; try discriminate H.
    injection H as H1 H2.
    destruct (upper_ascii_O c1 H1), (upper_ascii_R c2 H2); subst; auto.
  - intros [-> | [-> | [-> | ->]]]; reflexivity.
Qed.

Lemma parse_parameter_join_type (E : Collaborators) (st st' : directives) (p v : string) :
  parse_parameter E st p v = Ok st' ->
  join_type st' = if (p =? "_join") && (PyStr.upper v =? "OR")
                  then JOIN_TYPE_OR else join_type st.
Proof.
  unfold parse_parameter.
  change (LQL_DELIMITER ++ "join") with "_join".
  destruct (PyStr.startswith p LQL_DELIMITER) eqn:Hs; cbn [negb].
  - destruct (p =? "_join") eqn:Hj; cbn [andb].
    + destruct (PyStr.upper v =? "OR"); intros [= <-]; reflexivity.
    + destruct (p =? LQL_DELIMITER ++ "fields"); [intros [= <-]; reflexivity|].
      destruct (p =? LQL_DELIMITER ++ "group_by"); [intros [= <-]; reflexivity|].
      destruct (p =? LQL_DELIMITER ++ "aggregate"); [|intros [= <-]; reflexivity].
      destruct (parse_aggregates _ _); simpl; intros [= <-]; reflexivity.
  - destruct (p =? "_join") eqn:Hj.
    { apply String.eqb_eq in Hj. subst p. discriminate Hs. }
    cbn [andb].
    destruct (parse_value E v) as [x|e]; [|destruct e; simpl; discriminate].
    simpl.
    destruct (negb (PyStr.contains DOUBLE_DELIMITER p)); [intros [= <-]; reflexivity|].
    destruct (PyStr.split p DOUBLE_DELIMITER) as [|a [|b [|c l]]]; try discriminate.
    intros [= <-]; reflexivity.
Qed.

Lemma parse_loop_join_type (E : Collaborators) (items : ParameterMap) :
  forall st st', parse_loop E st items = Ok st' ->
    (join_type st' = JOIN_TYPE_OR <->
     join_type st = JOIN_TYPE_OR \/ exists v, In ("_join", v) items /\ PyStr.upper v = "OR").
Proof.
  induction items as [|[p v] items IH]; intros st st' H.
  - injection H as <-. split; [auto|]. intros [H|[v [[] _]]]; exact H.
  - simpl in H. destruct (parse_parameter E st p v) as [st1|e] eqn:Hp; [|discriminate H].
    simpl in H. rewrite (IH _ _ H). rewrite (parse_parameter_join_type E st st1 p v Hp).
    destruct (p =? "_join") eqn:Hj; cbn [andb].
    + apply String.eqb_eq in Hj. subst p.
      destruct (PyStr.upper v =? "OR") eqn:Hu.
      * apply String.eqb_eq in Hu. split; [|auto].
        intros _. right. exists v. split; [left; reflexivity|exact Hu].
      * apply String.eqb_neq in Hu. split.
        -- intros [H1|[w [Hin Hw]]]; [auto|]. right. exists w. split; [right; exact Hin|exact Hw].
        -- intros [H1|[w [[Heq|Hin] Hw]]]; [auto| |].
           ++ injection Heq as <-. contradiction.
           ++ right. exists w. auto.
    + apply String.eqb_neq in Hj. split.
      * intros [H1|[w [Hin Hw]]]; [auto|]. right. exists w. split; [right; exact Hin|exact Hw].
      * intros [H1|[w [[Heq|Hin] Hw]]]; [auto| |].
        -- injection Heq as Heq _. congruence.
        -- right. exists w. auto.
Qed.

(** C8: the [_join] entry never raises; it switches the join type to OR
    exactly when its value is OR in some mix of cases, and a parameter map
    that parses has join type OR exactly when it holds such an entry, AND
    otherwise (other values as well as no entry at all). *)
Theorem join_directive (E : Collaborators) :
  (forall st v,
      parse_parameter E st "_join" v
      = Ok (if PyStr.upper v =? "OR" then set_join_type st JOIN_TYPE_OR else st))
  /\ (forall parameters d,
         parse_parameters E parameters = Ok d ->
         (join_type d = JOIN_TYPE_OR <->
          exists v, In ("_join", v) parameters /\ (v = "OR" \/ v = "Or" \/ v = "oR" \/ v = "or")))
  /\ (forall parameters d,
         parse_parameters E parameters = Ok d ->
         (forall v, In ("_join", v) parameters -> PyStr.upper v <> "OR") ->
         join_type d = JOIN_TYPE_AND).
Proof.
  split; [|split].
  - intros st v. unfold parse_parameter. cbn.
    destruct (PyStr.upper v =? "OR"); reflexivity.
  - intros parameters d H. unfold parse_parameters in H.
    rewrite (parse_loop_join_type E parameters _ _ H). simpl. split.
    + intros [H1|[v [Hin Hv]]]; [discriminate H1|].
      exists v. split; [exact Hin|]. apply upper_is_OR. exact Hv.
    + intros [v [Hin Hv]]. right. exists v. split; [exact Hin|]. apply upper_is_OR. exact Hv.
  - intros parameters d H Hno. unfold parse_parameters in H.
    destruct (join_type d) eqn:Hd; [reflexivity|].
    apply (parse_loop_join_type E parameters _ _ H) in Hd.
    destruct Hd as [H1|[v [Hin Hv]]]; [discriminate H1|].
    exfalso. exact (Hno v Hin Hv).
Qed.

Lemma join_directive_witness :
  join_type (set_join_type no_directives JOIN_TYPE_OR) = JOIN_TYPE_OR <->
  exists v, In ("_join", v) [("_join", "oR")] /\ (v = "OR" \/ v = "Or" \/ v = "oR" \/ v = "or").
Proof.
  apply (proj1 (proj2 (join_directive Demo.collaborators)) [("_join", "oR")]
           (set_join_type no_directives JOIN_TYPE_OR)).
  reflexivity.
Defined.

(** ** Field resolution: the first segment *)

Lemma resolve_part_looked_up (E : Collaborators) (self : Query) (parameters : ParameterMap)
      (field : string) (index : nat) (part : string) (val : value) :
  Spec.looked_up part ->
  resolve_part E self parameters field index part val
  = match getitem val part with
    | Ok v => Val v
    | Raise (KeyError _) => on_key_error self parameters field index part val
    | Raise e => Throw e
    end.
Proof.
  intros (H1 & H2 & H3). unfold resolve_part.
  apply String.eqb_neq in H1, H2, H3. rewrite H1, H2, H3. reflexivity.
Qed.

Lemma getitem_missing (entries : list (string * value)) (part : string) :
  dict_get String.eqb part entries = None ->
  getitem (VDict entries) part = Raise (KeyError part).
Proof. intros H. simpl. rewrite H. reflexivity. Qed.

(** The branch for the instance's own slug, on an instance that was given
    a [slug] attribute after it was built: when the first segment is that
    slug and the payload has no such key, the failed lookup is dropped;
    this turn of the loop goes on with the payload itself, nothing is
    raised and no sibling is asked. *)
Theorem own_slug_lookup_failure_swallowed (E : Collaborators) (self : Query)
        (parameters : ParameterMap) (post_filter : post_filter) (item : item)
        (own : string) (rest : list string) (entries : list (string * value))
        (Hslug : slug self = Some own)
        (Hpart : Spec.looked_up own)
        (Hpath : PyStr.split (field (spec post_filter)) "." = own :: rest)
        (Hrow : row item = VDict entries)
        (Hmissing : dict_get String.eqb own entries = None) :
  resolve_part E self parameters (field (spec post_filter)) 0 own (row item) = Val (row item)
  /\ resolve_field E self parameters post_filter item
     = invalid_element (field (spec post_filter))
         (resolve_parts E self parameters (field (spec post_filter)) 1 rest (row item))
  /\ (rest = [] -> resolve_field E self parameters post_filter item = Val (row item)).
Proof.
  assert (Hstep : resolve_part E self parameters (field (spec post_filter)) 0 own (row item)
                  = Val (row item)).
  { rewrite resolve_part_looked_up by exact Hpart.
    rewrite Hrow, (getitem_missing entries own Hmissing).
    unfold on_key_error. simpl. rewrite Hslug, String.eqb_refl. reflexivity. }
  assert (Hfield : resolve_field E self parameters post_filter item
                   = invalid_element (field (spec post_filter))
                       (resolve_parts E self parameters (field (spec post_filter)) 1 rest (row item))).
  { unfold resolve_field. rewrite Hpath. cbn [resolve_parts]. rewrite Hstep. reflexivity. }
  split; [exact Hstep|]. split; [exact Hfield|].
  intros ->. rewrite Hfield. reflexivity.
Qed.

Lemma own_slug_lookup_failure_swallowed_witness :
  resolve_field Demo.collaborators (Demo.query 10) [("records", "5")]
    (Demo.equals_filter "records" (VInt 5)) {| row := Demo.record 1 5 |}
  = Val (Demo.record 1 5).
Proof.
  refine (proj2 (proj2 (own_slug_lookup_failure_swallowed Demo.collaborators (Demo.query 10)
            [("records", "5")] (Demo.equals_filter "records" (VInt 5))
            {| row := Demo.record 1 5 |} "records" []
            [("id", VInt 1); ("v", VInt 5)] eq_refl _ eq_refl eq_refl eq_refl)) eq_refl).
  repeat split; discriminate.
Defined.

(** An instance that was given no [slug] cannot reach either branch: the
    read of [self.slug] raises [AttributeError], which the enclosing
    handler reports as an invalid element. *)
Lemma missing_slug_invalid_element (E : Collaborators) (self : Query)
      (parameters : ParameterMap) (post_filter : post_filter) (item : item)
      (seg : string) (rest : list string) (entries : list (string * value)) :
  slug self = None ->
  Spec.looked_up seg ->
  PyStr.split (field (spec post_filter)) "." = seg :: rest ->
  row item = VDict entries ->
  dict_get String.eqb seg entries = None ->
  resolve_field E self parameters post_filter item
  = Throw (Http400 ("Invalid element: " ++ field (spec post_filter))).
Proof.
  intros Hslug Hpart Hpath Hrow Hmissing.
  unfold resolve_field. rewrite Hpath. cbn [resolve_parts].
  rewrite resolve_part_looked_up by exact Hpart.
  rewrite Hrow, (getitem_missing entries seg Hmissing).
  unfold on_key_error. simpl. rewrite Hslug. reflexivity.
Qed.

Lemma scan_rows_app (E : Collaborators) (self : Query) (parameters : ParameterMap)
      (pf : post_filter) (before after : list item) :
  forall row_id filter_results,
    scan_rows E self parameters pf row_id (before ++ after)%list filter_results
    = match scan_rows E self parameters pf row_id before filter_results with
      | Val matched => scan_rows E self parameters pf (row_id + List.length before) after matched
      | o => o
      end.
Proof.
  induction before as [|it before IH]; intros row_id filter_results.
  - simpl. rewrite Nat.add_0_r. reflexivity.
  - simpl. destruct (resolve_field E self parameters pf it); try reflexivity.
    replace (row_id + S (List.length before)) with (S row_id + List.length before) by lia.
    destruct (evaluate E (operation_of pf) a) as [[|]|e]; try reflexivity; apply IH.
Qed.

Lemma run_filters_app (E : Collaborators) (self : Query) (parameters : ParameterMap)
      (j : JoinType) (pre post : list post_filter) :
  forall query_results,
    run_filters E self parameters j (pre ++ post)%list query_results
    = match run_filters E self parameters j pre query_results with
      | Val survivors => run_filters E self parameters j post survivors
      | o => o
      end.
Proof.
  induction pre as [|pf pre IH]; intros query_results.
  - reflexivity.
  - simpl. destruct (filter_matches E self parameters pf); try reflexivity. apply IH.
Qed.

(** What the loops do with a row whose resolution leaves the pipeline. *)
Lemma run_filters_leaves (E : Collaborators) (self : Query) (parameters : ParameterMap)
      (j : JoinType) (pre post : list post_filter) (pf : post_filter)
      (before after : list item) (it : item) (survivors : PySet.pyset) (matched : list nat) :
  run_filters E self parameters j pre [] = Val survivors ->
  data self = (before ++ it :: after)%list ->
  scan_rows E self parameters pf 0 before [] = Val matched ->
  run_filters E self parameters j (pre ++ pf :: post)%list []
  = match resolve_field E self parameters pf it with
    | Val v =>
        match filter_matches E self parameters pf with
        | Val filter_results =>
            run_filters E self parameters j post (combine E j survivors filter_results)
        | Return d => Return d
        | Throw e => Throw e
        end
    | Return d => Return d
    | Throw e => Throw e
    end.
Proof.
  intros Hpre Hdata Hscan.
  rewrite run_filters_app, Hpre. cbn [run_filters].
  destruct (resolve_field E self parameters pf it) eqn:Hres; try reflexivity;
    unfold filter_matches; rewrite Hdata, scan_rows_app, Hscan; cbn [scan_rows];
    rewrite Hres; reflexivity.
Qed.

(** The branch for a sibling's slug, on an instance that was given a
    [slug] attribute after it was built: a first segment that is no key of
    a row's payload and is not that slug is taken for the slug of a
    sibling dataset.  At the first row where that happens (the filters
    before and the rows before ran through), [execute] returns what the
    sibling's [get_all] returns for the same parameter map, or fails with
    the unknown-source error naming the segment when there is no such
    sibling. *)
Theorem unknown_first_segment_redirects (E : Collaborators) (self : Query)
        (parameters : ParameterMap) (d : directives)
        (pre post : list post_filter) (pf : post_filter)
        (before after : list item) (it : item)
        (survivors : PySet.pyset) (matched : list nat)
        (seg own : string) (rest : list string) (entries : list (string * value))
        (Hparse : parse_parameters E parameters = Ok d)
        (Hcompile : get_filter_functions_map E (filters d) = Ok (pre ++ pf :: post)%list)
        (Hpre : run_filters E self parameters (join_type d) pre [] = Val survivors)
        (Hdata : data self = (before ++ it :: after)%list)
        (Hscan : scan_rows E self parameters pf 0 before [] = Val matched)
        (Hpath : PyStr.split (field (spec pf)) "." = seg :: rest)
        (Hpart : Spec.looked_up seg)
        (Hrow : row it = VDict entries)
        (Hmissing : dict_get String.eqb seg entries = None)
        (Hslug : slug self = Some own)
        (Hother : seg <> own) :
  (forall source r,
      get_subclass (klass self) seg = Some source ->
      get_all source parameters = Ok r ->
      execute E self parameters = Ok r)
  /\ (get_subclass (klass self) seg = None ->
      execute E self parameters = Raise (Http400 ("Unknown source: " ++ seg))).
Proof.
  assert (Hres : resolve_field E self parameters pf it
                 = invalid_element (field (spec pf))
                     match get_subclass (klass self) seg with
                     | None => Throw (Http400 ("Unknown source: " ++ seg))
                     | Some source =>
                         match get_all source parameters with
                         | Ok r => Return r
                         | Raise e => Throw e
                         end
                     end).
  { unfold resolve_field. rewrite Hpath. cbn [resolve_parts].
    rewrite resolve_part_looked_up by exact Hpart.
    rewrite Hrow, (getitem_missing entries seg Hmissing).
    unfold on_key_error. simpl. rewrite Hslug.
    apply String.eqb_neq in Hother. rewrite Hother. simpl.
    destruct (get_subclass (klass self) seg) as [source|]; [|reflexivity].
    destruct (get_all source parameters); reflexivity. }
  assert (Hrun := run_filters_leaves E self parameters (join_type d) pre post pf
                    before after it survivors matched Hpre Hdata Hscan).
  split.
  - intros source r Hfound Hall. rewrite Hfound, Hall in Hres. simpl in Hres.
    rewrite Hres in Hrun. unfold execute. rewrite Hparse. simpl.
    rewrite Hcompile. simpl. rewrite Hrun. reflexivity.
  - intros Hnone. rewrite Hnone in Hres. simpl in Hres.
    rewrite Hres in Hrun. unfold execute. rewrite Hparse. simpl.
    rewrite Hcompile. simpl. rewrite Hrun. reflexivity.
Qed.

Lemma unknown_first_segment_redirects_witness :
  execute Demo.collaborators (Demo.federated_query 10) [("other", "5")]
  = Ok (Rows [VStr "row of the sibling"])
  /\ execute Demo.collaborators (Demo.federated_query 10) [("nowhere", "5")]
     = Raise (Http400 "Unknown source: nowhere").
Proof.
  split.
  - refine (proj1 (unknown_first_segment_redirects Demo.collaborators (Demo.federated_query 10)
              [("other", "5")] _ [] [] (Demo.equals_filter "other" (VInt 5))
              [] _ _ [] [] "other" "records" []
              [("id", VInt 1); ("v", VInt 5)]
              eq_refl eq_refl eq_refl eq_refl eq_refl eq_refl _ eq_refl eq_refl eq_refl _)
              Demo.sibling _ eq_refl eq_refl).
    + repeat split; discriminate.
    + discriminate.
  - refine (proj2 (unknown_first_segment_redirects Demo.collaborators (Demo.federated_query 10)
              [("nowhere", "5")] _ [] [] (Demo.equals_filter "nowhere" (VInt 5))
              [] _ _ [] [] "nowhere" "records" []
              [("id", VInt 1); ("v", VInt 5)]
              eq_refl eq_refl eq_refl eq_refl eq_refl eq_refl _ eq_refl eq_refl eq_refl _)
              eq_refl).
    + repeat split; discriminate.
    + discriminate.
Defined.

(** On the instance [__init__] builds, the first row whose payload lacks
    the first segment ends the query with the invalid-element error,
    whatever the segment and whatever siblings are registered: the read
    of [self.slug] comes before both branches. *)
Lemma constructed_query_invalid_element (E : Collaborators)
      (queryset : list item) (row_limit : nat) (registry : Klass)
      (parameters : ParameterMap) (d : directives)
      (pre post : list post_filter) (pf : post_filter)
      (before after : list item) (it : item)
      (survivors : PySet.pyset) (matched : list nat)
      (seg : string) (rest : list string) (entries : list (string * value)) :
  parse_parameters E parameters = Ok d ->
  get_filter_functions_map E (filters d) = Ok (pre ++ pf :: post)%list ->
  run_filters E (Query_init queryset row_limit registry) parameters (join_type d) pre []
  = Val survivors ->
  queryset = (before ++ it :: after)%list ->
  scan_rows E (Query_init queryset row_limit registry) parameters pf 0 before [] = Val matched ->
  PyStr.split (field (spec pf)) "." = seg :: rest ->
  Spec.looked_up seg ->
  row it = VDict entries ->
  dict_get String.eqb seg entries = None ->
  execute E (Query_init queryset row_limit registry) parameters
  = Raise (Http400 ("Invalid element: " ++ field (spec pf))).
Proof.
  intros Hparse Hcompile Hpre Hdata Hscan Hpath Hpart Hrow Hmissing.
  assert (Hrun := run_filters_leaves E (Query_init queryset row_limit registry) parameters
                    (join_type d) pre post pf before after it survivors matched
                    Hpre Hdata Hscan).
  rewrite (missing_slug_invalid_element E (Query_init queryset row_limit registry) parameters
             pf it seg rest entries eq_refl Hpart Hpath Hrow Hmissing) in Hrun.
  unfold execute. rewrite Hparse. simpl. rewrite Hcompile. simpl. rewrite Hrun. reflexivity.
Qed.

(** C7: on the instance [__init__] builds, a first segment that is no key
    of the payload neither redirects the query nor is reported as an
    unknown source.  With a sibling registered under [other], the filter
    [other=5] ends in the invalid-element error instead of the sibling's
    result, and so does the filter [nowhere=5], under whose first segment
    nothing is registered. *)
Theorem first_segment_lookup_never_redirects :
  get_subclass Demo.one_sibling "other" = Some Demo.sibling
  /\ execute Demo.collaborators (Query_init Demo.dataset 10 Demo.one_sibling) [("other", "5")]
     = Raise (Http400 "Invalid element: other")
  /\ get_subclass Demo.one_sibling "nowhere" = None
  /\ execute Demo.collaborators (Query_init Demo.dataset 10 Demo.one_sibling) [("nowhere", "5")]
     = Raise (Http400 "Invalid element: nowhere").
Proof. repeat split. Qed.

(** C10: on the instance [__init__] builds for the dataset registered as
    [records], a filter whose first segment is [records], which is no key
    of the payloads, is not passed over: the failed lookup ends the query
    with the invalid-element error, for the path of that one segment and
    for the path [records.v] alike. *)
Theorem own_slug_lookup_failure_reported :
  execute Demo.collaborators (Query_init Demo.dataset 10 Demo.no_sibling) [("records", "5")]
  = Raise (Http400 "Invalid element: records")
  /\ execute Demo.collaborators (Query_init Demo.dataset 10 Demo.no_sibling) [("records.v", "5")]
     = Raise (Http400 "Invalid element: records.v").
Proof. split; reflexivity. Qed.

(** ** Sets of positions *)

Lemma insert_slot_perm (x : nat) (l : list nat) : Permutation (PySet.insert_slot x l) (x :: l).
Proof.
  induction l as [|y l IH]; cbn [PySet.insert_slot].
  - apply Permutation_refl.
  - destruct (x mod 8 <=? y mod 8)%nat.
    + apply Permutation_refl.
    + apply perm_trans with (y :: x :: l); [apply perm_skip, IH | apply perm_swap].
Qed.

Lemma slot_order_lawful : PySet.lawful PySet.slot_order.
Proof.
  intros l. unfold PySet.slot_order. induction l as [|x l IH]; cbn [fold_right].
  - apply perm_nil.
  - apply perm_trans with (x :: fold_right PySet.insert_slot [] l);
      [apply insert_slot_perm | apply perm_skip, IH].
Qed.

Lemma insert_asc_perm (x : nat) (l : list nat) : Permutation (PySet.insert_asc x l) (x :: l).
Proof.
  induction l as [|y l IH]; simpl.
  - apply Permutation_refl.
  - destruct (x <=? y)%nat.
    + apply Permutation_refl.
    + apply perm_trans with (y :: x :: l); [apply perm_skip, IH | apply perm_swap].
Qed.

Lemma ascending_lawful : PySet.lawful PySet.ascending.
Proof.
  intros l. induction l as [|x l IH]; simpl.
  - apply perm_nil.
  - apply perm_trans with (x :: PySet.ascending l);
      [apply insert_asc_perm | apply perm_skip, IH].
Qed.

Lemma mem_In (x : nat) (s : list nat) : PySet.mem x s = true <-> In x s.
Proof.
  unfold PySet.mem. rewrite existsb_exists. split.
  - intros [y [Hin Heq]]. apply Nat.eqb_eq in Heq. subst. exact Hin.
  - intros Hin. exists x. split; [exact Hin | apply Nat.eqb_refl].
Qed.

Section Lawful.
Variable order : list nat -> list nat.
Hypothesis Hlawful : PySet.lawful order.

Lemma order_In (l : list nat) (p : nat) : In p (order l) <-> In p l.
Proof.
  split; apply Permutation_in; [apply Hlawful | apply Permutation_sym, Hlawful].
Qed.

Lemma order_NoDup (l : list nat) : NoDup l -> NoDup (order l).
Proof.
  intros H. apply Permutation_NoDup with l; [apply Permutation_sym, Hlawful | exact H].
Qed.

Lemma of_list_In (l : list nat) (p : nat) : In p (PySet.of_list order l) <-> In p l.
Proof. unfold PySet.of_list. rewrite order_In. apply nodup_In. Qed.

Lemma inter_In (a b : list nat) (p : nat) :
  In p (PySet.inter order a b) <-> In p a /\ In p b.
Proof.
  unfold PySet.inter. rewrite order_In, filter_In, mem_In. reflexivity.
Qed.

Lemma union_In (a b : list nat) (p : nat) :
  In p (PySet.union order a b) <-> In p a \/ In p b.
Proof.
  unfold PySet.union. rewrite order_In, nodup_In. apply in_app_iff.
Qed.

Lemma of_list_NoDup (l : list nat) : NoDup (PySet.of_list order l).
Proof. apply order_NoDup, NoDup_nodup. Qed.

Lemma inter_NoDup (a b : list nat) : NoDup a -> NoDup (PySet.inter order a b).
Proof. intros H. apply order_NoDup, NoDup_filter, H. Qed.

Lemma union_NoDup (a b : list nat) : NoDup (PySet.union order a b).
Proof. apply order_NoDup, NoDup_nodup. Qed.
End Lawful.

(** The positions a scan collects are positions it walked over. *)
Lemma scan_rows_range (E : Collaborators) (self : Query) (parameters : ParameterMap)
      (pf : post_filter) (items : list item) :
  forall row_id filter_results matched,
    scan_rows E self parameters pf row_id items filter_results = Val matched ->
    forall p, In p matched ->
      In p filter_results \/ (row_id <= p < row_id + List.length items).
Proof.
  induction items as [|it items IH]; intros row_id acc matched H p Hin.
  - injection H as <-. left. exact Hin.
  - simpl in H. destruct (resolve_field E self parameters pf it) as [v| |]; try discriminate H.
    destruct (evaluate E (operation_of pf) v) as [[|]|e]; try discriminate H.
    + destruct (IH _ _ _ H p Hin) as [Hacc|Hr].
      * apply in_app_iff in Hacc. destruct Hacc as [Hacc|[<-|[]]].
        -- left. exact Hacc.
        -- right. simpl. lia.
      * right. simpl. lia.
    + destruct (IH _ _ _ H p Hin) as [Hacc|Hr]; [left; exact Hacc | right; simpl; lia].
Qed.

Lemma filter_matches_range (E : Collaborators) (self : Query) (parameters : ParameterMap)
      (pf : post_filter) (matched : list nat) :
  filter_matches E self parameters pf = Val matched ->
  forall p, In p matched -> p < List.length (data self).
Proof.
  intros H p Hin.
  destruct (scan_rows_range E self parameters pf (data self) 0 [] matched H p Hin) as [[]|Hr].
  lia.
Qed.

(** Whatever the join type, the survivors are distinct positions of the
    dataset. *)
Lemma run_filters_positions (E : Collaborators) (self : Query) (parameters : ParameterMap)
      (j : JoinType) (Hlawful : PySet.lawful (set_order E)) (fs : list post_filter) :
  forall query_results survivors,
    run_filters E self parameters j fs query_results = Val survivors ->
    NoDup query_results ->
    (forall p, In p query_results -> p < List.length (data self)) ->
    NoDup survivors /\ (forall p, In p survivors -> p < List.length (data self)).
Proof.
  induction fs as [|pf fs IH]; intros qr survivors H Hnd Hrange.
  - injection H as <-. split; assumption.
  - simpl in H. destruct (filter_matches E self parameters pf) as [m| |] eqn:Hm; try discriminate H.
    apply (IH _ _ H).
    + unfold combine. destruct qr as [|q qr]; [apply of_list_NoDup, Hlawful|].
      destruct j; [apply inter_NoDup; assumption | apply union_NoDup, Hlawful].
    + intros p Hp. unfold combine in Hp. destruct qr as [|q qr].
      * apply (proj1 (of_list_In _ Hlawful _ _)) in Hp. exact (filter_matches_range E self parameters pf m Hm p Hp).
      * destruct j.
        -- apply (proj1 (inter_In _ Hlawful _ _ _)) in Hp. apply Hrange, Hp.
        -- apply (proj1 (union_In _ Hlawful _ _ _)) in Hp. destruct Hp as [Hp|Hp]; [apply Hrange, Hp|].
           apply (proj1 (of_list_In _ Hlawful _ _)) in Hp.
           exact (filter_matches_range E self parameters pf m Hm p Hp).
Qed.

(** ** Retrieval: the order of the rows *)

Lemma itemgetter_all_in_range (queryset : list item) (positions : list nat) :
  (forall p, In p positions -> p < List.length queryset) ->
  itemgetter_all positions queryset
  = Ok (map (fun p => nth p queryset {| row := VNone |}) positions).
Proof.
  induction positions as [|p positions IH]; intros H.
  - reflexivity.
  - simpl. rewrite (nth_error_nth' queryset {| row := VNone |}) by (apply H; left; reflexivity).
    rewrite IH by (intros q Hq; apply H; right; exact Hq). reflexivity.
Qed.

Lemma get_data_rows_at (self : Query) (f : filter_spec) (fs : list filter_spec)
      (query_results : PySet.pyset) :
  (forall p, In p query_results -> p < List.length (data self)) ->
  get_data self (data self) (f :: fs) query_results
  = Ok (Spec.rows_at (data self)
          (if (List.length query_results =? 1)%nat then query_results
           else firstn (limit self) query_results)).
Proof.
  intros H. unfold get_data, Spec.rows_at.
  destruct query_results as [|p [|q l]].
  - simpl. destruct (limit self); reflexivity.
  - rewrite itemgetter_all_in_range by exact H. reflexivity.
  - rewrite itemgetter_all_in_range by exact H.
    cbn [bind]. rewrite firstn_map, map_map. reflexivity.
Qed.

(** Retrieval does not in general return the survivors in ascending
    position order. *)
Lemma retrieval_not_in_dataset_order :
  ~ (forall (E : Collaborators) (self : Query) (parameters : ParameterMap)
            (d : directives) (survivors : PySet.pyset),
        PySet.lawful (set_order E) ->
        parse_parameters E parameters = Ok d ->
        filters d <> [] ->
        surviving E self parameters = Ok (Val survivors) ->
        survivors <> [] ->
        get_data self (data self) (filters d) survivors
        = Ok (Spec.rows_in_dataset_order (data self) survivors)).
Proof.
  intros H.
  specialize (H Demo.collaborators (Demo.wide_query 10) [("v", "5")]
                (append_filter no_directives
                   {| field := "v"; filter_name := "equals"; filter_value := VInt 5 |})
                [8; 1] slot_order_lawful eq_refl ltac:(discriminate) eq_refl
                ltac:(discriminate)).
  vm_compute in H. discriminate H.
Qed.

(** C2: over nine records of which those at positions 1 and 8 have
    [v = 5], the filter [v=5] leaves the positions 1 and 8, which the set
    hands out as 8, 1, and [execute] returns the record at position 8
    before the record at position 1; dataset order has them the other way
    round. *)
Theorem filtered_rows_leave_dataset_order :
  surviving Demo.collaborators (Query_init Demo.wide_dataset 10 Demo.no_sibling) [("v", "5")]
  = Ok (Val [8; 1])
  /\ execute Demo.collaborators (Query_init Demo.wide_dataset 10 Demo.no_sibling) [("v", "5")]
     = Ok (Rows [Demo.record 8 5; Demo.record 1 5])
  /\ Spec.rows_in_dataset_order Demo.wide_dataset [8; 1]
     = [Demo.record 1 5; Demo.record 8 5].
Proof. repeat split. Qed.

Example wide_query_rows :
  execute Demo.collaborators (Demo.wide_query 10) [("v", "5")]
  = Ok (Rows [Demo.record 8 5; Demo.record 1 5]).
Proof. reflexivity. Qed.

(** The same query where sets iterate in ascending order. *)
Example wide_query_rows_ascending :
  execute Demo.collaborators_asc (Demo.wide_query 10) [("v", "5")]
  = Ok (Rows [Demo.record 1 5; Demo.record 8 5]).
Proof. reflexivity. Qed.

(** ** Dictionaries *)

Section DictFacts.
Variables K V : Type.
Variable eqb : K -> K -> bool.
Hypothesis eqb_spec : forall a b, eqb a b = true <-> a = b.

Lemma eqb_same (k : K) : eqb k k = true.
Proof. apply eqb_spec. reflexivity. Qed.

Lemma eqb_other (k k' : K) : k <> k' -> eqb k' k = false.
Proof.
  intros H. destruct (eqb k' k) eqn:Heq; [|reflexivity].
  apply eqb_spec in Heq. congruence.
Qed.

Lemma dict_get_set_same (k : K) (v : V) (d : list (K * V)) :
  dict_get eqb k (dict_set eqb k v d) = Some v.
Proof.
  induction d as [|[k' v'] d IH]; simpl.
  - rewrite eqb_same. reflexivity.
  - destruct (eqb k k') eqn:Heq; simpl; rewrite Heq; [reflexivity | exact IH].
Qed.

Lemma dict_get_set_other (k k' : K) (v : V) (d : list (K * V)) :
  k <> k' ->
  dict_get eqb k' (dict_set eqb k v d) = dict_get eqb k' d.
Proof.
  intros Hne. induction d as [|[k0 v0] d IH]; simpl.
  - rewrite (eqb_other k k' Hne). reflexivity.
  - destruct (eqb k k0) eqn:Heq; simpl.
    + apply eqb_spec in Heq. subst k0. rewrite (eqb_other k k' Hne). reflexivity.
    + rewrite IH. reflexivity.
Qed.

Lemma dict_get_In (k : K) (v : V) (d : list (K * V)) :
  dict_get eqb k d = Some v -> In (k, v) d.
Proof.
  induction d as [|[k0 v0] d IH]; simpl; [discriminate|].
  destruct (eqb k k0) eqn:Heq.
  - apply eqb_spec in Heq. subst k0. intros [= <-]. left. reflexivity.
  - intros H. right. apply IH, H.
Qed.

Lemma dict_get_NoDup (k : K) (v : V) (d : list (K * V)) :
  NoDup (map fst d) -> In (k, v) d -> dict_get eqb k d = Some v.
Proof.
  induction d as [|[k0 v0] d IH]; simpl; intros Hnd Hin; [contradiction|].
  inversion Hnd as [|? ? Hnot Hnd']; subst. destruct Hin as [[= -> ->]|Hin].
  - rewrite eqb_same. reflexivity.
  - destruct (eqb k k0) eqn:Heq.
    + apply eqb_spec in Heq. subst k0. exfalso. apply Hnot.
      apply in_map_iff. exists (k, v). split; [reflexivity | exact Hin].
    + apply IH; assumption.
Qed.

Lemma dict_get_None (k : K) (d : list (K * V)) :
  dict_get eqb k d = None -> forall v, ~ In (k, v) d.
Proof.
  induction d as [|[k0 v0] d IH]; simpl; intros H v; [intros []|].
  destruct (eqb k k0) eqn:Heq; [discriminate H|].
  intros [[= -> ->]|Hin].
  - rewrite eqb_same in Heq. discriminate Heq.
  - apply (IH H v Hin).
Qed.

Lemma dict_get_setdefault (k k' : K) (v : V) (d : list (K * V)) :
  dict_get eqb k' (dict_setdefault eqb k v d)
  = match dict_get eqb k' d with
    | Some x => Some x
    | None => if eqb k' k then Some v else None
    end.
Proof.
  unfold dict_setdefault. destruct (dict_get eqb k d) as [x|] eqn:Hk.
  - destruct (dict_get eqb k' d) as [y|] eqn:Hk'; [reflexivity|].
    destruct (eqb k' k) eqn:Heq; [|reflexivity].
    apply eqb_spec in Heq. subst k'. congruence.
  - destruct (eqb k' k) eqn:Heq.
    + apply eqb_spec in Heq. subst k'. rewrite dict_get_set_same, Hk. reflexivity.
    + rewrite dict_get_set_other.
      * destruct (dict_get eqb k' d); reflexivity.
      * intros ->. rewrite eqb_same in Heq. discriminate Heq.
Qed.

End DictFacts.

Lemma string_eqb_spec (a b : string) : (a =? b) = true <-> a = b.
Proof. apply String.eqb_eq. Qed.

(** The same facts for a test [eqb] that may deny a key its own equality,
    as [==] does to NaN. *)
Section KeyedDict.
Variables K V : Type.
Variable eqb : K -> K -> bool.
Hypothesis eqb_true : forall a b, eqb a b = true -> a = b.

Lemma dict_get_hit (k : K) (v : V) (d : list (K * V)) :
  eqb k k = true -> dict_get eqb k (dict_set eqb k v d) = Some v.
Proof.
  intros Hk. induction d as [|[k' v'] d IH]; simpl.
  - rewrite Hk. reflexivity.
  - destruct (eqb k k') eqn:Heq; simpl; rewrite Heq; [reflexivity | exact IH].
Qed.

Lemma dict_get_miss (k k' : K) (v : V) (d : list (K * V)) :
  eqb k' k = false -> dict_get eqb k' (dict_set eqb k v d) = dict_get eqb k' d.
Proof.
  intros Hne. induction d as [|[k0 v0] d IH]; simpl.
  - rewrite Hne. reflexivity.
  - destruct (eqb k k0) eqn:Heq; simpl.
    + apply eqb_true in Heq. subst k0. rewrite Hne. reflexivity.
    + rewrite IH. reflexivity.
Qed.

Lemma dict_get_member (k : K) (v : V) (d : list (K * V)) :
  dict_get eqb k d = Some v -> In (k, v) d.
Proof.
  induction d as [|[k0 v0] d IH]; simpl; [discriminate|].
  destruct (eqb k k0) eqn:Heq.
  - apply eqb_true in Heq. subst k0. intros [= <-]. left. reflexivity.
  - intros H. right. apply IH, H.
Qed.

Lemma dict_get_absent (k : K) (d : list (K * V)) :
  eqb k k = true -> dict_get eqb k d = None -> forall v, ~ In (k, v) d.
Proof.
  intros Hk. induction d as [|[k0 v0] d IH]; simpl; intros H v; [intros []|].
  destruct (eqb k k0) eqn:Heq; [discriminate H|].
  intros [[= -> ->]|Hin].
  - rewrite Hk in Heq. discriminate Heq.
  - apply (IH H v Hin).
Qed.

Lemma dict_get_default (k k' : K) (v : V) (d : list (K * V)) :
  dict_get eqb k' (dict_setdefault eqb k v d)
  = match dict_get eqb k' d with
    | Some x => Some x
    | None => if eqb k' k then Some v else None
    end.
Proof.
  unfold dict_setdefault. destruct (dict_get eqb k d) as [x|] eqn:Hk.
  - destruct (dict_get eqb k' d) as [y|] eqn:Hk'; [reflexivity|].
    destruct (eqb k' k) eqn:Heq; [|reflexivity].
    apply eqb_true in Heq. subst k'. congruence.
  - destruct (eqb k' k) eqn:Heq.
    + assert (Hsame := Heq). apply eqb_true in Heq. subst k'.
      rewrite (dict_get_hit k v d Hsame), Hk. reflexivity.
    + rewrite (dict_get_miss k k' v d Heq).
      destruct (dict_get eqb k' d); reflexivity.
Qed.

End KeyedDict.

(** ** Ordering of dictionary keys *)

Section KeyOrder.
Local Open Scope Z_scope.

Lemma key_eqb_true (a b : key) : key_eqb a b = true -> a = b.
Proof.
  destruct a, b; simpl; intros H; try discriminate H; try reflexivity.
  - apply Z.eqb_eq in H. subst. reflexivity.
  - apply String.eqb_eq in H. subst. reflexivity.
  - apply andb_true_iff in H. destruct H as [Hk He].
    apply Z.eqb_eq in Hk. apply Pos.eqb_eq in He. subst. reflexivity.
  - apply Bool.eqb_prop in H. subst. reflexivity.
Qed.

Lemma key_eqb_refl (a : key) : a <> KNaN -> key_eqb a a = true.
Proof.
  destruct a; simpl; intros H; try reflexivity.
  - apply Z.eqb_refl.
  - apply String.eqb_refl.
  - rewrite Z.eqb_refl, Pos.eqb_refl. reflexivity.
  - apply Bool.eqb_reflx.
  - contradiction H. reflexivity.
Qed.

Lemma key_den_pos (e : positive) : 0 < key_den e.
Proof. unfold key_den. lia. Qed.

Lemma key_den_even (e : positive) : exists p, key_den e = 2 * p.
Proof.
  unfold key_den. induction e as [|e IH] using Pos.peano_ind.
  - exists 1. reflexivity.
  - rewrite Pos.pow_succ_r. exists (Z.pos (2 ^ e)). lia.
Qed.

Lemma key_den_add (e d : positive) : key_den (e + d) = key_den e * key_den d.
Proof.
  unfold key_den. rewrite <- Pos2Z.inj_mul. f_equal.
  induction d as [|d IH] using Pos.peano_ind.
  - rewrite Pos.add_1_r, Pos.pow_succ_r, Pos.pow_1_r. lia.
  - rewrite Pos.add_succ_r, !Pos.pow_succ_r, IH. lia.
Qed.

Lemma dyadic_lt_absurd (k k' : Z) (e d : positive) :
  (2 * k + 1) * key_den (e + d) <> (2 * k' + 1) * key_den e.
Proof.
  rewrite key_den_add. destruct (key_den_even d) as [p Hp]. rewrite Hp.
  pose proof (key_den_pos e) as He. intros H.
  assert (H' : (2 * k + 1) * (2 * p) = 2 * k' + 1) by nia.
  lia.
Qed.

Lemma dyadic_inj (k k' : Z) (e e' : positive) :
  (2 * k + 1) * key_den e' = (2 * k' + 1) * key_den e -> k = k' /\ e = e'.
Proof.
  intros H. destruct (Pos.lt_total e e') as [Hlt|[Heq|Hlt]].
  - exfalso. apply (dyadic_lt_absurd k k' e (e' - e)).
    replace (e + (e' - e))%positive with e' by lia. exact H.
  - subst e'. pose proof (key_den_pos e). split; [nia|reflexivity].
  - exfalso. apply (dyadic_lt_absurd k' k e' (e - e')).
    replace (e' + (e - e'))%positive with e by lia. symmetry. exact H.
Qed.

Lemma integer_not_dyadic (n k : Z) (e : positive) : n * key_den e <> 2 * k + 1.
Proof. destruct (key_den_even e) as [p Hp]. rewrite Hp. lia. Qed.

Lemma ascii_compare_refl (x : ascii) : Ascii.compare x x = Eq.
Proof. unfold Ascii.compare. apply N.compare_refl. Qed.

Lemma string_compare_refl (s : string) : String.compare s s = Eq.
Proof.
  induction s as [|x s IH]; simpl; [reflexivity|].
  rewrite ascii_compare_refl. exact IH.
Qed.

Lemma string_leb_trans (a : string) :
  forall b c, String.leb a b = true -> String.leb b c = true -> String.leb a c = true.
Proof.
  unfold String.leb.
  induction a as [|x a IH]; intros [|y b] [|z c]; simpl; try congruence.
  unfold Ascii.compare.
  destruct (N.compare_spec (N_of_ascii x) (N_of_ascii y)) as [Hxy|Hxy|Hxy];
    destruct (N.compare_spec (N_of_ascii y) (N_of_ascii z)) as [Hyz|Hyz|Hyz];
    destruct (N.compare_spec (N_of_ascii x) (N_of_ascii z)) as [Hxz|Hxz|Hxz];
    try lia; try congruence.
  apply IH.
Qed.

Lemma string_leb_refl (s : string) : String.leb s s = true.
Proof. unfold String.leb. rewrite string_compare_refl. reflexivity. Qed.

Ltac key_cases :=
  repeat match goal with
         | b : bool |- _ => destruct b
         end;
  cbn [key_leb]; try reflexivity; try discriminate; try congruence; auto.

Lemma key_leb_refl (a : key) : key_leb a a = true.
Proof.
  destruct a; key_cases.
  - apply Z.leb_refl.
  - apply string_leb_refl.
  - apply Z.leb_refl.
Qed.

Lemma key_leb_total (a b : key) : key_leb a b = true \/ key_leb b a = true.
Proof.
  destruct a, b; key_cases; rewrite ?Z.leb_le; try lia.
  apply String.leb_total.
Qed.

Lemma key_leb_trans (a b c : key) :
  b <> KNaN ->
  key_leb a b = true -> key_leb b c = true -> key_leb a c = true.
Proof.
  intros Hb. destruct a, b, c; try (contradiction Hb; reflexivity); clear Hb;
    key_cases; rewrite ?Z.leb_le;
    repeat match goal with
           | |- context [key_den ?e] =>
               lazymatch goal with
               | _ : 0 < key_den e |- _ => fail
               | _ => pose proof (key_den_pos e)
               end
           end; try nia.
  apply string_leb_trans.
Qed.

Lemma key_leb_antisym (a b : key) :
  a <> KNaN -> b <> KNaN ->
  key_leb a b = true -> key_leb b a = true -> a = b.
Proof.
  intros Ha Hb.
  destruct a, b; try (contradiction Ha; reflexivity); try (contradiction Hb; reflexivity);
    clear Ha Hb; key_cases; rewrite ?Z.leb_le; intros H1 H2.
  - f_equal. lia.
  - exfalso. apply (integer_not_dyadic n k e). lia.
  - f_equal. apply String.leb_antisym; assumption.
  - exfalso. apply (integer_not_dyadic n k e). lia.
  - destruct (dyadic_inj k k0 e e0) as [-> ->]; [lia | reflexivity].
Qed.

End KeyOrder.

(** ** Grouping *)

Lemma insert_by_key_perm (x : key * value) (l : list (key * value)) :
  Permutation (insert_by_key x l) (x :: l).
Proof.
  induction l as [|y l IH]; simpl.
  - apply Permutation_refl.
  - destruct (key_leb (fst x) (fst y)).
    + apply Permutation_refl.
    + apply perm_trans with (y :: x :: l); [apply perm_skip, IH | apply perm_swap].
Qed.

Lemma sorted_perm (l : list (key * value)) : Permutation (sorted l) l.
Proof.
  unfold sorted. induction l as [|x l IH]; simpl.
  - apply perm_nil.
  - apply perm_trans with (x :: fold_right insert_by_key [] l);
      [apply insert_by_key_perm | apply perm_skip, IH].
Qed.

(** A sequence in which no key is smaller than the key before it is left
    as it is, NaN keys or not. *)
Lemma sorted_ascending_run (l : list (key * value)) :
  Spec.ascending_run l = true -> sorted l = l.
Proof.
  unfold sorted. induction l as [|x l IH]; [reflexivity|].
  destruct l as [|y l]; [reflexivity|].
  intros H. cbn [Spec.ascending_run] in H. apply andb_true_iff in H. destruct H as [Hxy Hl].
  cbn [fold_right] in *. rewrite (IH Hl). cbn [insert_by_key]. rewrite Hxy. reflexivity.
Qed.

Lemma insert_by_key_sorted (x : key * value) (l : list (key * value)) :
  Forall (fun y => fst y <> KNaN) l ->
  StronglySorted Spec.key_le l -> StronglySorted Spec.key_le (insert_by_key x l).
Proof.
  induction l as [|y l IH]; intros Ho Hs; simpl.
  - constructor; constructor.
  - inversion Hs as [|? ? Hl Hy]; subst. inversion Ho as [|? ? Hoy Hol]; subst.
    destruct (key_leb (fst x) (fst y)) eqn:Hxy.
    + constructor; [exact Hs|]. constructor; [exact Hxy|].
      eapply Forall_impl; [|exact Hy]. intros z Hz.
      unfold Spec.key_le in *. apply (key_leb_trans (fst x) (fst y) (fst z) Hoy Hxy Hz).
    + constructor; [apply IH; assumption|].
      apply (Permutation_Forall (Permutation_sym (insert_by_key_perm x l))).
      constructor; [|exact Hy].
      unfold Spec.key_le. destruct (key_leb_total (fst x) (fst y)) as [H|H]; [congruence|exact H].
Qed.

Lemma sorted_sorted (l : list (key * value)) :
  Forall (fun y => fst y <> KNaN) l -> StronglySorted Spec.key_le (sorted l).
Proof.
  unfold sorted. induction l as [|x l IH]; intros Ho; simpl.
  - constructor.
  - inversion Ho as [|? ? Hx Hl]; subst. apply insert_by_key_sorted; [|apply IH, Hl].
    apply (Permutation_Forall (Permutation_sym (sorted_perm l))). exact Hl.
Qed.

Lemma members_cons (k : key) (x : key * value) (l : list (key * value)) :
  Spec.members_with_key k (x :: l)
  = if key_eqb (fst x) k then snd x :: Spec.members_with_key k l
    else Spec.members_with_key k l.
Proof.
  unfold Spec.members_with_key. simpl. destruct (key_eqb (fst x) k); reflexivity.
Qed.

(** The sort is stable: the members of a key keep their order. *)
Lemma insert_by_key_members (k : key) (x : key * value) (l : list (key * value)) :
  Spec.members_with_key k (insert_by_key x l) = Spec.members_with_key k (x :: l).
Proof.
  induction l as [|y l IH]; simpl; [reflexivity|].
  destruct (key_leb (fst x) (fst y)) eqn:Hxy; [reflexivity|].
  rewrite (members_cons k y), IH, !members_cons.
  destruct (key_eqb (fst x) k) eqn:Hx, (key_eqb (fst y) k) eqn:Hy; try reflexivity.
  apply key_eqb_true in Hx, Hy. rewrite Hx, Hy, key_leb_refl in Hxy. discriminate Hxy.
Qed.

Lemma sorted_members (k : key) (l : list (key * value)) :
  Spec.members_with_key k (sorted l) = Spec.members_with_key k l.
Proof.
  unfold sorted. induction l as [|x l IH]; simpl; [reflexivity|].
  rewrite insert_by_key_members, !members_cons, IH. reflexivity.
Qed.

Lemma members_none (k : key) (l : list (key * value)) :
  Forall (fun x => key_eqb (fst x) k = false) l -> Spec.members_with_key k l = [].
Proof.
  induction 1 as [|x l Hx _ IH]; [reflexivity|].
  rewrite members_cons, Hx. exact IH.
Qed.

(** On a sorted sequence without NaN keys [groupby] yields, for strictly
    ascending keys, all the members of each key. *)
Lemma groupby_from_sorted (l : list (key * value)) :
  forall tgtkey run,
    tgtkey <> KNaN ->
    Forall (fun x => fst x <> KNaN) l ->
    StronglySorted Spec.key_le l ->
    Forall (fun x => key_leb tgtkey (fst x) = true) l ->
    exists rest,
      groupby_from tgtkey run l
      = (tgtkey, (rev run ++ Spec.members_with_key tgtkey l)%list) :: rest
      /\ Forall (fun g => key_leb (fst g) tgtkey = false
                          /\ snd g = Spec.members_with_key (fst g) l) rest
      /\ StronglySorted Spec.key_lt rest.
Proof.
  induction l as [|[k r] l IH]; intros tgt run Htgt Ho Hs Hb.
  - exists []. simpl. rewrite app_nil_r. repeat split; constructor.
  - inversion Hs as [|? ? Hl Hk]; subst. inversion Hb as [|? ? Htk Hb']; subst.
    inversion Ho as [|? ? Hok Hol]; subst. simpl in Hok.
    simpl in Htk. cbn [groupby_from]. destruct (key_eqb k tgt) eqn:Heq.
    + apply key_eqb_true in Heq. subst k.
      destruct (IH tgt (r :: run) Htgt Hol Hl Hb') as (rest & E1 & E2 & E3).
      exists rest. split; [|split; [|exact E3]].
      * rewrite E1, members_cons. simpl. rewrite (key_eqb_refl tgt Htgt), <- app_assoc.
        reflexivity.
      * eapply Forall_impl; [|exact E2]. intros g [Hg1 Hg2]. split; [exact Hg1|].
        rewrite members_cons. simpl.
        destruct (key_eqb tgt (fst g)) eqn:Hg; [|exact Hg2].
        apply key_eqb_true in Hg. rewrite <- Hg, key_leb_refl in Hg1. discriminate Hg1.
    + assert (Hkt : key_leb k tgt = false).
      { destruct (key_leb k tgt) eqn:Hkt; [|reflexivity].
        rewrite (key_leb_antisym k tgt Hok Htgt Hkt Htk), (key_eqb_refl tgt Htgt) in Heq.
        discriminate Heq. }
      destruct (IH k [r] Hok Hol Hl Hk) as (rest & E1 & E2 & E3).
      exists ((k, r :: Spec.members_with_key k l) :: rest). split; [|split].
      * rewrite E1, members_cons. simpl. rewrite Heq.
        rewrite (members_none tgt l), app_nil_r; [reflexivity|].
        eapply Forall_impl; [|exact Hk]. intros x Hx. unfold Spec.key_le in Hx. simpl in Hx.
        destruct (key_eqb (fst x) tgt) eqn:Hxt; [|reflexivity].
        apply key_eqb_true in Hxt. rewrite Hxt in Hx. congruence.
      * constructor.
        -- simpl. split; [exact Hkt|]. rewrite members_cons. simpl.
           rewrite (key_eqb_refl k Hok). reflexivity.
        -- eapply Forall_impl; [|exact E2]. intros g [Hg1 Hg2]. split.
           ++ destruct (key_leb (fst g) tgt) eqn:Hgt; [|reflexivity].
              rewrite (key_leb_trans (fst g) tgt k Htgt Hgt Htk) in Hg1. discriminate Hg1.
           ++ rewrite members_cons. simpl.
              destruct (key_eqb k (fst g)) eqn:Hg; [|exact Hg2].
              apply key_eqb_true in Hg. rewrite <- Hg, key_leb_refl in Hg1. discriminate Hg1.
      * constructor; [exact E3|].
        eapply Forall_impl; [|exact E2]. intros g [Hg1 _]. exact Hg1.
Qed.

Lemma groupby_sorted (l : list (key * value)) :
  Forall (fun x => fst x <> KNaN) l ->
  StronglySorted Spec.key_le l ->
  Forall (fun g => snd g = Spec.members_with_key (fst g) l) (groupby l)
  /\ StronglySorted Spec.key_lt (groupby l).
Proof.
  destruct l as [|[k r] l]; intros Ho Hs.
  - split; constructor.
  - inversion Hs as [|? ? Hl Hk]; subst. inversion Ho as [|? ? Hok Hol]; subst. simpl in Hok.
    destruct (groupby_from_sorted l k [r] Hok Hol Hl Hk) as (rest & E1 & E2 & E3).
    cbn [groupby]. rewrite E1. split.
    + constructor.
      * simpl. rewrite members_cons. simpl. rewrite (key_eqb_refl k Hok). reflexivity.
      * eapply Forall_impl; [|exact E2]. intros g [Hg1 Hg2].
        rewrite members_cons. simpl.
        destruct (key_eqb k (fst g)) eqn:Hg; [|exact Hg2].
        apply key_eqb_true in Hg. rewrite <- Hg, key_leb_refl in Hg1. discriminate Hg1.
    + constructor; [exact E3|].
      eapply Forall_impl; [|exact E2]. intros g [Hg1 _]. exact Hg1.
Qed.

Lemma concat_groupby_from (l : list (key * value)) :
  forall tgtkey run,
    List.concat (map snd (groupby_from tgtkey run l)) = (rev run ++ map snd l)%list.
Proof.
  induction l as [|[k r] l IH]; intros tgt run; simpl.
  - rewrite app_nil_r. reflexivity.
  - destruct (key_eqb k tgt).
    + rewrite IH. simpl. rewrite <- app_assoc. reflexivity.
    + simpl. rewrite IH. reflexivity.
Qed.

Lemma concat_groupby (l : list (key * value)) :
  List.concat (map snd (groupby l)) = map snd l.
Proof.
  destruct l as [|[k r] l]; [reflexivity|].
  cbn [groupby]. rewrite concat_groupby_from. reflexivity.
Qed.

Lemma dict_set_new (k : key) (v : list value) (d : list (key * list value)) :
  Forall (fun a => key_eqb k (fst a) = false) d ->
  dict_set key_eqb k v d = (d ++ [(k, v)])%list.
Proof.
  induction 1 as [|[k' v'] d Hk _ IH]; [reflexivity|].
  simpl in *. rewrite Hk, IH. reflexivity.
Qed.

(** Runs with pairwise different keys never overwrite each other. *)
Lemma assign_runs_from (runs : list (key * list value)) :
  forall d,
    StronglySorted Spec.key_lt runs ->
    Forall (fun g => Forall (fun a => key_eqb (fst g) (fst a) = false) d) runs ->
    fold_left (fun d run => dict_set key_eqb (fst run) (snd run) d) runs d = (d ++ runs)%list.
Proof.
  induction runs as [|g runs IH]; intros d Hs Hd.
  - simpl. rewrite app_nil_r. reflexivity.
  - inversion Hs as [|? ? Hruns Hg]; subst. inversion Hd as [|? ? Hgd Hd']; subst.
    simpl. rewrite (dict_set_new (fst g) (snd g) d Hgd).
    rewrite IH; [destruct g; rewrite <- app_assoc; reflexivity | exact Hruns |].
    rewrite Forall_forall in *. intros h Hh.
    apply Forall_app. split; [apply Hd', Hh|].
    constructor; [|constructor]. simpl.
    destruct (key_eqb (fst h) (fst g)) eqn:Heq; [|reflexivity].
    apply key_eqb_true in Heq. specialize (Hg h Hh). unfold Spec.key_lt in Hg.
    rewrite Heq, key_leb_refl in Hg. discriminate Hg.
Qed.

Lemma assign_runs_sorted (runs : list (key * list value)) :
  StronglySorted Spec.key_lt runs -> assign_runs runs = runs.
Proof.
  intros Hs. unfold assign_runs. rewrite assign_runs_from; [reflexivity | exact Hs |].
  apply Forall_forall. intros g _. constructor.
Qed.

(** Decorating and hashing keep the rows and file each under its key. *)
Lemma keyed_rows (group : string) (rows : list value) :
  forall decorated keyed,
    decorate group rows = Ok decorated ->
    hash_keys decorated = Ok keyed ->
    map snd keyed = rows
    /\ forall k, Spec.members_with_key k keyed = Spec.rows_with_key group k rows.
Proof.
  induction rows as [|r rows IH]; intros decorated keyed Hd Hk.
  - injection Hd as <-. injection Hk as <-. split; reflexivity.
  - simpl in Hd. destruct (getitem r group) as [v|e] eqn:Hv; [|discriminate Hd].
    simpl in Hd. destruct (decorate group rows) as [dec|e]; [|discriminate Hd].
    injection Hd as <-. simpl in Hk.
    destruct (hash_key v) as [k'|] eqn:Hh; [|discriminate Hk].
    destruct (hash_keys dec) as [keyed'|e] eqn:Hk'; [|discriminate Hk].
    injection Hk as <-.
    destruct (IH dec keyed' eq_refl Hk') as [IH1 IH2].
    split; [simpl; rewrite IH1; reflexivity|].
    intros k. rewrite members_cons. unfold Spec.rows_with_key. simpl.
    rewrite Hv, Hh. fold (Spec.rows_with_key group k rows). rewrite <- IH2.
    destruct (key_eqb k' k); reflexivity.
Qed.

Lemma keyed_rows_ordered (group : string) (rows : list value) :
  forall decorated keyed,
    Forall (Spec.carries_ordered_key group) rows ->
    decorate group rows = Ok decorated ->
    hash_keys decorated = Ok keyed ->
    Forall (fun x => fst x <> KNaN) keyed.
Proof.
  induction rows as [|r rows IH]; intros decorated keyed Ho Hd Hk.
  - injection Hd as <-. injection Hk as <-. constructor.
  - inversion Ho as [|? ? (v0 & k0 & Hv0 & Hh0 & Hk0) Hrows]; subst.
    simpl in Hd. rewrite Hv0 in Hd.
    simpl in Hd. destruct (decorate group rows) as [dec|e]; [|discriminate Hd].
    injection Hd as <-. simpl in Hk. rewrite Hh0 in Hk.
    destruct (hash_keys dec) as [keyed'|e] eqn:Hk'; [|discriminate Hk].
    injection Hk as <-. constructor; [exact Hk0|].
    apply (IH dec keyed' Hrows eq_refl Hk').
Qed.

Lemma ordered_key_carried (group : string) (rows : list value) :
  Forall (Spec.carries_ordered_key group) rows -> Forall (Spec.carries_key group) rows.
Proof.
  apply Forall_impl. intros r (v & k & Hv & Hk & _). exists v, k. split; assumption.
Qed.

Lemma group_rows_partition (group : string) (rows : list value)
      (grouping : list (key * list value)) :
  Forall (Spec.carries_ordered_key group) rows ->
  group_rows group rows = Ok grouping ->
  Permutation (List.concat (map snd grouping)) rows
  /\ Forall (fun g => snd g = Spec.rows_with_key group (fst g) rows) grouping
  /\ NoDup (map fst grouping).
Proof.
  unfold group_rows. intros Ho H.
  destruct (decorate group rows) as [decorated|e] eqn:Hd; [|discriminate H].
  simpl in H. destruct (hash_keys decorated) as [keyed|e] eqn:Hk; [|discriminate H].
  injection H as <-.
  destruct (keyed_rows group rows decorated keyed Hd Hk) as [Hrows Hmembers].
  assert (Hkeys := keyed_rows_ordered group rows decorated keyed Ho Hd Hk).
  assert (Hsorted_keys : Forall (fun x => fst x <> KNaN) (sorted keyed))
    by (apply (Permutation_Forall (Permutation_sym (sorted_perm keyed))); exact Hkeys).
  destruct (groupby_sorted (sorted keyed) Hsorted_keys (sorted_sorted keyed Hkeys)) as [Hg Hs].
  rewrite (assign_runs_sorted _ Hs). split; [|split].
  - rewrite concat_groupby, <- Hrows. apply Permutation_map, sorted_perm.
  - eapply Forall_impl; [|exact Hg]. intros g Hg'.
    rewrite Hg', sorted_members. apply Hmembers.
  - clear Hg. induction Hs as [|g runs _ IH Hlt]; simpl; constructor; [|exact IH].
    intros Hin. apply in_map_iff in Hin. destruct Hin as (h & Hfst & Hh).
    rewrite Forall_forall in Hlt. specialize (Hlt h Hh). unfold Spec.key_lt in Hlt.
    rewrite Hfst, key_leb_refl in Hlt. discriminate Hlt.
Qed.

Lemma group_rows_total (group : string) (rows : list value) :
  Forall (Spec.carries_key group) rows ->
  exists grouping, group_rows group rows = Ok grouping.
Proof.
  intros H.
  assert (Hk : exists decorated keyed,
             decorate group rows = Ok decorated /\ hash_keys decorated = Ok keyed).
  { induction H as [|r rows (v & k & Hv & Hh) _ (dec & keyed & Hd & Hk)].
    - exists [], []. split; reflexivity.
    - exists ((v, r) :: dec), ((k, r) :: keyed). simpl. rewrite Hv. simpl. rewrite Hd. simpl.
      rewrite Hh, Hk. split; reflexivity. }
  destruct Hk as (dec & keyed & Hd & Hk).
  unfold group_rows. rewrite Hd. simpl. rewrite Hk. simpl. eexists. reflexivity.
Qed.

Lemma group_loop_lookup (rows : list value) (groups : list string) :
  forall acc g,
    group_loop rows groups acc = Ok g ->
    forall group,
      (In group groups ->
       exists grouping, dict_get String.eqb group g = Some grouping
                        /\ group_rows group rows = Ok grouping)
      /\ (~ In group groups -> dict_get String.eqb group g = dict_get String.eqb group acc).
Proof.
  induction groups as [|g0 groups IH]; intros acc g H group.
  - injection H as <-. split; [intros [] | reflexivity].
  - simpl in H. destruct (group_rows g0 rows) as [grouping0|e] eqn:Hg0; [|discriminate H].
    simpl in H. destruct (IH _ _ H group) as [IHin IHout].
    destruct (in_dec string_dec group groups) as [Hin|Hnot].
    + split; [intros _; apply IHin, Hin|]. intros Hno. exfalso. apply Hno. right. exact Hin.
    + split.
      * intros [<-|Hin]; [|contradiction].
        exists grouping0. rewrite (IHout Hnot).
        rewrite (dict_get_set_same _ _ String.eqb string_eqb_spec). split; [reflexivity | exact Hg0].
      * intros Hno. rewrite (IHout Hnot).
        apply (dict_get_set_other _ _ String.eqb string_eqb_spec).
        intros ->. apply Hno. left. reflexivity.
Qed.

Lemma group_loop_total (rows : list value) (groups : list string) :
  (forall g, In g groups -> Forall (Spec.carries_key g) rows) ->
  forall acc, exists gs, group_loop rows groups acc = Ok gs.
Proof.
  induction groups as [|g0 groups IH]; intros H acc.
  - exists acc. reflexivity.
  - destruct (group_rows_total g0 rows (H g0 (or_introl eq_refl))) as [grouping Hg].
    simpl. rewrite Hg. simpl. apply IH. intros g Hin. apply H. right. exact Hin.
Qed.

(** C9, as the code has it: where every row carries each requested group
    field with a value that can be a dictionary key and is not NaN,
    [process_groups] returns a mapping that binds each requested field [g]
    to a grouping holding every input row exactly once: the lists of all
    keys put together are a rearrangement of the input rows, no key occurs
    twice, and the list of a key is the input rows with that key in [g],
    in input order. *)
Theorem process_groups_partitions_rows (rows : list value) (groups : list string)
        (Hgroups : groups <> [])
        (Hkeys : forall g, In g groups -> Forall (Spec.carries_ordered_key g) rows) :
  exists gs,
    process_groups rows groups = Ok (Groups gs)
    /\ forall g, In g groups ->
         exists grouping,
           dict_get String.eqb g gs = Some grouping
           /\ Permutation (List.concat (map snd grouping)) rows
           /\ Forall (fun e => snd e = Spec.rows_with_key g (fst e) rows) grouping
           /\ NoDup (map fst grouping).
Proof.
  destruct groups as [|g0 groups]; [contradiction|]. clear Hgroups.
  destruct (group_loop_total rows (g0 :: groups)
              (fun g Hin => ordered_key_carried g rows (Hkeys g Hin)) []) as [gs Hloop].
  exists gs. split; [unfold process_groups; rewrite Hloop; reflexivity|].
  intros g Hin.
  destruct (proj1 (group_loop_lookup rows (g0 :: groups) [] gs Hloop g) Hin)
    as (grouping & Hget & Hrows).
  exists grouping. split; [exact Hget|].
  apply (group_rows_partition g rows grouping (Hkeys g Hin) Hrows).
Qed.

Lemma process_groups_partitions_rows_witness :
  exists gs,
    process_groups [Demo.record 1 5; Demo.record 2 7; Demo.record 3 5] ["v"; "id"]
    = Ok (Groups gs)
    /\ forall g, In g ["v"; "id"] ->
         exists grouping,
           dict_get String.eqb g gs = Some grouping
           /\ Permutation (List.concat (map snd grouping))
                [Demo.record 1 5; Demo.record 2 7; Demo.record 3 5]
           /\ Forall (fun e => snd e
                               = Spec.rows_with_key g (fst e)
                                   [Demo.record 1 5; Demo.record 2 7; Demo.record 3 5])
                grouping
           /\ NoDup (map fst grouping).
Proof.
  apply (process_groups_partitions_rows
           [Demo.record 1 5; Demo.record 2 7; Demo.record 3 5] ["v"; "id"]).
  - discriminate.
  - intros g [<-|[<-|[]]];
      repeat constructor; eexists; eexists; (split; [reflexivity|]); split;
        try reflexivity; discriminate.
Defined.

(** C9 as the specification words it fails: rows whose keys are [1.0],
    NaN and [1.0] all carry the field, and are one ascending run for
    [sorted]; NaN ends the first run of [groupby], the third row opens a
    run under the key of the first, and its list replaces that of the
    first row: one row is lost. *)
Lemma nan_key_loses_a_row :
  Forall (Spec.carries "v") Demo.nan_rows
  /\ Spec.ascending_run
       [(KNum 1, Demo.float_record 1 (FIntegral 1)); (KNaN, Demo.float_record 2 FNaN);
        (KNum 1, Demo.float_record 3 (FIntegral 1))] = true
  /\ process_groups Demo.nan_rows ["v"]
     = Ok (Groups [("v", [(KNum 1, [Demo.float_record 3 (FIntegral 1)]);
                          (KNaN, [Demo.float_record 2 FNaN])])])
  /\ ~ Permutation
         (List.concat (map snd [(KNum 1, [Demo.float_record 3 (FIntegral 1)]);
                                (KNaN, [Demo.float_record 2 FNaN])]))
         Demo.nan_rows.
Proof.
  split; [|split; [|split]].
  - repeat constructor; eexists; reflexivity.
  - reflexivity.
  - reflexivity.
  - intros H. apply Permutation_length in H. discriminate H.
Qed.

Example scenario_grouping :
  execute Demo.collaborators (Demo.query 10) [("_group_by", "v")]
  = Ok (Groups [("v", [(KNum 5, [Demo.record 1 5; Demo.record 3 5]);
                       (KNum 7, [Demo.record 2 7])])]).
Proof. reflexivity. Qed.

(** ** What the combining step does compute *)

Lemma match_sets_cons (E : Collaborators) (self : Query) (parameters : ParameterMap)
      (f : post_filter) (fs : list post_filter) (ms : list (list nat)) :
  Spec.match_sets E self parameters (f :: fs) = Some ms ->
  exists m ms',
    ms = m :: ms'
    /\ filter_matches E self parameters f = Val m
    /\ Spec.match_sets E self parameters fs = Some ms'.
Proof.
  simpl. destruct (filter_matches E self parameters f) as [m| |]; try discriminate.
  destruct (Spec.match_sets E self parameters fs) as [ms'|]; try discriminate.
  intros [= <-]. exists m, ms'. repeat split.
Qed.

Lemma union_all_from_In (ms : list (list nat)) :
  forall acc p,
    In p (fold_left (fun acc m => nodup Nat.eq_dec (acc ++ m)) ms acc)
    <-> In p acc \/ exists m, In m ms /\ In p m.
Proof.
  induction ms as [|m ms IH]; intros acc p; simpl.
  - split; [auto|]. intros [H|[m [[] _]]]. exact H.
  - rewrite IH, nodup_In, in_app_iff. split.
    + intros [[H|H]|[m' [H1 H2]]]; [auto | right; exists m; auto | right; exists m'; auto].
    + intros [H|[m' [[<-|H1] H2]]]; [auto | auto | right; exists m'; auto].
Qed.

Lemma run_filters_or_from (E : Collaborators) (self : Query) (parameters : ParameterMap)
      (Hlawful : PySet.lawful (set_order E)) (fs : list post_filter) :
  forall ms query_results,
    Spec.match_sets E self parameters fs = Some ms ->
    exists survivors,
      run_filters E self parameters JOIN_TYPE_OR fs query_results = Val survivors
      /\ forall p, In p survivors <-> In p query_results \/ exists m, In m ms /\ In p m.
Proof.
  induction fs as [|f fs IH]; intros ms qr Hms.
  - injection Hms as <-. exists qr. split; [reflexivity|].
    intros p. split; [auto|]. intros [H|[m [[] _]]]. exact H.
  - destruct (match_sets_cons E self parameters f fs ms Hms) as (m & ms' & -> & Hm & Hms').
    destruct (IH ms' (combine E JOIN_TYPE_OR qr m) Hms') as (s & Hrun & Hs).
    exists s. simpl. rewrite Hm. split; [exact Hrun|].
    intros p. rewrite Hs.
    assert (Hc : In p (combine E JOIN_TYPE_OR qr m) <-> In p qr \/ In p m).
    { unfold combine. destruct qr as [|q qr].
      - rewrite (of_list_In _ Hlawful). split; [auto|]. intros [[]|H]. exact H.
      - rewrite (union_In _ Hlawful), (of_list_In _ Hlawful). reflexivity. }
    rewrite Hc. split.
    + intros [[H|H]|[m' [H1 H2]]]; [auto | right; exists m; simpl; auto | right; exists m'; simpl; auto].
    + intros [H|[m' [[<-|H1] H2]]]; [auto | auto | right; exists m'; auto].
Qed.

(** Under OR the survivors are the union of the match-sets. *)
Lemma or_join_is_union (E : Collaborators) (self : Query) (parameters : ParameterMap)
      (fs : list post_filter) (ms : list (list nat)) :
  PySet.lawful (set_order E) ->
  Spec.match_sets E self parameters fs = Some ms ->
  exists survivors,
    run_filters E self parameters JOIN_TYPE_OR fs [] = Val survivors
    /\ Spec.same_members survivors (Spec.union_all ms).
Proof.
  intros Hlawful Hms.
  destruct (run_filters_or_from E self parameters Hlawful fs ms [] Hms) as (s & Hrun & Hs).
  exists s. split; [exact Hrun|].
  intros p. unfold Spec.union_all. rewrite Hs, union_all_from_In. reflexivity.
Qed.

Lemma run_filters_and_from (E : Collaborators) (self : Query) (parameters : ParameterMap)
      (Hlawful : PySet.lawful (set_order E)) (fs : list post_filter) :
  forall ms query_results acc,
    Spec.match_sets E self parameters fs = Some ms ->
    Spec.same_members query_results acc ->
    Spec.never_empty acc ms ->
    exists survivors,
      run_filters E self parameters JOIN_TYPE_AND fs query_results = Val survivors
      /\ Spec.same_members survivors
           (fold_left (fun acc m => filter (fun x => PySet.mem x m) acc) ms acc).
Proof.
  induction fs as [|f fs IH]; intros ms qr acc Hms Hsame Hne.
  - injection Hms as <-. exists qr. split; [reflexivity | exact Hsame].
  - destruct (match_sets_cons E self parameters f fs ms Hms) as (m & ms' & -> & Hm & Hms').
    destruct Hne as [Hacc Hne]. simpl. rewrite Hm.
    apply (IH ms' _ (filter (fun x => PySet.mem x m) acc) Hms'); [|exact Hne].
    destruct qr as [|q qr].
    + destruct acc as [|a acc]; [contradiction|].
      exfalso. apply (proj2 (Hsame a)). left. reflexivity.
    + intros p. unfold combine.
      rewrite (inter_In _ Hlawful), (of_list_In _ Hlawful), filter_In, mem_In, (Hsame p).
      reflexivity.
Qed.

(** Under AND the survivors are the intersection of the match-sets as
    long as no intersection on the way is empty. *)
Lemma and_join_is_intersection_unless_emptied (E : Collaborators) (self : Query)
      (parameters : ParameterMap) (fs : list post_filter) (m : list nat) (ms : list (list nat)) :
  PySet.lawful (set_order E) ->
  Spec.match_sets E self parameters fs = Some (m :: ms) ->
  Spec.never_empty m ms ->
  exists survivors,
    run_filters E self parameters JOIN_TYPE_AND fs [] = Val survivors
    /\ Spec.same_members survivors (Spec.inter_all (m :: ms)).
Proof.
  intros Hlawful Hms Hne.
  destruct fs as [|f fs]; [discriminate Hms|].
  destruct (match_sets_cons E self parameters f fs (m :: ms) Hms) as (m' & ms' & Heq & Hm & Hms').
  injection Heq as <- <-. simpl. rewrite Hm.
  apply (run_filters_and_from E self parameters Hlawful fs ms _ m Hms'); [|exact Hne].
  intros p. unfold combine. apply (of_list_In _ Hlawful).
Qed.


(* ------------------------------------------------------------------ *)
(** * Further properties of the module *)

(** ** [parse_parameters] *)

Lemma parse_loop_app (E : Collaborators) (a b : ParameterMap) :
  forall st,
    parse_loop E st (a ++ b)%list
    = (st' <- parse_loop E st a ;; parse_loop E st' b).
Proof.
  induction a as [|[p v] a IH]; intros st; simpl.
  - reflexivity.
  - destruct (parse_parameter E st p v) as [st1|e]; simpl; [apply IH | reflexivity].
Qed.

Lemma parse_parameter_filters (E : Collaborators) (st st' : directives) (p v : string) :
  parse_parameter E st p v = Ok st' ->
  List.length (filters st')
  = List.length (filters st) + (if Spec.plain (p, v) then 1 else 0).
Proof.
  unfold parse_parameter, Spec.plain. simpl fst.
  destruct (PyStr.startswith p LQL_DELIMITER); cbn [negb].
  - destruct (p =? LQL_DELIMITER ++ "join").
    { destruct (PyStr.upper v =? "OR"); intros [= <-]; simpl; lia. }
    destruct (p =? LQL_DELIMITER ++ "fields"); [intros [= <-]; simpl; lia|].
    destruct (p =? LQL_DELIMITER ++ "group_by"); [intros [= <-]; simpl; lia|].
    destruct (p =? LQL_DELIMITER ++ "aggregate"); [|intros [= <-]; lia].
    destruct (parse_aggregates _ _); simpl; intros [= <-]; simpl; lia.
  - destruct (parse_value E v) as [x|e]; [|destruct e; simpl; discriminate].
    simpl.
    destruct (negb (PyStr.contains DOUBLE_DELIMITER p)).
    { intros [= <-]. simpl. rewrite length_app. reflexivity. }
    destruct (PyStr.split p DOUBLE_DELIMITER) as [|a [|b [|c l]]]; try discriminate.
    intros [= <-]. simpl. rewrite length_app. reflexivity.
Qed.

Lemma parse_loop_filters (E : Collaborators) (items : ParameterMap) :
  forall st d,
    parse_loop E st items = Ok d ->
    List.length (filters d)
    = List.length (filters st) + List.length (filter Spec.plain items).
Proof.
  induction items as [|[p v] items IH]; intros st d H.
  - injection H as <-. simpl. lia.
  - simpl in H. destruct (parse_parameter E st p v) as [st1|e] eqn:Hp; [|discriminate H].
    simpl in H. rewrite (IH _ _ H), (parse_parameter_filters E st st1 p v Hp).
    cbn [filter]. destruct (Spec.plain (p, v)); simpl; lia.
Qed.

(** X1: a parameter map that parses yields one filter spec for each
    parameter whose name does not start with the directive delimiter, and
    none for the others. *)
Theorem one_filter_per_plain_parameter (E : Collaborators) (parameters : ParameterMap)
        (d : directives) (Hparse : parse_parameters E parameters = Ok d) :
  List.length (filters d) = List.length (filter Spec.plain parameters).
Proof.
  unfold parse_parameters in Hparse.
  rewrite (parse_loop_filters E parameters no_directives d Hparse). reflexivity.
Qed.

Lemma one_filter_per_plain_parameter_witness :
  List.length
    (filters
       (append_filter
          (set_join_type
             (append_filter no_directives
                {| field := "v"; filter_name := "equals"; filter_value := VInt 5 |})
             JOIN_TYPE_OR)
          {| field := "id"; filter_name := "equals"; filter_value := VInt 1 |}))
  = List.length (filter Spec.plain [("v", "5"); ("_join", "or"); ("id__equals", "1")]).
Proof.
  apply (one_filter_per_plain_parameter Demo.collaborators
           [("v", "5"); ("_join", "or"); ("id__equals", "1")]).
  reflexivity.
Defined.

(** X2: the coercion's [IndexError] is reported as a malformed query: when
    the parameters before parse and a plain parameter's value makes
    [parse_value] raise [IndexError], [execute] fails with that bad
    request, whatever follows in the map and whatever the dataset. *)
Theorem malformed_value_rejected (E : Collaborators) (self : Query)
        (before after : ParameterMap) (p v : string) (st : directives)
        (Hbefore : parse_loop E no_directives before = Ok st)
        (Hplain : Spec.plain (p, v) = true)
        (Hvalue : parse_value E v = Raise IndexError) :
  execute E self (before ++ (p, v) :: after)%list = Raise (Http400 "Malformed query").
Proof.
  unfold execute, parse_parameters. rewrite parse_loop_app, Hbefore. simpl.
  unfold parse_parameter. unfold Spec.plain in Hplain. simpl in Hplain.
  rewrite Hplain, Hvalue. reflexivity.
Qed.

Lemma malformed_value_rejected_witness :
  execute Demo.collaborators (Demo.query 10) [("_join", "OR"); ("v", EmptyString); ("id", "1")]
  = Raise (Http400 "Malformed query").
Proof.
  apply (malformed_value_rejected Demo.collaborators (Demo.query 10)
           [("_join", "OR")] [("id", "1")] "v" EmptyString
           (set_join_type no_directives JOIN_TYPE_OR));
    reflexivity.
Defined.

Lemma has_alias_split (element : string) :
  Spec.has_alias element = true ->
  exists n f, PyStr.split element ":" = [n; f].
Proof.
  unfold Spec.has_alias.
  destruct (PyStr.split element ":") as [|n [|f [|x l]]]; simpl; try discriminate.
  intros _. exists n, f. reflexivity.
Qed.

Lemma parse_aggregate_has_alias (element : string) :
  Spec.has_alias element = true ->
  exists a,
    parse_aggregate element = Ok a
    /\ (if Spec.recognised element then a <> None else a = None).
Proof.
  intros H. destruct (has_alias_split element H) as (n & f & Hs).
  unfold parse_aggregate, Spec.recognised. rewrite Hs.
  destruct (PyStr.startswith f "Count("); simpl.
  - eexists. split; [reflexivity | discriminate].
  - destruct (PyStr.startswith f "Sum("); simpl.
    + eexists. split; [reflexivity | discriminate].
    + eexists. split; reflexivity.
Qed.

Lemma parse_aggregate_no_alias (element : string) :
  Spec.has_alias element = false ->
  parse_aggregate element = Raise (Http400 "Specify an alias for the aggregate").
Proof.
  unfold Spec.has_alias, parse_aggregate.
  destruct (PyStr.split element ":") as [|n [|f [|x l]]]; simpl; try reflexivity.
  discriminate.
Qed.

Lemma parse_aggregates_spec (elements : list string) :
  forall acc,
    (forallb Spec.has_alias elements = true ->
     exists r, parse_aggregates elements acc = Ok r
               /\ List.length r
                  = List.length acc + List.length (filter Spec.recognised elements))
    /\ (forallb Spec.has_alias elements = false ->
        parse_aggregates elements acc = Raise (Http400 "Specify an alias for the aggregate")).
Proof.
  induction elements as [|el elements IH]; intros acc.
  - split; [|discriminate]. intros _. exists acc. split; [reflexivity | simpl; lia].
  - cbn [forallb parse_aggregates filter]. destruct (Spec.has_alias el) eqn:Hel; cbn [andb].
    + destruct (parse_aggregate_has_alias el Hel) as (a & Ha & Hr). rewrite Ha. simpl.
      destruct (Spec.recognised el).
      * destruct a as [a|]; [|contradiction].
        destruct (IH (acc ++ [a])%list) as [IH1 IH2]. split.
        -- intros H. destruct (IH1 H) as (r & Hr1 & Hr2). exists r. split; [exact Hr1|].
           rewrite Hr2, length_app. simpl. lia.
        -- exact IH2.
      * subst a. apply IH.
    + split; [discriminate|]. intros _. rewrite (parse_aggregate_no_alias el Hel). reflexivity.
Qed.

(** X3: the [_aggregate] directive is rejected with the missing-alias
    error exactly when some element of its list does not split into alias
    and function at one colon (the empty list [()] included); otherwise it
    parses, and the aggregates gain one entry per element naming [Count]
    or [Sum]: elements naming any other function leave no trace. *)
Theorem aggregate_directive_parsing (E : Collaborators) (st : directives) (v : string) :
  let elements := PyStr.split (PyStr.slice_1_m1 (PyStr.strip v)) "," in
  (forallb Spec.has_alias elements = false ->
   parse_parameter E st "_aggregate" v = Raise (Http400 "Specify an alias for the aggregate"))
  /\ (forallb Spec.has_alias elements = true ->
      exists aggs,
        parse_parameter E st "_aggregate" v = Ok (set_aggregates st aggs)
        /\ List.length aggs
           = List.length (aggregates st) + List.length (filter Spec.recognised elements)).
Proof.
  intros elements.
  assert (Hstep : parse_parameter E st "_aggregate" v
                  = (aggs <- parse_aggregates elements (aggregates st) ;;
                     Ok (set_aggregates st aggs))) by reflexivity.
  destruct (parse_aggregates_spec elements (aggregates st)) as [Hok Hbad]. split.
  - intros H. rewrite Hstep, (Hbad H). reflexivity.
  - intros H. destruct (Hok H) as (r & Hr1 & Hr2). exists r. rewrite Hstep, Hr1.
    split; [reflexivity | exact Hr2].
Qed.

Lemma aggregate_directive_parsing_witness :
  parse_parameter Demo.collaborators no_directives "_aggregate" "()"
  = Raise (Http400 "Specify an alias for the aggregate")
  /\ exists aggs,
      parse_parameter Demo.collaborators no_directives "_aggregate"
        "('n':Count(*),'a':Avg(v),'s':Sum(v))"
      = Ok (set_aggregates no_directives aggs)
      /\ List.length aggs = 0 + 2.
Proof.
  split.
  - apply (proj1 (aggregate_directive_parsing Demo.collaborators no_directives "()")).
    reflexivity.
  - apply (proj2 (aggregate_directive_parsing Demo.collaborators no_directives
                    "('n':Count(*),'a':Avg(v),'s':Sum(v))")).
    reflexivity.
Defined.

(** ** [get_filter_functions_map] *)

Lemma compile_app_unknown (E : Collaborators) (pre post : list filter_spec) (f : filter_spec) :
  Forall (fun g => FILTER_NAMES E (filter_name g) <> None) pre ->
  FILTER_NAMES E (filter_name f) = None ->
  get_filter_functions_map E (pre ++ f :: post)%list
  = Raise (Http400 ("Unknown filter: " ++ filter_name f)).
Proof.
  intros Hpre Hf. induction Hpre as [|g pre Hg _ IH]; simpl.
  - rewrite Hf. reflexivity.
  - destruct (FILTER_NAMES E (filter_name g)); [|contradiction].
    rewrite IH. reflexivity.
Qed.

(** X4: an operator missing from the registry fails the query before any
    row is looked at: [execute] raises the unknown-filter error naming the
    first such operator, whatever the dataset holds. *)
Theorem unknown_operator_rejected (E : Collaborators) (self : Query)
        (parameters : ParameterMap) (d : directives)
        (pre post : list filter_spec) (f : filter_spec)
        (Hparse : parse_parameters E parameters = Ok d)
        (Hfilters : filters d = (pre ++ f :: post)%list)
        (Hpre : Forall (fun g => FILTER_NAMES E (filter_name g) <> None) pre)
        (Hunknown : FILTER_NAMES E (filter_name f) = None) :
  execute E self parameters = Raise (Http400 ("Unknown filter: " ++ filter_name f)).
Proof.
  unfold execute. rewrite Hparse. simpl.
  rewrite Hfilters, (compile_app_unknown E pre post f Hpre Hunknown). reflexivity.
Qed.

Lemma unknown_operator_rejected_witness :
  execute Demo.collaborators (Demo.federated_query 10)
    [("v", "5"); ("age__>=", "3"); ("other", "1")]
  = Raise (Http400 "Unknown filter: >=").
Proof.
  apply (unknown_operator_rejected Demo.collaborators (Demo.federated_query 10)
           [("v", "5"); ("age__>=", "3"); ("other", "1")]
           (append_filter
              (append_filter
                 (append_filter no_directives
                    {| field := "v"; filter_name := "equals"; filter_value := VInt 5 |})
                 {| field := "age"; filter_name := ">="; filter_value := VInt 3 |})
              {| field := "other"; filter_name := "equals"; filter_value := VInt 1 |})
           [{| field := "v"; filter_name := "equals"; filter_value := VInt 5 |}]
           [{| field := "other"; filter_name := "equals"; filter_value := VInt 1 |}]
           {| field := "age"; filter_name := ">="; filter_value := VInt 3 |}).
  - reflexivity.
  - reflexivity.
  - constructor; [discriminate | constructor].
  - reflexivity.
Defined.

(** X5: compiling changes nothing in the filter specs and loses none: the
    compiled list carries the same specs in the same order, each with an
    operation of the class registered under its operator name and bound
    to the spec's own field and value. *)
Theorem compile_keeps_specs (E : Collaborators) (fs : list filter_spec)
        (pfs : list post_filter)
        (Hcompile : get_filter_functions_map E fs = Ok pfs) :
  map spec pfs = fs
  /\ Forall (fun pf =>
               FILTER_NAMES E (filter_name (spec pf)) = Some (op_class (operation_of pf))
               /\ op_field (operation_of pf) = field (spec pf)
               /\ op_value (operation_of pf) = filter_value (spec pf)) pfs.
Proof.
  revert pfs Hcompile. induction fs as [|f fs IH]; intros pfs H.
  - injection H as <-. split; constructor.
  - simpl in H. destruct (FILTER_NAMES E (filter_name f)) as [id|] eqn:Hid; [|discriminate H].
    destruct (get_filter_functions_map E fs) as [rest|e]; [|discriminate H].
    injection H as <-. destruct (IH rest eq_refl) as [IH1 IH2]. split.
    + simpl. rewrite IH1. reflexivity.
    + constructor; [|exact IH2]. simpl. repeat split. exact Hid.
Qed.

Lemma compile_keeps_specs_witness :
  map spec [Demo.equals_filter "v" (VInt 5); Demo.equals_filter "id" (VInt 1)]
  = [ {| field := "v"; filter_name := "equals"; filter_value := VInt 5 |};
      {| field := "id"; filter_name := "equals"; filter_value := VInt 1 |} ].
Proof.
  apply (proj1 (compile_keeps_specs Demo.collaborators
                  [ {| field := "v"; filter_name := "equals"; filter_value := VInt 5 |};
                    {| field := "id"; filter_name := "equals"; filter_value := VInt 1 |} ]
                  [Demo.equals_filter "v" (VInt 5); Demo.equals_filter "id" (VInt 1)]
                  eq_refl)).
Defined.

(** ** The scan of one filter *)

Lemma scan_rows_enumerate (E : Collaborators) (self : Query) (parameters : ParameterMap)
      (pf : post_filter) (items : list item) :
  forall row_id acc m,
    scan_rows E self parameters pf row_id items acc = Val m ->
    m = (acc ++ map fst (filter (fun x => Spec.satisfies E self parameters pf (snd x))
                           (List.combine (seq row_id (List.length items)) items)))%list.
Proof.
  induction items as [|it items IH]; intros row_id acc m H.
  - injection H as <-. simpl. rewrite app_nil_r. reflexivity.
  - simpl in H. cbn [List.length seq List.combine filter snd]. unfold Spec.satisfies at 1.
    destruct (resolve_field E self parameters pf it) as [v| |]; try discriminate H.
    destruct (evaluate E (operation_of pf) v) as [[|]|e]; try discriminate H.
    + rewrite (IH _ _ _ H), <- app_assoc. reflexivity.
    + apply (IH _ _ _ H).
Qed.

Lemma scan_rows_total (E : Collaborators) (self : Query) (parameters : ParameterMap)
      (pf : post_filter) (items : list item) :
  Forall (Spec.scans E self parameters pf) items ->
  forall row_id acc, exists m, scan_rows E self parameters pf row_id items acc = Val m.
Proof.
  induction 1 as [|it items (v & b & Hv & Hb) _ IH]; intros row_id acc; simpl.
  - exists acc. reflexivity.
  - rewrite Hv, Hb. destruct b; apply IH.
Qed.

Lemma In_enumerate (l : list item) :
  forall a p it,
    In (p, it) (List.combine (seq a (List.length l)) l)
    <-> a <= p /\ nth_error l (p - a) = Some it.
Proof.
  induction l as [|x l IH]; intros a p it.
  - simpl. split; [intros [] | intros [_ H]]. destruct (p - a); discriminate H.
  - cbn [List.length seq List.combine In]. rewrite IH. split.
    + intros [[= <- <-]|[Hle Hn]].
      * split; [lia|]. rewrite Nat.sub_diag. reflexivity.
      * split; [lia|]. replace (p - a) with (S (p - S a)) by lia. exact Hn.
    + intros [Hle Hn]. destruct (p - a) as [|k] eqn:Hk.
      * left. injection Hn as <-. f_equal. lia.
      * right. split; [lia|]. replace (p - S a) with k by lia. exact Hn.
Qed.

Lemma filter_matches_In (E : Collaborators) (self : Query) (parameters : ParameterMap)
      (pf : post_filter) (m : list nat) :
  filter_matches E self parameters pf = Val m ->
  forall p, In p m <->
            exists it, nth_error (data self) p = Some it
                       /\ Spec.satisfies E self parameters pf it = true.
Proof.
  intros H p. unfold filter_matches in H.
  rewrite (scan_rows_enumerate E self parameters pf (data self) 0 [] m H).
  cbn [app]. rewrite in_map_iff. split.
  - intros ([q it] & Hq & Hin). simpl in Hq. subst q.
    apply filter_In in Hin. destruct Hin as [Hin Hs].
    apply In_enumerate in Hin. destruct Hin as [_ Hn]. rewrite Nat.sub_0_r in Hn.
    exists it. split; assumption.
  - intros (it & Hn & Hs). exists (p, it). split; [reflexivity|].
    apply filter_In. split; [|exact Hs].
    apply In_enumerate. split; [lia|]. rewrite Nat.sub_0_r. exact Hn.
Qed.

(** X6: when the scan of a filter runs to its end, its match-set is the
    enumeration of the dataset cut down to the rows that satisfy the
    filter, positions in dataset order: a position is in it exactly when
    the record there resolves to a value of which the predicate holds. *)
Theorem match_set_is_satisfying_positions (E : Collaborators) (self : Query)
        (parameters : ParameterMap) (pf : post_filter) (m : list nat)
        (Hscan : filter_matches E self parameters pf = Val m) :
  m = map fst (filter (fun x => Spec.satisfies E self parameters pf (snd x))
                 (List.combine (seq 0 (List.length (data self))) (data self)))
  /\ forall p, In p m <->
               exists it, nth_error (data self) p = Some it
                          /\ Spec.satisfies E self parameters pf it = true.
Proof.
  split.
  - apply (scan_rows_enumerate E self parameters pf (data self) 0 [] m Hscan).
  - apply filter_matches_In. exact Hscan.
Qed.

Lemma match_set_is_satisfying_positions_witness :
  [0; 2]
  = map fst (filter (fun x => Spec.satisfies Demo.collaborators (Demo.query 10) [("v", "5")]
                                (Demo.equals_filter "v" (VInt 5)) (snd x))
               (List.combine (seq 0 (List.length Demo.dataset)) Demo.dataset)).
Proof.
  apply (proj1 (match_set_is_satisfying_positions Demo.collaborators (Demo.query 10)
                  [("v", "5")] (Demo.equals_filter "v" (VInt 5)) [0; 2] eq_refl)).
Defined.

(** ** The combined set *)

Lemma match_sets_total (E : Collaborators) (self : Query) (parameters : ParameterMap)
      (fs : list post_filter) :
  Forall (fun pf => Forall (Spec.scans E self parameters pf) (data self)) fs ->
  exists ms, Spec.match_sets E self parameters fs = Some ms.
Proof.
  induction 1 as [|pf fs Hpf _ (ms & Hms)]; simpl.
  - exists []. reflexivity.
  - destruct (scan_rows_total E self parameters pf (data self) Hpf 0 []) as (m & Hm).
    unfold filter_matches. rewrite Hm, Hms. eexists. reflexivity.
Qed.

Lemma match_sets_Forall2 (E : Collaborators) (self : Query) (parameters : ParameterMap)
      (fs : list post_filter) :
  forall ms,
    Spec.match_sets E self parameters fs = Some ms ->
    Forall2 (fun pf m => filter_matches E self parameters pf = Val m) fs ms.
Proof.
  induction fs as [|pf fs IH]; intros ms H.
  - injection H as <-. constructor.
  - destruct (match_sets_cons E self parameters pf fs ms H) as (m & ms' & -> & Hm & Hms).
    constructor; [exact Hm | apply IH, Hms].
Qed.

Lemma run_filters_members (E : Collaborators) (self : Query) (parameters : ParameterMap)
      (j : JoinType) (Hlawful : PySet.lawful (set_order E)) (fs : list post_filter) :
  forall query_results survivors,
    run_filters E self parameters j fs query_results = Val survivors ->
    forall p, In p survivors ->
      In p query_results
      \/ exists pf m, In pf fs /\ filter_matches E self parameters pf = Val m /\ In p m.
Proof.
  induction fs as [|pf fs IH]; intros qr s H p Hp.
  - injection H as <-. left. exact Hp.
  - simpl in H. destruct (filter_matches E self parameters pf) as [m| |] eqn:Hm; try discriminate H.
    destruct (IH _ _ H p Hp) as [Hc|(pf' & m' & Hin & Hm' & Hp')].
    + assert (Hor : In p qr \/ In p m).
      { unfold combine in Hc. destruct qr as [|q qr].
        - right. apply (proj1 (of_list_In _ Hlawful _ _)) in Hc. exact Hc.
        - destruct j.
          + left. apply (proj1 (inter_In _ Hlawful _ _ _)) in Hc. apply Hc.
          + apply (proj1 (union_In _ Hlawful _ _ _)) in Hc. destruct Hc as [Hc|Hc]; [left; exact Hc|].
            right. apply (proj1 (of_list_In _ Hlawful _ _)) in Hc. exact Hc. }
      destruct Hor as [Hq|Hq]; [left; exact Hq|].
      right. exists pf, m. split; [left; reflexivity|]. split; assumption.
    + right. exists pf', m'. split; [right; exact Hin|]. split; assumption.
Qed.

(** X7: whatever the join type, a position that survives the filter loop
    is a position of the dataset, is held once, and its record satisfies at
    least one of the filters: no record that matches none of them gets
    through, also when an emptied set is seeded again. *)
Theorem survivors_satisfy_some_filter (E : Collaborators) (self : Query)
        (parameters : ParameterMap) (j : JoinType) (fs : list post_filter)
        (survivors : PySet.pyset)
        (Hlawful : PySet.lawful (set_order E))
        (Hrun : run_filters E self parameters j fs [] = Val survivors) :
  NoDup survivors
  /\ forall p, In p survivors ->
       exists it pf,
         nth_error (data self) p = Some it
         /\ In pf fs
         /\ Spec.satisfies E self parameters pf it = true.
Proof.
  split.
  - apply (run_filters_positions E self parameters j Hlawful fs [] survivors Hrun);
      [constructor | intros p []].
  - intros p Hp.
    destruct (run_filters_members E self parameters j Hlawful fs [] survivors Hrun p Hp)
      as [[]|(pf & m & Hin & Hm & Hpm)].
    apply (filter_matches_In E self parameters pf m Hm) in Hpm.
    destruct Hpm as (it & Hn & Hs). exists it, pf. repeat split; assumption.
Qed.

Lemma survivors_satisfy_some_filter_witness :
  NoDup [2]
  /\ forall p, In p [2] ->
       exists it pf,
         nth_error (data (Demo.query 10)) p = Some it
         /\ In pf [Demo.equals_filter "id" (VInt 1); Demo.equals_filter "v" (VInt 7);
                   Demo.equals_filter "id" (VInt 3)]
         /\ Spec.satisfies Demo.collaborators (Demo.query 10)
              [("id", "1"); ("v", "7"); ("id__equals", "3")] pf it = true.
Proof.
  apply (survivors_satisfy_some_filter Demo.collaborators (Demo.query 10)
           [("id", "1"); ("v", "7"); ("id__equals", "3")] JOIN_TYPE_AND
           [Demo.equals_filter "id" (VInt 1); Demo.equals_filter "v" (VInt 7);
            Demo.equals_filter "id" (VInt 3)]
           [2] slot_order_lawful eq_refl).
Defined.

Lemma match_sets_some_iff (E : Collaborators) (self : Query) (parameters : ParameterMap)
      (fs : list post_filter) (ms : list (list nat)) (p : nat) :
  Spec.match_sets E self parameters fs = Some ms ->
  ((exists m, In m ms /\ In p m)
   <-> exists it pf, nth_error (data self) p = Some it /\ In pf fs
                     /\ Spec.satisfies E self parameters pf it = true).
Proof.
  intros H. apply match_sets_Forall2 in H.
  induction H as [|pf m fs ms Hm _ IH].
  - split; [intros (m & [] & _) | intros (it & pf & _ & [] & _)].
  - split.
    + intros (m' & [<-|Hin] & Hp).
      * apply (filter_matches_In E self parameters pf m Hm) in Hp.
        destruct Hp as (it & Hn & Hs). exists it, pf. repeat split; [exact Hn | left; reflexivity | exact Hs].
      * destruct (proj1 IH (ex_intro _ m' (conj Hin Hp))) as (it & pf' & Hn & Hin' & Hs).
        exists it, pf'. repeat split; [exact Hn | right; exact Hin' | exact Hs].
    + intros (it & pf' & Hn & [<-|Hin] & Hs).
      * exists m. split; [left; reflexivity|].
        apply (filter_matches_In E self parameters pf m Hm). exists it. split; assumption.
      * destruct (proj2 IH (ex_intro _ it (ex_intro _ pf' (conj Hn (conj Hin Hs)))))
          as (m' & Hin' & Hp).
        exists m'. split; [right; exact Hin' | exact Hp].
Qed.

(** X8: under OR, when every filter's scan runs to its end, the filter
    loop ends with exactly the positions whose record satisfies at least
    one filter. *)
Theorem or_join_keeps_rows_satisfying_some (E : Collaborators) (self : Query)
        (parameters : ParameterMap) (fs : list post_filter)
        (Hlawful : PySet.lawful (set_order E))
        (Hscans : Forall (fun pf => Forall (Spec.scans E self parameters pf) (data self)) fs) :
  exists survivors,
    run_filters E self parameters JOIN_TYPE_OR fs [] = Val survivors
    /\ forall p, In p survivors <->
         exists it pf, nth_error (data self) p = Some it /\ In pf fs
                       /\ Spec.satisfies E self parameters pf it = true.
Proof.
  destruct (match_sets_total E self parameters fs Hscans) as (ms & Hms).
  destruct (run_filters_or_from E self parameters Hlawful fs ms [] Hms) as (s & Hrun & Hs).
  exists s. split; [exact Hrun|]. intros p.
  rewrite Hs, <- (match_sets_some_iff E self parameters fs ms p Hms).
  split; [intros [[]|H]; exact H | intros H; right; exact H].
Qed.

Lemma or_join_keeps_rows_satisfying_some_witness :
  exists survivors,
    run_filters Demo.collaborators (Demo.query 10) [("id", "1"); ("v", "7")] JOIN_TYPE_OR
      [Demo.equals_filter "id" (VInt 1); Demo.equals_filter "v" (VInt 7)] [] = Val survivors
    /\ forall p, In p survivors <->
         exists it pf, nth_error (data (Demo.query 10)) p = Some it
                       /\ In pf [Demo.equals_filter "id" (VInt 1); Demo.equals_filter "v" (VInt 7)]
                       /\ Spec.satisfies Demo.collaborators (Demo.query 10)
                            [("id", "1"); ("v", "7")] pf it = true.
Proof.
  apply (or_join_keeps_rows_satisfying_some Demo.collaborators (Demo.query 10)
           [("id", "1"); ("v", "7")]
           [Demo.equals_filter "id" (VInt 1); Demo.equals_filter "v" (VInt 7)]
           slot_order_lawful).
  repeat constructor; eexists; eexists; split; reflexivity.
Defined.

Lemma inter_all_from_In (ms : list (list nat)) :
  forall acc p,
    In p (fold_left (fun acc m => filter (fun x => PySet.mem x m) acc) ms acc)
    <-> In p acc /\ forall m, In m ms -> In p m.
Proof.
  induction ms as [|m ms IH]; intros acc p; simpl.
  - split; [intros H; split; [exact H | intros m []] | intros [H _]; exact H].
  - rewrite IH, filter_In, mem_In. split.
    + intros [[Ha Hm] Hall]. split; [exact Ha|]. intros m' [<-|Hin]; [exact Hm | apply Hall, Hin].
    + intros [Ha Hall]. split; [split; [exact Ha | apply Hall; left; reflexivity]|].
      intros m' Hin. apply Hall. right. exact Hin.
Qed.

Lemma never_empty_of_common (ms : list (list nat)) :
  forall acc p,
    In p acc -> (forall m, In m ms -> In p m) -> Spec.never_empty acc ms.
Proof.
  induction ms as [|m ms IH]; intros acc p Hp Hall; simpl.
  - exact I.
  - split.
    + intros ->. exact Hp.
    + apply (IH _ p).
      * apply filter_In. split; [exact Hp|]. apply mem_In, Hall. left. reflexivity.
      * intros m' Hin. apply Hall. right. exact Hin.
Qed.

Lemma match_sets_all_iff (E : Collaborators) (self : Query) (parameters : ParameterMap)
      (fs : list post_filter) (ms : list (list nat)) (p : nat) :
  Spec.match_sets E self parameters fs = Some ms ->
  fs <> [] ->
  ((forall m, In m ms -> In p m)
   <-> exists it, nth_error (data self) p = Some it
                  /\ forall pf, In pf fs -> Spec.satisfies E self parameters pf it = true).
Proof.
  intros H. apply match_sets_Forall2 in H.
  induction H as [|pf m fs ms Hm Hrest IH]; intros Hne; [contradiction|].
  assert (Hhead := filter_matches_In E self parameters pf m Hm p).
  destruct fs as [|pf' fs].
  - inversion Hrest; subst. split.
    + intros Hall. destruct (proj1 Hhead (Hall m (or_introl eq_refl))) as (it & Hn & Hs).
      exists it. split; [exact Hn|]. intros pf0 [<-|[]]. exact Hs.
    + intros (it & Hn & Hall) m' [<-|[]]. apply Hhead. exists it.
      split; [exact Hn | apply Hall; left; reflexivity].
  - assert (IH' := IH ltac:(discriminate)). split.
    + intros Hall.
      destruct (proj1 Hhead (Hall m (or_introl eq_refl))) as (it & Hn & Hs).
      destruct (proj1 IH' (fun m' Hin => Hall m' (or_intror Hin))) as (it' & Hn' & Hs').
      rewrite Hn in Hn'. injection Hn' as <-.
      exists it. split; [exact Hn|]. intros pf0 [<-|Hin]; [exact Hs | apply Hs', Hin].
    + intros (it & Hn & Hall) m' [<-|Hin].
      * apply Hhead. exists it. split; [exact Hn | apply Hall; left; reflexivity].
      * apply (proj2 IH'); [|exact Hin]. exists it. split; [exact Hn|].
        intros pf0 Hpf0. apply Hall. right. exact Hpf0.
Qed.

(** X9: under AND, when every filter's scan runs to its end and at least
    one record satisfies all filters, the filter loop ends with exactly
    the positions whose record satisfies every filter. *)
Theorem and_join_keeps_rows_satisfying_all (E : Collaborators) (self : Query)
        (parameters : ParameterMap) (fs : list post_filter)
        (Hlawful : PySet.lawful (set_order E))
        (Hfilters : fs <> [])
        (Hscans : Forall (fun pf => Forall (Spec.scans E self parameters pf) (data self)) fs)
        (Hcommon : exists p it,
            nth_error (data self) p = Some it
            /\ forall pf, In pf fs -> Spec.satisfies E self parameters pf it = true) :
  exists survivors,
    run_filters E self parameters JOIN_TYPE_AND fs [] = Val survivors
    /\ forall p, In p survivors <->
         exists it, nth_error (data self) p = Some it
                    /\ forall pf, In pf fs -> Spec.satisfies E self parameters pf it = true.
Proof.
  destruct (match_sets_total E self parameters fs Hscans) as (ms & Hms).
  assert (Hall := fun p => match_sets_all_iff E self parameters fs ms p Hms Hfilters).
  destruct ms as [|m ms].
  { destruct fs as [|pf fs]; [contradiction|].
    destruct (match_sets_cons E self parameters pf fs [] Hms) as (? & ? & Heq & _).
    discriminate Heq. }
  destruct Hcommon as (p0 & it0 & Hcommon).
  assert (Hp0 : forall m', In m' (m :: ms) -> In p0 m').
  { apply Hall. exists it0. exact Hcommon. }
  destruct (and_join_is_intersection_unless_emptied E self parameters fs m ms Hlawful Hms)
    as (s & Hrun & Hs).
  { apply (never_empty_of_common ms m p0).
    - apply Hp0. left. reflexivity.
    - intros m' Hin. apply Hp0. right. exact Hin. }
  exists s. split; [exact Hrun|]. intros p.
  rewrite (Hs p), <- (Hall p). unfold Spec.inter_all. rewrite inter_all_from_In. split.
  - intros [Hm Hrest] m' [<-|Hin]; [exact Hm | apply Hrest, Hin].
  - intros H. split; [apply H; left; reflexivity | intros m' Hin; apply H; right; exact Hin].
Qed.

Lemma and_join_keeps_rows_satisfying_all_witness :
  exists survivors,
    run_filters Demo.collaborators (Demo.query 10) [("id", "3"); ("v", "5")] JOIN_TYPE_AND
      [Demo.equals_filter "id" (VInt 3); Demo.equals_filter "v" (VInt 5)] [] = Val survivors
    /\ forall p, In p survivors <->
         exists it, nth_error (data (Demo.query 10)) p = Some it
                    /\ forall pf,
                        In pf [Demo.equals_filter "id" (VInt 3); Demo.equals_filter "v" (VInt 5)] ->
                        Spec.satisfies Demo.collaborators (Demo.query 10)
                          [("id", "3"); ("v", "5")] pf it = true.
Proof.
  apply (and_join_keeps_rows_satisfying_all Demo.collaborators (Demo.query 10)
           [("id", "3"); ("v", "5")]
           [Demo.equals_filter "id" (VInt 3); Demo.equals_filter "v" (VInt 5)]
           slot_order_lawful).
  - discriminate.
  - repeat constructor; eexists; eexists; split; reflexivity.
  - exists 2, {| row := Demo.record 3 5 |}. split; [reflexivity|].
    intros pf [<-|[<-|[]]]; reflexivity.
Defined.

(** ** [Query.get_data] inside [execute] *)

Lemma rows_at_In (queryset : list item) (positions : list nat) (r : value) :
  (forall p, In p positions -> p < List.length queryset) ->
  In r (Spec.rows_at queryset positions) ->
  exists p it, In p positions /\ nth_error queryset p = Some it /\ row it = r.
Proof.
  intros Hrange Hin. unfold Spec.rows_at in Hin. apply in_map_iff in Hin.
  destruct Hin as (p & Hr & Hp). exists p, (nth p queryset {| row := VNone |}).
  split; [exact Hp|]. split; [|exact Hr].
  apply nth_error_nth'. apply Hrange, Hp.
Qed.

Lemma firstn_In (n : nat) (l : list nat) (p : nat) : In p (firstn n l) -> In p l.
Proof.
  intros H. rewrite <- (firstn_skipn n l). apply in_or_app. left. exact H.
Qed.

(** X10: with at least one filter, retrieval from the set the filter loop
    produced cannot fail, and every row it returns is the payload of a
    surviving position. *)
Theorem retrieval_returns_survivors (E : Collaborators) (self : Query)
        (parameters : ParameterMap) (j : JoinType) (fs : list post_filter)
        (f : filter_spec) (specs : list filter_spec) (survivors : PySet.pyset)
        (Hlawful : PySet.lawful (set_order E))
        (Hrun : run_filters E self parameters j fs [] = Val survivors) :
  exists rows,
    get_data self (data self) (f :: specs) survivors = Ok rows
    /\ List.length rows <= List.length survivors
    /\ forall r, In r rows ->
         exists p it, In p survivors /\ nth_error (data self) p = Some it /\ row it = r.
Proof.
  destruct (run_filters_positions E self parameters j Hlawful fs [] survivors Hrun)
    as [_ Hrange]; [constructor | intros p [] |].
  eexists. split; [apply get_data_rows_at, Hrange|]. split.
  - unfold Spec.rows_at. rewrite length_map.
    destruct (List.length survivors =? 1)%nat; [lia | rewrite length_firstn; lia].
  - intros r Hr.
    destruct (List.length survivors =? 1)%nat.
    + apply (rows_at_In (data self) survivors r Hrange Hr).
    + destruct (rows_at_In (data self) (firstn (limit self) survivors) r) as (p & it & Hp & H).
      * intros p Hp. apply Hrange. apply (firstn_In _ _ _ Hp).
      * exact Hr.
      * exists p, it. split; [apply (firstn_In _ _ _ Hp) | exact H].
Qed.

Lemma retrieval_returns_survivors_witness :
  exists rows,
    get_data (Demo.query 1) (data (Demo.query 1))
      [{| field := "v"; filter_name := "equals"; filter_value := VInt 5 |}] [0; 2] = Ok rows
    /\ List.length rows <= List.length [0; 2]
    /\ forall r, In r rows ->
         exists p it, In p [0; 2] /\ nth_error (data (Demo.query 1)) p = Some it /\ row it = r.
Proof.
  apply (retrieval_returns_survivors Demo.collaborators (Demo.query 1) [("v", "5")]
           JOIN_TYPE_AND [Demo.equals_filter "v" (VInt 5)]
           {| field := "v"; filter_name := "equals"; filter_value := VInt 5 |} [] [0; 2]
           slot_order_lawful eq_refl).
Defined.

(** X20: retrieval returns at most [limit] rows whenever there is no
    filter or the number of surviving positions is not one; the slice is
    applied to the survivors in the order in which the set iterates. *)
Theorem retrieval_respects_limit (self : Query) (queryset : list item)
        (specs : list filter_spec) (survivors : PySet.pyset) (rows : list value)
        (Hcase : specs = [] \/ List.length survivors <> 1)
        (Hok : get_data self queryset specs survivors = Ok rows) :
  List.length rows <= limit self.
Proof.
  destruct Hcase as [-> | Hlen].
  - injection Hok as <-. rewrite length_map. apply firstn_le_length.
  - apply (get_data_limited_unless_single self queryset specs survivors rows Hlen Hok).
Qed.

Lemma retrieval_respects_limit_witness :
  List.length [Demo.record 1 5] <= limit (Demo.query 1).
Proof.
  apply (retrieval_respects_limit (Demo.query 1) Demo.dataset
           [{| field := "v"; filter_name := "equals"; filter_value := VInt 5 |}] [0; 2]
           [Demo.record 1 5]).
  - right. discriminate.
  - reflexivity.
Defined.

(** ** Failures inside the filter loop *)

Lemma scan_rows_at (E : Collaborators) (self : Query) (parameters : ParameterMap)
      (pf : post_filter) (before after : list item) (it : item) (matched : list nat) :
  scan_rows E self parameters pf 0 before [] = Val matched ->
  scan_rows E self parameters pf 0 (before ++ it :: after)%list []
  = match resolve_field E self parameters pf it with
    | Val v =>
        match evaluate E (operation_of pf) v with
        | Ok true =>
            scan_rows E self parameters pf (S (List.length before)) after
              (matched ++ [List.length before])%list
        | Ok false => scan_rows E self parameters pf (S (List.length before)) after matched
        | Raise e => Throw e
        end
    | Return r => Return r
    | Throw e => Throw e
    end.
Proof.
  intros H. rewrite scan_rows_app, H. reflexivity.
Qed.

Lemma execute_filter_throws (E : Collaborators) (self : Query) (parameters : ParameterMap)
      (d : directives) (pre post : list post_filter) (pf : post_filter)
      (survivors : PySet.pyset) (e : exn) :
  parse_parameters E parameters = Ok d ->
  get_filter_functions_map E (filters d) = Ok (pre ++ pf :: post)%list ->
  run_filters E self parameters (join_type d) pre [] = Val survivors ->
  filter_matches E self parameters pf = Throw e ->
  execute E self parameters = Raise e.
Proof.
  intros Hparse Hcompile Hpre Hthrow.
  unfold execute. rewrite Hparse. simpl. rewrite Hcompile. simpl.
  rewrite run_filters_app, Hpre. cbn [run_filters]. rewrite Hthrow. reflexivity.
Qed.

Lemma getitem_raises (v : value) (part : string) (e : exn) :
  getitem v part = Raise e -> e = KeyError part \/ e = TypeError.
Proof.
  destruct v; simpl; try (intros [= <-]; right; reflexivity).
  destruct (dict_get String.eqb part entries); [discriminate|].
  intros [= <-]. left. reflexivity.
Qed.

(** X11: a path whose first segment resolves and whose second segment is
    missing from the value found, or is applied to a value that is no
    mapping, makes [execute] fail with the invalid-element error naming
    the whole field at the first such row; no sibling dataset is asked. *)
Theorem nested_lookup_failure_invalid_element (E : Collaborators) (self : Query)
        (parameters : ParameterMap) (d : directives)
        (pre post : list post_filter) (pf : post_filter)
        (before after : list item) (it : item)
        (survivors : PySet.pyset) (matched : list nat)
        (seg part : string) (rest : list string) (v : value) (e' : exn)
        (Hparse : parse_parameters E parameters = Ok d)
        (Hcompile : get_filter_functions_map E (filters d) = Ok (pre ++ pf :: post)%list)
        (Hpre : run_filters E self parameters (join_type d) pre [] = Val survivors)
        (Hdata : data self = (before ++ it :: after)%list)
        (Hscan : scan_rows E self parameters pf 0 before [] = Val matched)
        (Hpath : PyStr.split (field (spec pf)) "." = seg :: part :: rest)
        (Hseg : Spec.looked_up seg)
        (Hpart : Spec.looked_up part)
        (Hfirst : getitem (row it) seg = Ok v)
        (Hsecond : getitem v part = Raise e') :
  execute E self parameters = Raise (Http400 ("Invalid element: " ++ field (spec pf))).
Proof.
  apply (execute_filter_throws E self parameters d pre post pf survivors _ Hparse Hcompile Hpre).
  unfold filter_matches. rewrite Hdata, (scan_rows_at E self parameters pf before after it matched Hscan).
  assert (Hres : resolve_field E self parameters pf it
                 = Throw (Http400 ("Invalid element: " ++ field (spec pf)))).
  { unfold resolve_field. rewrite Hpath. cbn [resolve_parts].
    rewrite (resolve_part_looked_up E self parameters _ 0 seg (row it) Hseg), Hfirst.
    rewrite (resolve_part_looked_up E self parameters _ 1 part v Hpart), Hsecond.
    destruct (getitem_raises v part e' Hsecond) as [-> | ->]; reflexivity. }
  rewrite Hres. reflexivity.
Qed.

Lemma nested_lookup_failure_invalid_element_witness :
  execute Demo.collaborators Demo.nested_query [("v.x", "5")]
  = Raise (Http400 "Invalid element: v.x")
  /\ execute Demo.collaborators (Demo.query 10) [("v.x", "5")]
     = Raise (Http400 "Invalid element: v.x").
Proof.
  split.
  - refine (nested_lookup_failure_invalid_element Demo.collaborators Demo.nested_query
              [("v.x", "5")] _ [] [] (Demo.equals_filter "v.x" (VInt 5)) [] [] _ [] []
              "v" "x" [] (VDict [("w", VInt 5)]) (KeyError "x")
              eq_refl eq_refl eq_refl eq_refl eq_refl eq_refl _ _ eq_refl eq_refl);
      repeat split; discriminate.
  - refine (nested_lookup_failure_invalid_element Demo.collaborators (Demo.query 10)
              [("v.x", "5")] _ [] [] (Demo.equals_filter "v.x" (VInt 5)) [] _ _ [] []
              "v" "x" [] (VInt 5) TypeError
              eq_refl eq_refl eq_refl eq_refl eq_refl eq_refl _ _ eq_refl eq_refl);
      repeat split; discriminate.
Defined.

(** X12: the handler around the field resolution does not cover the
    predicate: an exception raised by [evaluate] at the first row where
    that happens leaves [execute] as it is, whatever its class. *)
Theorem predicate_exception_propagates (E : Collaborators) (self : Query)
        (parameters : ParameterMap) (d : directives)
        (pre post : list post_filter) (pf : post_filter)
        (before after : list item) (it : item)
        (survivors : PySet.pyset) (matched : list nat) (v : value) (e : exn)
        (Hparse : parse_parameters E parameters = Ok d)
        (Hcompile : get_filter_functions_map E (filters d) = Ok (pre ++ pf :: post)%list)
        (Hpre : run_filters E self parameters (join_type d) pre [] = Val survivors)
        (Hdata : data self = (before ++ it :: after)%list)
        (Hscan : scan_rows E self parameters pf 0 before [] = Val matched)
        (Hvalue : resolve_field E self parameters pf it = Val v)
        (Hraise : evaluate E (operation_of pf) v = Raise e) :
  execute E self parameters = Raise e.
Proof.
  apply (execute_filter_throws E self parameters d pre post pf survivors _ Hparse Hcompile Hpre).
  unfold filter_matches.
  rewrite Hdata, (scan_rows_at E self parameters pf before after it matched Hscan).
  rewrite Hvalue, Hraise. reflexivity.
Qed.

Lemma predicate_exception_propagates_witness :
  execute Demo.strict_collaborators (Demo.query 10) [("records", "5")] = Raise TypeError.
Proof.
  refine (predicate_exception_propagates Demo.strict_collaborators (Demo.query 10)
            [("records", "5")] _ [] [] (Demo.equals_filter "records" (VInt 5)) [] _ _ [] []
            (Demo.record 1 5) TypeError
            eq_refl eq_refl eq_refl eq_refl eq_refl eq_refl eq_refl).
Defined.

(** ** Which failures are bad requests *)

Lemma parse_aggregates_raises (elements : list string) (acc : list aggregate) (e : exn) :
  parse_aggregates elements acc = Raise e -> is_bad_request e = true.
Proof.
  intros H. destruct (parse_aggregates_spec elements acc) as [Hok Hbad].
  destruct (forallb Spec.has_alias elements).
  - destruct (Hok eq_refl) as (r & Hr & _). congruence.
  - rewrite (Hbad eq_refl) in H. injection H as <-. reflexivity.
Qed.

Lemma parse_parameter_raises (E : Collaborators) (st : directives) (p v : string) (e : exn) :
  (forall x e', parse_value E x = Raise e' -> e' = IndexError \/ is_bad_request e' = true) ->
  parse_parameter E st p v = Raise e -> is_bad_request e = true.
Proof.
  intros Hpv. unfold parse_parameter.
  destruct (PyStr.startswith p LQL_DELIMITER); cbn [negb].
  - destruct (p =? LQL_DELIMITER ++ "join").
    { destruct (PyStr.upper v =? "OR"); discriminate. }
    destruct (p =? LQL_DELIMITER ++ "fields"); [discriminate|].
    destruct (p =? LQL_DELIMITER ++ "group_by"); [discriminate|].
    destruct (p =? LQL_DELIMITER ++ "aggregate"); [|discriminate].
    destruct (parse_aggregates _ _) as [r|e0] eqn:Ha; simpl; [discriminate|].
    intros [= <-]. apply (parse_aggregates_raises _ _ _ Ha).
  - destruct (parse_value E v) as [x|e0] eqn:Hv.
    + simpl. destruct (negb (PyStr.contains DOUBLE_DELIMITER p)); [discriminate|].
      destruct (PyStr.split p DOUBLE_DELIMITER) as [|a [|b [|c l]]];
        try discriminate; intros [= <-]; reflexivity.
    + destruct (Hpv v e0 Hv) as [-> | Hbad].
      * simpl. intros [= <-]. reflexivity.
      * destruct e0; simpl in *; try discriminate Hbad. intros [= <-]. reflexivity.
Qed.

Lemma parse_loop_raises (E : Collaborators) (items : ParameterMap) (e : exn) :
  (forall x e', parse_value E x = Raise e' -> e' = IndexError \/ is_bad_request e' = true) ->
  forall st, parse_loop E st items = Raise e -> is_bad_request e = true.
Proof.
  intros Hpv. induction items as [|[p v] items IH]; intros st H; [discriminate H|].
  simpl in H. destruct (parse_parameter E st p v) as [st1|e0] eqn:Hp; simpl in H.
  - apply (IH st1 H).
  - injection H as <-. apply (parse_parameter_raises E st p v e0 Hpv Hp).
Qed.

Lemma parse_parameter_groups (E : Collaborators) (st st' : directives) (p v : string) :
  parse_parameter E st p v = Ok st' ->
  p <> "_group_by" ->
  groups st' = groups st.
Proof.
  unfold parse_parameter. intros H Hp. revert H.
  destruct (PyStr.startswith p LQL_DELIMITER); cbn [negb].
  - destruct (p =? LQL_DELIMITER ++ "join").
    { destruct (PyStr.upper v =? "OR"); intros [= <-]; reflexivity. }
    destruct (p =? LQL_DELIMITER ++ "fields"); [intros [= <-]; reflexivity|].
    destruct (p =? LQL_DELIMITER ++ "group_by") eqn:Hg.
    { apply String.eqb_eq in Hg. contradiction. }
    destruct (p =? LQL_DELIMITER ++ "aggregate"); [|intros [= <-]; reflexivity].
    destruct (parse_aggregates _ _); simpl; intros [= <-]; reflexivity.
  - destruct (parse_value E v) as [x|e]; [|destruct e; simpl; discriminate].
    simpl. destruct (negb (PyStr.contains DOUBLE_DELIMITER p)); [intros [= <-]; reflexivity|].
    destruct (PyStr.split p DOUBLE_DELIMITER) as [|a [|b [|c l]]]; try discriminate.
    intros [= <-]; reflexivity.
Qed.

Lemma parse_loop_groups (E : Collaborators) (items : ParameterMap) :
  (forall v, ~ In ("_group_by", v) items) ->
  forall st d, parse_loop E st items = Ok d -> groups d = groups st.
Proof.
  induction items as [|[p v] items IH]; intros Hno st d H.
  - injection H as <-. reflexivity.
  - simpl in H. destruct (parse_parameter E st p v) as [st1|e] eqn:Hp; [|discriminate H].
    simpl in H. rewrite (IH (fun w Hin => Hno w (or_intror Hin)) st1 d H).
    apply (parse_parameter_groups E st st1 p v Hp).
    intros ->. apply (Hno v). left. reflexivity.
Qed.

Lemma compile_raises (E : Collaborators) (fs : list filter_spec) (e : exn) :
  get_filter_functions_map E fs = Raise e -> is_bad_request e = true.
Proof.
  induction fs as [|f fs IH]; simpl; [discriminate|].
  destruct (FILTER_NAMES E (filter_name f)); [|intros [= <-]; reflexivity].
  destruct (get_filter_functions_map E fs); simpl; [discriminate|].
  intros [= <-]. apply IH. reflexivity.
Qed.

Section Classified.
Variable E : Collaborators.
Variable self : Query.
Variable parameters : ParameterMap.
Hypothesis Hwb : Spec.well_behaved E self parameters.

Lemma lift_classified (r : result value) (e : exn) :
  (forall e', r = Raise e' -> Spec.classified e') ->
  lift r = Throw e -> Spec.classified e.
Proof.
  intros H. destruct r as [x|e0]; simpl; [discriminate|].
  intros [= <-]. apply H. reflexivity.
Qed.

Lemma resolve_part_classified (field : string) (index : nat) (part : string)
      (v : value) (e : exn) :
  resolve_part E self parameters field index part v = Throw e -> Spec.classified e.
Proof.
  unfold resolve_part.
  destruct (part =? "_length"); [apply lift_classified; intros e'; apply (Spec.wb_length Hwb)|].
  destruct (part =? "_area"); [apply lift_classified; intros e'; apply (Spec.wb_area Hwb)|].
  destruct (part =? "_type"); [apply lift_classified; intros e'; apply (Spec.wb_geom_type Hwb)|].
  destruct (getitem v part) as [x|e0] eqn:Hg; [discriminate|].
  destruct (getitem_raises v part e0 Hg) as [-> | ->].
  - unfold on_key_error. destruct (index =? 0)%nat.
    + destruct (slug self) as [own|]; [|intros [= <-]; right; left; reflexivity].
      destruct (negb (part =? own)); [|discriminate].
      destruct (get_subclass (klass self) part) as [source|] eqn:Hs;
        [|intros [= <-]; left; reflexivity].
      destruct (get_all source parameters) as [r|e0] eqn:Ha; [discriminate|].
      intros [= <-]. eapply (Spec.wb_sibling Hwb); eassumption.
    + intros [= <-]. left. reflexivity.
  - intros [= <-]. right. right. reflexivity.
Qed.

Lemma resolve_parts_classified (field : string) (parts : list string) :
  forall index v e,
    resolve_parts E self parameters field index parts v = Throw e -> Spec.classified e.
Proof.
  induction parts as [|part parts IH]; intros index v e; simpl; [discriminate|].
  destruct (resolve_part E self parameters field index part v) as [x| |e0] eqn:Hp.
  - apply IH.
  - discriminate.
  - intros [= <-]. apply (resolve_part_classified field index part v e0 Hp).
Qed.

Lemma resolve_field_raises (pf : post_filter) (it : item) (e : exn) :
  resolve_field E self parameters pf it = Throw e -> is_bad_request e = true.
Proof.
  unfold resolve_field.
  destruct (resolve_parts E self parameters (field (spec pf)) 0
              (PyStr.split (field (spec pf)) ".") (row it)) as [x| |e0] eqn:Hr;
    simpl; try discriminate.
  destruct (resolve_parts_classified _ _ _ _ _ Hr) as [Hb|[-> | ->]].
  - destruct e0; simpl in Hb; try discriminate Hb. intros [= <-]. reflexivity.
  - intros [= <-]. reflexivity.
  - intros [= <-]. reflexivity.
Qed.

Lemma scan_rows_raises (pf : post_filter) (items : list item) (e : exn) :
  forall row_id acc,
    scan_rows E self parameters pf row_id items acc = Throw e -> is_bad_request e = true.
Proof.
  induction items as [|it items IH]; intros row_id acc; simpl; [discriminate|].
  destruct (resolve_field E self parameters pf it) as [v| |e0] eqn:Hr.
  - destruct (evaluate E (operation_of pf) v) as [[|]|e0] eqn:Hv; try apply IH.
    intros [= <-]. eapply (Spec.wb_evaluate Hwb); eassumption.
  - discriminate.
  - intros [= <-]. apply (resolve_field_raises pf it e0 Hr).
Qed.

Lemma run_filters_raises (j : JoinType) (fs : list post_filter) (e : exn) :
  forall qr, run_filters E self parameters j fs qr = Throw e -> is_bad_request e = true.
Proof.
  induction fs as [|pf fs IH]; intros qr; simpl; [discriminate|].
  destruct (filter_matches E self parameters pf) as [m| |e0] eqn:Hm.
  - apply IH.
  - discriminate.
  - intros [= <-]. apply (scan_rows_raises pf (data self) e0 0 [] Hm).
Qed.

Lemma aggregate_flat_raises (aggs : list aggregate) (rows : list value) (e : exn) :
  forall acc, aggregate_flat E aggs rows acc = Raise e -> is_bad_request e = true.
Proof.
  induction aggs as [|a aggs IH]; intros acc; simpl; [discriminate|].
  destruct (aggregate_execute E (function a) rows) as [v|e0] eqn:Hv; simpl.
  - apply IH.
  - intros [= <-]. destruct (function a); simpl in Hv; [discriminate Hv|].
    eapply (Spec.wb_sum Hwb); eassumption.
Qed.

Lemma process_field_filtering_raises (d : QueryResult) (fq : option (list string)) (e : exn) :
  process_field_filtering E d fq = Raise e -> is_bad_request e = true.
Proof.
  unfold process_field_filtering. destruct fq as [[|x fq]|]; try discriminate.
  destruct (jsonq_query E (x :: fq) d) as [r|e0] eqn:Hj; [discriminate|].
  destruct (Spec.wb_jsonq Hwb _ _ Hj) as [Hb|[m ->]].
  - destruct e0; simpl in Hb; try discriminate Hb. intros [= <-]. reflexivity.
  - intros [= <-]. reflexivity.
Qed.

End Classified.

Lemma get_data_in_execute (E : Collaborators) (self : Query) (parameters : ParameterMap)
      (j : JoinType) (fs : list post_filter) (specs : list filter_spec)
      (survivors : PySet.pyset) :
  PySet.lawful (set_order E) ->
  run_filters E self parameters j fs [] = Val survivors ->
  exists rows, get_data self (data self) specs survivors = Ok rows.
Proof.
  intros Hlawful Hrun. destruct specs as [|f specs].
  - eexists. reflexivity.
  - destruct (run_filters_positions E self parameters j Hlawful fs [] survivors Hrun)
      as [_ Hrange]; [constructor | intros p [] |].
    eexists. apply get_data_rows_at, Hrange.
Qed.

(** X13: without a [_group_by] directive, and with collaborators whose
    own failures are of the classes the engine handles, every exception
    that leaves [execute] is a bad request: parsing, operator lookup,
    field resolution, retrieval, ungrouped aggregation and projection let
    nothing else through. *)
Theorem failures_without_grouping_are_bad_requests (E : Collaborators) (self : Query)
        (parameters : ParameterMap) (e : exn)
        (Hwb : Spec.well_behaved E self parameters)
        (Hnogroup : forall v, ~ In ("_group_by", v) parameters)
        (Hraise : execute E self parameters = Raise e) :
  is_bad_request e = true.
Proof.
  unfold execute in Hraise.
  destruct (parse_parameters E parameters) as [d|e0] eqn:Hparse; simpl in Hraise.
  2:{ injection Hraise as <-.
      apply (parse_loop_raises E parameters e0 (Spec.wb_parse_value Hwb) no_directives Hparse). }
  assert (Hgroups : groups d = []).
  { apply (parse_loop_groups E parameters Hnogroup no_directives d Hparse). }
  destruct (get_filter_functions_map E (filters d)) as [fs|e0] eqn:Hcompile; simpl in Hraise.
  2:{ injection Hraise as <-. apply (compile_raises E (filters d) e0 Hcompile). }
  destruct (run_filters E self parameters (join_type d) fs []) as [s|r|e0] eqn:Hrun.
  - destruct (get_data_in_execute E self parameters (join_type d) fs (filters d) s
                (Spec.wb_set_order Hwb) Hrun) as (rows & Hrows).
    rewrite Hrows, Hgroups in Hraise. simpl in Hraise.
    destruct (aggregates d) as [|a aggs].
    + simpl in Hraise.
      apply (process_field_filtering_raises E self parameters Hwb _ _ _ Hraise).
    + cbn [process_aggregates] in Hraise.
      destruct (aggregate_flat E (a :: aggs) rows []) as [flat|e0] eqn:Hflat.
      * simpl in Hraise.
        apply (process_field_filtering_raises E self parameters Hwb _ _ _ Hraise).
      * simpl in Hraise. injection Hraise as <-.
        apply (aggregate_flat_raises E self parameters Hwb _ _ _ _ Hflat).
  - discriminate Hraise.
  - injection Hraise as <-. apply (run_filters_raises E self parameters Hwb _ _ _ _ Hrun).
Qed.

Lemma plain_parse_value_raises (x : string) (e : exn) :
  Demo.parse_value x = Raise e -> e = IndexError \/ is_bad_request e = true.
Proof.
  destruct x as [|c x]; unfold Demo.parse_value.
  - intros [= <-]. left. reflexivity.
  - destruct (Demo.digits (String c x) 0); intros H; discriminate H.
Qed.

Lemma plain_collaborators_well_behaved (limit : nat) (parameters : ParameterMap) :
  Spec.well_behaved Demo.plain_collaborators (Demo.query limit) parameters.
Proof.
  constructor; simpl.
  - apply plain_parse_value_raises.
  - intros op v e. unfold Demo.evaluate. discriminate.
  - intros v e [= <-]. right. left. reflexivity.
  - intros v e [= <-]. right. left. reflexivity.
  - intros v e [= <-]. right. left. reflexivity.
  - discriminate.
  - discriminate.
  - discriminate.
  - apply slot_order_lawful.
Qed.

Lemma failures_without_grouping_are_bad_requests_witness :
  is_bad_request (Http400 "Invalid element: v._area") = true.
Proof.
  apply (failures_without_grouping_are_bad_requests Demo.plain_collaborators (Demo.query 10)
           [("_area", "5"); ("v._area", "5")] (Http400 "Invalid element: v._area")
           (plain_collaborators_well_behaved 10 _)).
  - intros v [H|[H|[]]]; discriminate H.
  - reflexivity.
Defined.

(** ** [Query.process_groups] *)

Lemma decorate_raises (group : string) (rows : list value) (e : exn) :
  decorate group rows = Raise e -> e = KeyError group \/ e = TypeError.
Proof.
  induction rows as [|r rows IH]; simpl; [discriminate|].
  destruct (getitem r group) as [v|e0] eqn:Hv; simpl.
  - destruct (decorate group rows); simpl; [discriminate|].
    intros [= <-]. apply IH. reflexivity.
  - intros [= <-]. apply (getitem_raises r group e0 Hv).
Qed.

Lemma hash_keys_raises (l : list (value * value)) (e : exn) :
  hash_keys l = Raise e -> e = TypeError.
Proof.
  induction l as [|[k r] l IH]; simpl; [discriminate|].
  destruct (hash_key k); [|intros [= <-]; reflexivity].
  destruct (hash_keys l); simpl; [discriminate|].
  intros [= <-]. apply IH. reflexivity.
Qed.

Lemma group_rows_raises (group : string) (rows : list value) (e : exn) :
  group_rows group rows = Raise e -> e = KeyError group \/ e = TypeError.
Proof.
  unfold group_rows.
  destruct (decorate group rows) as [dec|e0] eqn:Hd; simpl.
  - destruct (hash_keys dec) as [keyed|e0] eqn:Hk; simpl; [discriminate|].
    intros [= <-]. right. apply (hash_keys_raises dec e0 Hk).
  - intros [= <-]. apply (decorate_raises group rows e0 Hd).
Qed.

Lemma keyed_rows_carry (group : string) (rows : list value) :
  forall decorated keyed,
    decorate group rows = Ok decorated ->
    hash_keys decorated = Ok keyed ->
    Forall (Spec.carries_key group) rows.
Proof.
  induction rows as [|r rows IH]; intros decorated keyed Hd Hk; [constructor|].
  simpl in Hd. destruct (getitem r group) as [v|e] eqn:Hv; [|discriminate Hd].
  simpl in Hd. destruct (decorate group rows) as [dec|e] eqn:Hd'; [|discriminate Hd].
  injection Hd as <-. simpl in Hk.
  destruct (hash_key v) as [k|] eqn:Hh; [|discriminate Hk].
  destruct (hash_keys dec) as [keyed'|e] eqn:Hk'; [|discriminate Hk].
  constructor.
  - exists v, k. split; assumption.
  - apply (IH dec keyed' eq_refl Hk').
Qed.

(** X14: when some row is no mapping, lacks the group field, or holds an
    unhashable value there, grouping by that field raises [KeyError]
    naming the field or [TypeError]: grouping never fails with a bad
    request. *)
Theorem grouping_fails_unclassified (group : string) (rows : list value)
        (Hsome : ~ Forall (Spec.carries_key group) rows) :
  exists e,
    group_rows group rows = Raise e
    /\ (e = KeyError group \/ e = TypeError)
    /\ is_bad_request e = false.
Proof.
  destruct (group_rows group rows) as [grouping|e] eqn:Hg.
  - exfalso. apply Hsome. unfold group_rows in Hg.
    destruct (decorate group rows) as [dec|e] eqn:Hd; [|discriminate Hg].
    simpl in Hg. destruct (hash_keys dec) as [keyed|e] eqn:Hk; [|discriminate Hg].
    apply (keyed_rows_carry group rows dec keyed Hd Hk).
  - exists e. split; [reflexivity|].
    destruct (group_rows_raises group rows e Hg) as [-> | ->]; split; auto.
Qed.

Lemma grouping_fails_unclassified_witness :
  exists e,
    group_rows "v" [Demo.record 1 5; VDict [("id", VInt 2); ("v", VList [VInt 7])]] = Raise e
    /\ (e = KeyError "v" \/ e = TypeError)
    /\ is_bad_request e = false.
Proof.
  apply (grouping_fails_unclassified "v"
           [Demo.record 1 5; VDict [("id", VInt 2); ("v", VList [VInt 7])]]).
  intros H. inversion H as [|? ? _ H2]; subst.
  inversion H2 as [|? ? (v & k & Hv & Hk) _]; subst.
  injection Hv as <-. discriminate Hk.
Defined.

(** X15: with group-by fields requested, [process_groups] files under each
    requested field the grouping of all the rows by that field, each field
    on its own, and binds no other name. *)
Theorem process_groups_binds_each_field (rows : list value) (groups : list string)
        (r : QueryResult)
        (Hgroups : groups <> [])
        (Hok : process_groups rows groups = Ok r) :
  exists g,
    r = Groups g
    /\ (forall group, In group groups ->
          exists grouping, dict_get String.eqb group g = Some grouping
                           /\ group_rows group rows = Ok grouping)
    /\ (forall group, ~ In group groups -> dict_get String.eqb group g = None).
Proof.
  destruct groups as [|g0 groups]; [contradiction|].
  unfold process_groups in Hok.
  destruct (group_loop rows (g0 :: groups) []) as [g|e] eqn:Hloop; [|discriminate Hok].
  injection Hok as <-. exists g. split; [reflexivity|]. split.
  - intros group Hin. apply (proj1 (group_loop_lookup rows (g0 :: groups) [] g Hloop group) Hin).
  - intros group Hnot.
    apply (proj2 (group_loop_lookup rows (g0 :: groups) [] g Hloop group) Hnot).
Qed.

Lemma process_groups_binds_each_field_witness :
  exists g,
    Groups [("v", [(KNum 5, [Demo.record 1 5; Demo.record 3 5]); (KNum 7, [Demo.record 2 7])]);
            ("id", [(KNum 1, [Demo.record 1 5]); (KNum 2, [Demo.record 2 7]);
                    (KNum 3, [Demo.record 3 5])])]
    = Groups g
    /\ (forall group, In group ["v"; "id"; "v"] ->
          exists grouping,
            dict_get String.eqb group g = Some grouping
            /\ group_rows group [Demo.record 1 5; Demo.record 2 7; Demo.record 3 5] = Ok grouping)
    /\ (forall group, ~ In group ["v"; "id"; "v"] -> dict_get String.eqb group g = None).
Proof.
  apply (process_groups_binds_each_field
           [Demo.record 1 5; Demo.record 2 7; Demo.record 3 5] ["v"; "id"; "v"]).
  - discriminate.
  - reflexivity.
Defined.

Lemma demo_rows_ordered :
  Forall (Spec.carries_ordered_key "v") [Demo.record 1 5; Demo.record 2 7; Demo.record 3 5].
Proof.
  repeat constructor; eexists; eexists; (split; [reflexivity|]); split;
    try reflexivity; discriminate.
Defined.

Lemma rev_not_nil (run : list value) : run <> [] -> rev run <> [].
Proof.
  destruct run as [|r run]; [contradiction|]. intros _ H. simpl in H.
  apply app_eq_nil in H. destruct H as [_ H]. discriminate H.
Qed.

Lemma groupby_from_nonempty (l : list (key * value)) :
  forall tgtkey run,
    run <> [] -> Forall (fun g => snd g <> []) (groupby_from tgtkey run l).
Proof.
  induction l as [|[k r] l IH]; intros tgt run Hrun; simpl.
  - constructor; [apply rev_not_nil, Hrun | constructor].
  - destruct (key_eqb k tgt).
    + apply IH. discriminate.
    + constructor; [apply rev_not_nil, Hrun|]. apply IH. discriminate.
Qed.

Lemma group_rows_nonempty (group : string) (rows : list value)
      (grouping : list (key * list value)) :
  Forall (Spec.carries_ordered_key group) rows ->
  group_rows group rows = Ok grouping -> Forall (fun g => snd g <> []) grouping.
Proof.
  unfold group_rows. intros Ho H.
  destruct (decorate group rows) as [decorated|e] eqn:Hd; [|discriminate H].
  simpl in H. destruct (hash_keys decorated) as [keyed|e] eqn:Hk; [|discriminate H].
  injection H as <-.
  assert (Hkeys := keyed_rows_ordered group rows decorated keyed Ho Hd Hk).
  assert (Hsorted_keys : Forall (fun x => fst x <> KNaN) (sorted keyed))
    by (apply (Permutation_Forall (Permutation_sym (sorted_perm keyed))); exact Hkeys).
  destruct (groupby_sorted (sorted keyed) Hsorted_keys (sorted_sorted keyed Hkeys)) as [_ Hs].
  rewrite (assign_runs_sorted _ Hs).
  destruct (sorted keyed) as [|[k r] l]; [constructor|].
  cbn [groupby]. apply groupby_from_nonempty. discriminate.
Qed.

Lemma rows_with_key_In (group : string) (k : key) (rows : list value) (r : value) :
  In r (Spec.rows_with_key group k rows) ->
  In r rows /\ exists v, getitem r group = Ok v /\ hash_key v = Some k.
Proof.
  unfold Spec.rows_with_key. rewrite filter_In. intros [Hin Hk]. split; [exact Hin|].
  destruct (getitem r group) as [v|e]; [|discriminate Hk].
  destruct (hash_key v) as [k'|] eqn:Hh; [|discriminate Hk].
  apply key_eqb_true in Hk. subst k'. exists v. split; [reflexivity | exact Hh].
Qed.

Lemma group_rows_lookup (group : string) (rows : list value)
      (grouping : list (key * list value)) :
  Forall (Spec.carries_ordered_key group) rows ->
  group_rows group rows = Ok grouping ->
  forall k,
    dict_get key_eqb k grouping
    = match Spec.rows_with_key group k rows with
      | [] => None
      | l => Some l
      end.
Proof.
  intros Ho H k.
  destruct (group_rows_partition group rows grouping Ho H) as (Hperm & Hall & Hnd).
  assert (Hne := group_rows_nonempty group rows grouping Ho H).
  rewrite Forall_forall in Hall, Hne.
  destruct (dict_get key_eqb k grouping) as [l|] eqn:Hget.
  - apply (dict_get_member _ _ key_eqb key_eqb_true) in Hget.
    specialize (Hall _ Hget). specialize (Hne _ Hget). simpl in Hall, Hne.
    rewrite <- Hall. destruct l; [contradiction | reflexivity].
  - destruct (Spec.rows_with_key group k rows) as [|r l] eqn:Hrows; [reflexivity|].
    exfalso.
    assert (Hr : In r (Spec.rows_with_key group k rows)) by (rewrite Hrows; left; reflexivity).
    destruct (rows_with_key_In group k rows r Hr) as (Hin & v & Hv & Hk).
    assert (Hkk : key_eqb k k = true).
    { rewrite Forall_forall in Ho. destruct (Ho r Hin) as (v0 & k0 & Hv0 & Hk0 & Hnan).
      rewrite Hv in Hv0. injection Hv0 as <-. rewrite Hk in Hk0. injection Hk0 as <-.
      apply key_eqb_refl, Hnan. }
    apply (Permutation_in r (Permutation_sym Hperm)) in Hin.
    apply in_concat in Hin. destruct Hin as (l' & Hl' & Hrl').
    apply in_map_iff in Hl'. destruct Hl' as ([k' l''] & Heq & Hentry). simpl in Heq. subst l''.
    assert (Hl' := Hall _ Hentry). simpl in Hl'. rewrite Hl' in Hrl'.
    destruct (rows_with_key_In group k' rows r Hrl') as (_ & v' & Hv' & Hk').
    rewrite Hv in Hv'. injection Hv' as <-. rewrite Hk in Hk'. injection Hk' as <-.
    apply (dict_get_absent _ _ key_eqb k grouping Hkk Hget l' Hentry).
Qed.

(** X16: where every row holds in the field a value that can be a
    dictionary key and is not NaN, looking a key up in the grouping of the
    field gives exactly the rows that hold that key in the field, in input
    order, and a key no row holds is not bound: the grouping has no empty
    group and misses no row. *)
Theorem grouping_lookup (group : string) (rows : list value)
        (grouping : list (key * list value))
        (Hordered : Forall (Spec.carries_ordered_key group) rows)
        (Hok : group_rows group rows = Ok grouping) (k : key) :
  dict_get key_eqb k grouping
  = match Spec.rows_with_key group k rows with
    | [] => None
    | l => Some l
    end.
Proof. apply group_rows_lookup; assumption. Qed.

Lemma grouping_lookup_witness :
  dict_get key_eqb (KNum 5)
    [(KNum 5, [Demo.record 1 5; Demo.record 3 5]); (KNum 7, [Demo.record 2 7])]
  = Some [Demo.record 1 5; Demo.record 3 5]
  /\ dict_get key_eqb (KStr "5")
       [(KNum 5, [Demo.record 1 5; Demo.record 3 5]); (KNum 7, [Demo.record 2 7])]
     = None.
Proof.
  split.
  - apply (grouping_lookup "v" [Demo.record 1 5; Demo.record 2 7; Demo.record 3 5] _
             demo_rows_ordered eq_refl (KNum 5)).
  - apply (grouping_lookup "v" [Demo.record 1 5; Demo.record 2 7; Demo.record 3 5] _
             demo_rows_ordered eq_refl (KStr "5")).
Defined.

(** ** [Query.process_aggregates] *)

Lemma find_snoc (A : Type) (f : A -> bool) (l : list A) (a : A) :
  find f (l ++ [a])
  = match find f l with
    | Some x => Some x
    | None => if f a then Some a else None
    end.
Proof.
  induction l as [|x l IH]; simpl; [reflexivity|].
  destruct (f x); [reflexivity | exact IH].
Qed.

Lemma last_with_alias_cons (n : string) (a : aggregate) (aggs : list aggregate) :
  Spec.last_with_alias n (a :: aggs)
  = match Spec.last_with_alias n aggs with
    | Some x => Some x
    | None => if name a =? n then Some a else None
    end.
Proof. unfold Spec.last_with_alias. simpl. apply find_snoc. Qed.

Lemma aggregate_flat_lookup (E : Collaborators) (aggs : list aggregate) (rows : list value) :
  forall acc r,
    aggregate_flat E aggs rows acc = Ok r ->
    forall n,
      dict_get String.eqb n r
      = match Spec.last_with_alias n aggs with
        | Some a => Spec.returned (aggregate_execute E (function a) rows)
        | None => dict_get String.eqb n acc
        end.
Proof.
  induction aggs as [|a aggs IH]; intros acc r H n.
  - injection H as <-. reflexivity.
  - simpl in H. destruct (aggregate_execute E (function a) rows) as [v|e] eqn:Hv; [|discriminate H].
    simpl in H. rewrite (IH _ _ H n), last_with_alias_cons.
    destruct (Spec.last_with_alias n aggs); [reflexivity|].
    destruct (name a =? n) eqn:Heq.
    + apply String.eqb_eq in Heq. subst n. rewrite Hv. simpl.
      apply (dict_get_set_same _ _ String.eqb string_eqb_spec).
    + apply (dict_get_set_other _ _ String.eqb string_eqb_spec).
      intros Hn. rewrite Hn, String.eqb_refl in Heq. discriminate Heq.
Qed.

(** X17: without groups, the aggregate mapping binds each declared alias
    to what the last aggregate declared under it returns on the whole row
    sequence, and binds nothing else: a repeated alias is overwritten. *)
Theorem flat_aggregates_last_alias_wins (E : Collaborators) (a : aggregate)
        (aggs : list aggregate) (rows : list value) (r : QueryResult)
        (Hok : process_aggregates E (Rows rows) [] (a :: aggs) = Ok r) :
  exists flat,
    r = Aggregates flat
    /\ forall n,
        dict_get String.eqb n flat
        = match Spec.last_with_alias n (a :: aggs) with
          | Some x => Spec.returned (aggregate_execute E (function x) rows)
          | None => None
          end.
Proof.
  cbn [process_aggregates] in Hok.
  destruct (aggregate_flat E (a :: aggs) rows []) as [flat|e] eqn:Hflat; [|discriminate Hok].
  injection Hok as <-. exists flat. split; [reflexivity|].
  intros n. apply (aggregate_flat_lookup E (a :: aggs) rows [] flat Hflat n).
Qed.

Lemma flat_aggregates_last_alias_wins_witness :
  exists flat,
    Aggregates [("n", VInt 17)] = Aggregates flat
    /\ forall n,
        dict_get String.eqb n flat
        = match Spec.last_with_alias n
                  [ {| name := "n"; function := Count ["*"] |};
                    {| name := "n"; function := Sum ["v"] |} ] with
          | Some x =>
              Spec.returned
                (aggregate_execute Demo.collaborators (function x)
                   [Demo.record 1 5; Demo.record 2 7; Demo.record 3 5])
          | None => None
          end.
Proof.
  apply (flat_aggregates_last_alias_wins Demo.collaborators
           {| name := "n"; function := Count ["*"] |}
           [ {| name := "n"; function := Sum ["v"] |} ]
           [Demo.record 1 5; Demo.record 2 7; Demo.record 3 5]).
  reflexivity.
Defined.

Lemma key_not_bound (V : Type) (k : key) (d : list (key * V)) :
  ~ In k (map fst d) -> dict_get key_eqb k d = None.
Proof.
  intros H. destruct (dict_get key_eqb k d) as [v|] eqn:Hg; [|reflexivity].
  exfalso. apply H. apply (dict_get_member _ _ key_eqb key_eqb_true) in Hg.
  apply in_map_iff. exists (k, v). split; [reflexivity | exact Hg].
Qed.

Lemma aggregate_key_lookup (E : Collaborators) (aggs : list aggregate) (k : key)
      (rows : list value) :
  forall per_key per_key',
    aggregate_key E aggs k rows per_key = Ok per_key' ->
    forall k' n,
      Spec.per_key_cell per_key' k' n
      = if key_eqb k' k
        then match Spec.last_with_alias n aggs with
             | Some a => Spec.returned (aggregate_execute E (function a) rows)
             | None => Spec.per_key_cell per_key k' n
             end
        else Spec.per_key_cell per_key k' n.
Proof.
  induction aggs as [|a aggs IH]; intros pk pk' H k' n.
  - injection H as <-. destruct (key_eqb k' k); reflexivity.
  - cbn [aggregate_key] in H.
    destruct (aggregate_execute E (function a) rows) as [v|e] eqn:Hv; [|discriminate H].
    simpl in H. rewrite (IH _ _ H k' n), last_with_alias_cons. clear IH H.
    unfold Spec.per_key_cell.
    destruct (key_eqb k' k) eqn:Hk.
    + assert (Hkk := Hk). apply key_eqb_true in Hk. subst k'.
      rewrite (dict_get_hit _ _ key_eqb k _ _ Hkk).
      rewrite (dict_get_default _ _ key_eqb key_eqb_true), Hkk.
      destruct (Spec.last_with_alias n aggs); [reflexivity|].
      destruct (name a =? n) eqn:Hn.
      * apply String.eqb_eq in Hn. subst n. rewrite Hv. simpl.
        apply (dict_get_set_same _ _ String.eqb string_eqb_spec).
      * rewrite (dict_get_set_other _ _ String.eqb string_eqb_spec)
          by (intros Heq; rewrite Heq, String.eqb_refl in Hn; discriminate Hn).
        destruct (dict_get key_eqb k pk); reflexivity.
    + rewrite (dict_get_miss _ _ key_eqb key_eqb_true k k' _ _ Hk).
      rewrite (dict_get_default _ _ key_eqb key_eqb_true), Hk.
      destruct (dict_get key_eqb k' pk); reflexivity.
Qed.

Lemma aggregate_keys_lookup (E : Collaborators) (aggs : list aggregate)
      (grouping : list (key * list value)) :
  NoDup (map fst grouping) ->
  forall per_key per_key',
    aggregate_keys E aggs grouping per_key = Ok per_key' ->
    forall k n,
      Spec.per_key_cell per_key' k n
      = match dict_get key_eqb k grouping with
        | Some rows =>
            match Spec.last_with_alias n aggs with
            | Some a => Spec.returned (aggregate_execute E (function a) rows)
            | None => Spec.per_key_cell per_key k n
            end
        | None => Spec.per_key_cell per_key k n
        end.
Proof.
  induction grouping as [|[k0 rows0] grouping IH]; intros Hnd pk pk' H k n.
  - injection H as <-. reflexivity.
  - inversion Hnd as [|? ? Hnot Hnd']; subst.
    cbn [aggregate_keys] in H.
    destruct (aggregate_key E aggs k0 rows0 pk) as [pk1|e] eqn:H1; [|discriminate H].
    simpl in H. rewrite (IH Hnd' _ _ H k n), (aggregate_key_lookup E aggs k0 rows0 _ _ H1 k n).
    cbn [dict_get]. destruct (key_eqb k k0) eqn:Hk.
    + apply key_eqb_true in Hk. subst k0. rewrite (key_not_bound _ k grouping Hnot). reflexivity.
    + destruct (dict_get key_eqb k grouping); reflexivity.
Qed.

Lemma expected_cell_idempotent (E : Collaborators) (aggs : list aggregate)
      (grouped : list (string * list (key * list value)))
      (group : string) (k : key) (n : string) (base : option value) :
  Spec.expected_cell E aggs grouped group k n (Spec.expected_cell E aggs grouped group k n base)
  = Spec.expected_cell E aggs grouped group k n base.
Proof.
  unfold Spec.expected_cell.
  destruct (dict_get String.eqb group grouped) as [grouping|]; [|reflexivity].
  destruct (dict_get key_eqb k grouping) as [rows|]; [|reflexivity].
  destruct (Spec.last_with_alias n aggs); reflexivity.
Qed.

Lemma aggregate_groups_lookup (E : Collaborators) (aggs : list aggregate)
      (grouped : list (string * list (key * list value))) :
  (forall g grouping, dict_get String.eqb g grouped = Some grouping -> NoDup (map fst grouping)) ->
  forall groups acc r,
    aggregate_groups E aggs groups grouped acc = Ok r ->
    forall g k n,
      Spec.aggregate_cell r g k n
      = if existsb (String.eqb g) groups
        then Spec.expected_cell E aggs grouped g k n (Spec.aggregate_cell acc g k n)
        else Spec.aggregate_cell acc g k n.
Proof.
  intros Hnd groups. induction groups as [|g0 groups IH]; intros acc r H g k n.
  - injection H as <-. reflexivity.
  - cbn [aggregate_groups] in H.
    destruct (dict_get String.eqb g0 grouped) as [grouping0|] eqn:Hg0; [|discriminate H].
    destruct (aggregate_keys E aggs grouping0 _) as [pk'|e] eqn:Hkeys; [|discriminate H].
    simpl in H. rewrite (IH _ _ H g k n). clear IH H.
    cbn [existsb].
    assert (Hcell : Spec.aggregate_cell
                      (dict_set String.eqb g0 pk' (dict_setdefault String.eqb g0 [] acc)) g k n
                    = if g =? g0
                      then Spec.expected_cell E aggs grouped g k n (Spec.aggregate_cell acc g k n)
                      else Spec.aggregate_cell acc g k n).
    { unfold Spec.aggregate_cell. destruct (g =? g0) eqn:Hg.
      - apply String.eqb_eq in Hg. subst g0.
        rewrite (dict_get_set_same _ _ String.eqb string_eqb_spec).
        rewrite (aggregate_keys_lookup E aggs grouping0 (Hnd g grouping0 Hg0) _ _ Hkeys k n).
        unfold Spec.expected_cell. rewrite Hg0.
        rewrite (dict_get_setdefault _ _ String.eqb string_eqb_spec), String.eqb_refl.
        destruct (dict_get String.eqb g acc); reflexivity.
      - rewrite (dict_get_set_other _ _ String.eqb string_eqb_spec)
          by (intros Heq; rewrite Heq, String.eqb_refl in Hg; discriminate Hg).
        rewrite (dict_get_setdefault _ _ String.eqb string_eqb_spec), Hg.
        destruct (dict_get String.eqb g acc); reflexivity. }
    rewrite Hcell. destruct (g =? g0); cbn [orb].
    + destruct (existsb (String.eqb g) groups); [apply expected_cell_idempotent | reflexivity].
    + reflexivity.
Qed.

(** X18: with groups and aggregates, and rows that hold in every
    requested group field a value that can be a dictionary key and is not
    NaN, the cell for a requested group field, a key and an alias holds
    what the last aggregate declared under that alias returns on the rows
    holding that key in that field; keys no row holds and aliases never
    declared have no cell. *)
Theorem grouped_aggregates_cells (E : Collaborators) (rows : list value)
        (groups : list string) (a : aggregate) (aggs : list aggregate)
        (d r : QueryResult)
        (Hgroups : groups <> [])
        (Hordered : forall g, In g groups -> Forall (Spec.carries_ordered_key g) rows)
        (Hgrouped : process_groups rows groups = Ok d)
        (Hok : process_aggregates E d groups (a :: aggs) = Ok r) :
  exists ga,
    r = GroupAggregates ga
    /\ forall group k n,
        In group groups ->
        Spec.aggregate_cell ga group k n
        = match Spec.rows_with_key group k rows with
          | [] => None
          | l =>
              match Spec.last_with_alias n (a :: aggs) with
              | Some x => Spec.returned (aggregate_execute E (function x) l)
              | None => None
              end
          end.
Proof.
  destruct groups as [|g0 groups]; [contradiction|].
  unfold process_groups in Hgrouped.
  destruct (group_loop rows (g0 :: groups) []) as [g|e] eqn:Hloop; [|discriminate Hgrouped].
  injection Hgrouped as <-. cbn [process_aggregates] in Hok.
  destruct (aggregate_groups E (a :: aggs) (g0 :: groups) g []) as [ga|e] eqn:Hga;
    [|discriminate Hok].
  injection Hok as <-. exists ga. split; [reflexivity|].
  assert (Hlookup := group_loop_lookup rows (g0 :: groups) [] g Hloop).
  assert (Hnd : forall g' grouping,
             dict_get String.eqb g' g = Some grouping -> NoDup (map fst grouping)).
  { intros g' grouping Hg'. destruct (in_dec string_dec g' (g0 :: groups)) as [Hin|Hnot].
    - destruct (proj1 (Hlookup g') Hin) as (grouping' & Hget & Hrows).
      rewrite Hg' in Hget. injection Hget as <-.
      apply (group_rows_partition g' rows grouping (Hordered g' Hin) Hrows).
    - rewrite (proj2 (Hlookup g') Hnot) in Hg'. discriminate Hg'. }
  intros group k n Hin.
  rewrite (aggregate_groups_lookup E (a :: aggs) g Hnd (g0 :: groups) [] ga Hga group k n).
  assert (Hmem : existsb (String.eqb group) (g0 :: groups) = true).
  { apply existsb_exists. exists group. split; [exact Hin | apply String.eqb_refl]. }
  rewrite Hmem. unfold Spec.expected_cell.
  destruct (proj1 (Hlookup group) Hin) as (grouping & Hget & Hrows).
  rewrite Hget, (group_rows_lookup group rows grouping (Hordered group Hin) Hrows k).
  destruct (Spec.rows_with_key group k rows); reflexivity.
Qed.

Lemma grouped_aggregates_cells_witness :
  exists ga,
    GroupAggregates
      [("v", [(KNum 5, [("n", VInt 2); ("s", VInt 4)]); (KNum 7, [("n", VInt 1); ("s", VInt 2)])])]
    = GroupAggregates ga
    /\ forall group k n,
        In group ["v"] ->
        Spec.aggregate_cell ga group k n
        = match Spec.rows_with_key group k [Demo.record 1 5; Demo.record 2 7; Demo.record 3 5] with
          | [] => None
          | l =>
              match Spec.last_with_alias n
                      [ {| name := "n"; function := Count ["*"] |};
                        {| name := "s"; function := Sum ["id"] |} ] with
              | Some x => Spec.returned (aggregate_execute Demo.collaborators (function x) l)
              | None => None
              end
          end.
Proof.
  apply (grouped_aggregates_cells Demo.collaborators
           [Demo.record 1 5; Demo.record 2 7; Demo.record 3 5] ["v"]
           {| name := "n"; function := Count ["*"] |}
           [ {| name := "s"; function := Sum ["id"] |} ]
           (Groups [("v", [(KNum 5, [Demo.record 1 5; Demo.record 3 5]);
                           (KNum 7, [Demo.record 2 7])])])).
  - discriminate.
  - intros g [<-|[]]. exact demo_rows_ordered.
  - reflexivity.
  - reflexivity.
Defined.

(** ** Queries without filters *)

Lemma no_plain_no_filters (E : Collaborators) (parameters : ParameterMap) (d : directives) :
  filter Spec.plain parameters = [] ->
  parse_parameters E parameters = Ok d ->
  filters d = [].
Proof.
  intros Hplain Hparse.
  assert (H := parse_loop_filters E parameters no_directives d Hparse).
  rewrite Hplain in H. simpl in H.
  destruct (filters d); [reflexivity | discriminate H].
Qed.

(** X19: a parameter map that holds directives only is answered from the
    first [limit] records alone: two instances that agree on those records
    give the same result, whatever else their datasets hold.  Grouping and
    aggregating without a filter therefore see [limit] records at most. *)
Theorem unfiltered_query_sees_first_limit_rows (E : Collaborators) (self other : Query)
        (parameters : ParameterMap)
        (Hdirectives : filter Spec.plain parameters = [])
        (Hsame : firstn (limit self) (data self) = firstn (limit other) (data other)) :
  execute E self parameters = execute E other parameters.
Proof.
  unfold execute.
  destruct (parse_parameters E parameters) as [d|e] eqn:Hparse; [|reflexivity].
  simpl. rewrite (no_plain_no_filters E parameters d Hdirectives Hparse).
  cbn [get_filter_functions_map bind run_filters get_data]. rewrite Hsame. reflexivity.
Qed.

Lemma unfiltered_query_sees_first_limit_rows_witness :
  execute Demo.collaborators (Demo.query 1) [("_aggregate", "('n':Count(*))")]
  = execute Demo.collaborators
      {| data := ({| row := Demo.record 1 5 |} :: Demo.wide_dataset)%list; limit := 1;
         klass := Demo.one_sibling; slug := None |}
      [("_aggregate", "('n':Count(*))")].
Proof.
  apply (unfiltered_query_sees_first_limit_rows Demo.collaborators (Demo.query 1)
           {| data := ({| row := Demo.record 1 5 |} :: Demo.wide_dataset)%list; limit := 1;
              klass := Demo.one_sibling; slug := None |}
           [("_aggregate", "('n':Count(*))")]).
  - reflexivity.
  - reflexivity.
Defined.

(** ** Directives the parser does not know *)

(** X21: a parameter whose name starts with the directive delimiter and is
    none of the four directives is dropped by the parser: the parameter map
    parses as it would without it. *)
Theorem unknown_directive_ignored (E : Collaborators) (before after : ParameterMap)
        (p v : string)
        (Hdirective : PyStr.startswith p LQL_DELIMITER = true)
        (Hunknown : p <> "_join" /\ p <> "_fields" /\ p <> "_group_by" /\ p <> "_aggregate") :
  parse_parameters E (before ++ (p, v) :: after)%list = parse_parameters E (before ++ after)%list.
Proof.
  destruct Hunknown as (H1 & H2 & H3 & H4).
  apply String.eqb_neq in H1, H2, H3, H4.
  unfold parse_parameters. rewrite !parse_loop_app.
  destruct (parse_loop E no_directives before) as [st|e]; [|reflexivity].
  simpl. unfold parse_parameter. rewrite Hdirective. cbn [negb].
  change (LQL_DELIMITER ++ "join") with "_join".
  change (LQL_DELIMITER ++ "fields") with "_fields".
  change (LQL_DELIMITER ++ "group_by") with "_group_by".
  change (LQL_DELIMITER ++ "aggregate") with "_aggregate".
  rewrite H1, H2, H3, H4. reflexivity.
Qed.

Lemma unknown_directive_ignored_witness :
  parse_parameters Demo.collaborators [("v", "5"); ("_groupby", "v"); ("_join", "OR")]
  = parse_parameters Demo.collaborators [("v", "5"); ("_join", "OR")].
Proof.
  apply (unknown_directive_ignored Demo.collaborators [("v", "5")] [("_join", "OR")]
           "_groupby" "v").
  - reflexivity.
  - repeat split; discriminate.
Defined.

(** ** The empty dataset *)

Lemma lawful_nil (order : list nat -> list nat) : PySet.lawful order -> order [] = [].
Proof.
  intros H. apply Permutation_nil, Permutation_sym, H.
Qed.

Lemma run_filters_empty_dataset (E : Collaborators) (self : Query) (parameters : ParameterMap)
      (j : JoinType) (fs : list post_filter) :
  PySet.lawful (set_order E) ->
  data self = [] ->
  run_filters E self parameters j fs [] = Val [].
Proof.
  intros Hlawful Hdata. induction fs as [|pf fs IH]; [reflexivity|].
  cbn [run_filters]. unfold filter_matches. rewrite Hdata. cbn [scan_rows combine].
  unfold PySet.of_list. cbn [nodup]. rewrite (lawful_nil _ Hlawful). exact IH.
Qed.

(** X22: field paths are checked against rows only.  On an empty dataset
    a query whose operators are all registered survives the filter loop
    with no position and retrieves no row, whatever fields its filters
    name: no invalid-element or unknown-source error, no redirect. *)
Theorem empty_dataset_accepts_any_field (E : Collaborators) (self : Query)
        (parameters : ParameterMap) (d : directives) (fs : list post_filter)
        (Hlawful : PySet.lawful (set_order E))
        (Hdata : data self = [])
        (Hparse : parse_parameters E parameters = Ok d)
        (Hcompile : get_filter_functions_map E (filters d) = Ok fs) :
  surviving E self parameters = Ok (Val [])
  /\ get_data self (data self) (filters d) [] = Ok [].
Proof.
  split.
  - unfold surviving. rewrite Hparse. simpl. rewrite Hcompile. simpl.
    rewrite (run_filters_empty_dataset E self parameters (join_type d) fs Hlawful Hdata).
    reflexivity.
  - unfold get_data. rewrite Hdata. destruct (filters d); [|reflexivity].
    rewrite firstn_nil. reflexivity.
Qed.

Lemma empty_dataset_accepts_any_field_witness :
  execute Demo.collaborators
    {| data := []; limit := 10; klass := Demo.one_sibling; slug := Some "records" |}
    [("other", "1"); ("nowhere.x", "2")]
  = Ok (Rows [])
  /\ surviving Demo.collaborators
       {| data := []; limit := 10; klass := Demo.one_sibling; slug := Some "records" |}
       [("other", "1"); ("nowhere.x", "2")]
     = Ok (Val []).
Proof.
  split; [reflexivity|].
  apply (proj1 (empty_dataset_accepts_any_field Demo.collaborators
                  {| data := []; limit := 10; klass := Demo.one_sibling; slug := Some "records" |}
                  [("other", "1"); ("nowhere.x", "2")]
                  (append_filter
                     (append_filter no_directives
                        {| field := "other"; filter_name := "equals"; filter_value := VInt 1 |})
                     {| field := "nowhere.x"; filter_name := "equals"; filter_value := VInt 2 |})
                  [Demo.equals_filter "other" (VInt 1); Demo.equals_filter "nowhere.x" (VInt 2)]
                  slot_order_lawful eq_refl eq_refl eq_refl)).
Defined.

(** ** The operands of an aggregate *)

Lemma chars_append (a b : string) :
  list_ascii_of_string (a ++ b) = (list_ascii_of_string a ++ list_ascii_of_string b)%list.
Proof.
  induction a as [|c a IH]; simpl; [reflexivity|]. rewrite IH. reflexivity.
Qed.

Lemma split_go_chars (sep s : string) :
  forall skip cur piece,
    In piece (PyStr.split_go sep s skip cur) ->
    forall c, In c (list_ascii_of_string piece) -> In c cur \/ In c (list_ascii_of_string s).
Proof.
  induction s as [|a s IH]; intros skip cur piece Hin c Hc.
  - destruct Hin as [<-|[]]. rewrite list_ascii_of_string_of_list_ascii in Hc.
    left. apply in_rev. exact Hc.
  - cbn [PyStr.split_go] in Hin. destruct skip as [|k].
    + destruct (String.prefix sep (String a s)).
      * destruct Hin as [<-|Hin].
        -- rewrite list_ascii_of_string_of_list_ascii in Hc. left. apply in_rev. exact Hc.
        -- destruct (IH _ _ _ Hin c Hc) as [[]|H]. right. right. exact H.
      * destruct (IH _ _ _ Hin c Hc) as [[<-|H]|H].
        -- right. left. reflexivity.
        -- left. exact H.
        -- right. right. exact H.
    + destruct (IH _ _ _ Hin c Hc) as [H|H]; [left; exact H | right; right; exact H].
Qed.

Lemma split_lacks (s sep : string) (c : ascii) (piece : string) :
  Spec.lacks c s -> In piece (PyStr.split s sep) -> Spec.lacks c piece.
Proof.
  intros Hs Hin Hc. destruct (split_go_chars sep s 0 [] piece Hin c Hc) as [[]|H].
  apply Hs, H.
Qed.

Lemma split_char_lacks (x : ascii) (s : string) :
  forall cur piece,
    ~ In x cur ->
    In piece (PyStr.split_go (String x EmptyString) s 0 cur) ->
    Spec.lacks x piece.
Proof.
  induction s as [|a s IH]; intros cur piece Hcur Hin.
  - destruct Hin as [<-|[]]. unfold Spec.lacks.
    rewrite list_ascii_of_string_of_list_ascii. intros H. apply Hcur, in_rev, H.
  - cbn [PyStr.split_go] in Hin. simpl String.prefix in Hin.
    destruct (ascii_dec x a) as [Heq|Hne].
    + assert (Hp : String.prefix EmptyString s = true) by (destruct s; reflexivity).
      rewrite Hp in Hin. destruct Hin as [<-|Hin].
      * unfold Spec.lacks. rewrite list_ascii_of_string_of_list_ascii.
        intros H. apply Hcur, in_rev, H.
      * apply (IH [] piece); [intros [] | exact Hin].
    + apply (IH (a :: cur) piece); [|exact Hin].
      intros [H|H]; [apply Hne; symmetry; exact H | apply Hcur, H].
Qed.

Lemma concat_empty_lacks (c : ascii) (pieces : list string) :
  Forall (Spec.lacks c) pieces -> Spec.lacks c (String.concat EmptyString pieces).
Proof.
  induction 1 as [|p pieces Hp Hrest IH]; [intros []|].
  destruct pieces as [|q pieces]; [exact Hp|].
  change (String.concat EmptyString (p :: q :: pieces))
    with (p ++ EmptyString ++ String.concat EmptyString (q :: pieces)).
  unfold Spec.lacks. rewrite !chars_append. simpl. intros H.
  apply in_app_or in H. destruct H as [H|H]; [apply Hp, H | apply IH, H].
Qed.

Lemma replace_lacks (c : ascii) (s old : string) :
  Spec.lacks c s -> Spec.lacks c (PyStr.replace s old EmptyString).
Proof.
  intros Hs. unfold PyStr.replace, PyStr.join. apply concat_empty_lacks.
  apply Forall_forall. intros piece Hin. apply (split_lacks s old c piece Hs Hin).
Qed.

Lemma lacks_contains (x : ascii) (s : string) :
  Spec.lacks x s -> PyStr.contains (String x EmptyString) s = false.
Proof.
  induction s as [|a s IH]; intros H; [reflexivity|].
  cbn [PyStr.contains]. simpl String.prefix.
  destruct (ascii_dec x a) as [Heq|Hne].
  - exfalso. apply H. left. symmetry. exact Heq.
  - simpl. apply IH. intros Hin. apply H. right. exact Hin.
Qed.

Lemma split_one_operand (s : string) :
  Spec.lacks ","%char s -> List.length (PyStr.split s ",") = 1.
Proof.
  intros H. unfold PyStr.split. apply split_go_without_separator.
  apply (lacks_contains ","%char s H).
Qed.

Lemma parse_aggregate_operands (element : string) (a : aggregate) :
  Spec.lacks ","%char element ->
  parse_aggregate element = Ok (Some a) ->
  List.length (Spec.operands (function a)) = 1.
Proof.
  intros Hel. unfold parse_aggregate.
  destruct (PyStr.split element ":") as [|n [|f [|x l]]] eqn:Hs; try discriminate.
  assert (Hf : Spec.lacks ","%char f).
  { apply (split_lacks element ":" ","%char f Hel). rewrite Hs. right. left. reflexivity. }
  destruct (PyStr.startswith f "Count(").
  - intros [= <-]. simpl. apply split_one_operand. apply replace_lacks, replace_lacks, Hf.
  - destruct (PyStr.startswith f "Sum("); [|discriminate].
    intros [= <-]. simpl. apply split_one_operand. apply replace_lacks, replace_lacks, Hf.
Qed.

Lemma parse_aggregates_operands (elements : list string) :
  Forall (Spec.lacks ","%char) elements ->
  forall acc r,
    Forall (fun a => List.length (Spec.operands (function a)) = 1) acc ->
    parse_aggregates elements acc = Ok r ->
    Forall (fun a => List.length (Spec.operands (function a)) = 1) r.
Proof.
  induction 1 as [|el elements Hel _ IH]; intros acc r Hacc H.
  - injection H as <-. exact Hacc.
  - cbn [parse_aggregates] in H.
    destruct (parse_aggregate el) as [[a|]|e] eqn:Ha; simpl in H; try discriminate H.
    + apply (IH _ r) in H; [exact H|].
      apply Forall_app. split; [exact Hacc|].
      constructor; [apply (parse_aggregate_operands el a Hel Ha) | constructor].
    + apply (IH _ r Hacc H).
Qed.

Lemma parse_parameter_operands (E : Collaborators) (st st' : directives) (p v : string) :
  Forall (fun a => List.length (Spec.operands (function a)) = 1) (aggregates st) ->
  parse_parameter E st p v = Ok st' ->
  Forall (fun a => List.length (Spec.operands (function a)) = 1) (aggregates st').
Proof.
  intros Hst. unfold parse_parameter.
  destruct (PyStr.startswith p LQL_DELIMITER); cbn [negb].
  - destruct (p =? LQL_DELIMITER ++ "join").
    { destruct (PyStr.upper v =? "OR"); intros [= <-]; exact Hst. }
    destruct (p =? LQL_DELIMITER ++ "fields"); [intros [= <-]; exact Hst|].
    destruct (p =? LQL_DELIMITER ++ "group_by"); [intros [= <-]; exact Hst|].
    destruct (p =? LQL_DELIMITER ++ "aggregate"); [|intros [= <-]; exact Hst].
    destruct (parse_aggregates _ _) as [r|e] eqn:Ha; simpl; [|discriminate].
    intros [= <-]. simpl.
    refine (parse_aggregates_operands _ _ (aggregates st) r Hst Ha).
    apply Forall_forall. intros piece Hin.
    apply (split_char_lacks ","%char (PyStr.slice_1_m1 (PyStr.strip v)) [] piece);
      [intros [] | exact Hin].
  - destruct (parse_value E v) as [x|e]; [|destruct e; simpl; discriminate].
    simpl. destruct (negb (PyStr.contains DOUBLE_DELIMITER p)); [intros [= <-]; exact Hst|].
    destruct (PyStr.split p DOUBLE_DELIMITER) as [|a [|b [|c l]]]; try discriminate.
    intros [= <-]; exact Hst.
Qed.

Lemma parse_loop_operands (E : Collaborators) (items : ParameterMap) :
  forall st d,
    Forall (fun a => List.length (Spec.operands (function a)) = 1) (aggregates st) ->
    parse_loop E st items = Ok d ->
    Forall (fun a => List.length (Spec.operands (function a)) = 1) (aggregates d).
Proof.
  induction items as [|[p v] items IH]; intros st d Hst H.
  - injection H as <-. exact Hst.
  - simpl in H. destruct (parse_parameter E st p v) as [st1|e] eqn:Hp; [|discriminate H].
    apply (IH st1 d (parse_parameter_operands E st st1 p v Hst Hp) H).
Qed.

(** X23: the aggregate list is cut at every comma before its elements are
    looked at, so no element holds a comma: every aggregate the parser
    builds has exactly one operand. *)
Theorem aggregates_have_one_operand (E : Collaborators) (parameters : ParameterMap)
        (d : directives) (Hparse : parse_parameters E parameters = Ok d) :
  Forall (fun a => List.length (Spec.operands (function a)) = 1) (aggregates d).
Proof.
  apply (parse_loop_operands E parameters no_directives d); [constructor | exact Hparse].
Qed.

Lemma aggregates_have_one_operand_witness :
  Forall (fun a => List.length (Spec.operands (function a)) = 1)
    [ {| name := "n"; function := Count ["*"] |}; {| name := "s"; function := Sum ["v"] |} ].
Proof.
  apply (aggregates_have_one_operand Demo.collaborators
           [("_aggregate", "('n':Count(*),'s':Sum(v))")]
           (set_aggregates no_directives
              [ {| name := "n"; function := Count ["*"] |};
                {| name := "s"; function := Sum ["v"] |} ])).
  reflexivity.
Defined.

(** A function written with two operands is cut in two.  What becomes of
    the second half depends on what it holds: without a colon it lacks its
    alias and the query is rejected; with one it is an element of its own,
    here one with an unknown function, which is passed over. *)
Example two_operands_rejected :
  parse_parameters Demo.collaborators [("_aggregate", "('s':Sum(id,v))")]
  = Raise (Http400 "Specify an alias for the aggregate").
Proof. reflexivity. Qed.

Example two_operands_second_passed_over :
  parse_parameters Demo.collaborators [("_aggregate", "('s':Sum(id,v:w))")]
  = Ok (set_aggregates no_directives [ {| name := "s"; function := Sum ["id"] |} ]).
Proof. reflexivity. Qed.
